(** * Elixir relationships: inverse resolution and schema derivation

    A shallow embedding of [elixir/relationships.py]: the relationship
    descriptors ([Relationship], [ManyToOne], [OneToOne], [OneToMany],
    [ManyToMany]), the inverse property, [create_keys], [create_tables]
    and the join-clause deriver [_get_join_clauses].

    Python objects live in a store ([World]) and are named by handles
    (indices), so that the mutual references between a relationship and
    its inverse, and the sharing of a bridge table by both ends of a
    many-to-many pair, are kept as references and not copied. *)

From stdpp Require Import base option list strings gmap pretty.
From Stdlib Require Import Ascii.
From Stdlib Require OrderedTypeEx.

Local Open Scope string_scope.
Local Open Scope list_scope.

(** ** Results of fallible code *)

(** The exceptions the module can end with.  The Python code raises a bare
    [Exception] with a message (or an [AssertionError]); the constructors
    name the raise sites. *)
Inductive error : Type :=
| InverseNotFound            (* Relationship.inverse, "Couldn't find a relationship named ..." *)
| TypeMismatch               (* Relationship.inverse, assert self.match_type_of(inverse) *)
| AmbiguousInverse           (* EntityDescriptor.get_inverse_relation *)
| MissingInverse             (* OneToOne.create_keys *)
| ReflectionMismatch         (* ManyToOne.create_keys, autoloaded owner *)
| PrimaryKeyMismatch         (* ManyToOne.create_keys, colname of the wrong length *)
| NoPrimaryKey               (* ManyToOne.create_keys, target without primary key *)
| TargetNotAutoloaded        (* ManyToMany._reflect_table *)
| SelfReferentialAmbiguity   (* ManyToMany._reflect_table *)
| NoSuchTable                (* Table(..., autoload=True) on a table the database lacks *)
| IndexError                 (* self.colname[key_num] out of range *)
| CollaboratorError (msg : string)   (* raised by the entity descriptor *)
| DanglingHandle.            (* a handle naming no object; no Python counterpart *)

Inductive result (A : Type) : Type :=
| Ok (a : A)
| Error (e : error).
Arguments Ok {A} a.
Arguments Error {A} e.

Definition rbind {A B : Type} (m : result A) (f : A -> result B) : result B :=
  match m with
  | Ok a => f a
  | Error e => Error e
  end.

Definition of_option {A : Type} (o : option A) : result A :=
  match o with
  | Some a => Ok a
  | None => Error DanglingHandle
  end.

Notation "'let*' x := m 'in' k" := (rbind m (fun x => k))
  (at level 10, x pattern, m at level 100, k at level 200).

(** ** Data model *)

(** Values of keyword-argument dictionaries ([column_kwargs],
    [constraint_kwargs], and the keywords given to [Column] and
    [ForeignKeyConstraint]). *)
Inductive kwval : Type :=
| VBool (b : bool)
| VStr (s : string)
| VNone.

#[global] Instance kwval_eq_dec : EqDecision kwval.
Proof. solve_decision. Defined.

(** [Column(name, type, **kwargs)] *)
Record Column : Type := mkColumn {
  col_key : string;
  col_type : string;
  col_kwargs : gmap string kwval
}.

#[global] Instance Column_eq_dec : EqDecision Column.
Proof. solve_decision. Defined.

(** SQLAlchemy's [Column.primary_key] (default [False]) and
    [Column.nullable] (default [not primary_key]). *)
Definition col_primary_key (c : Column) : bool :=
  bool_decide (col_kwargs c !! "primary_key" = Some (VBool true)).

Definition col_nullable (c : Column) : bool :=
  match col_kwargs c !! "nullable" with
  | Some (VBool b) => b
  | _ => negb (col_primary_key c)
  end.

(** The expression [col == pk_col]: an equality predicate between a local
    and a remote column. *)
Inductive Clause : Type :=
| ClauseEq (local remote : Column).

#[global] Instance Clause_eq_dec : EqDecision Clause.
Proof. solve_decision. Defined.

(** An element of a foreign-key constraint of a table: [fk.parent] is the
    local column, [fk.column] the referenced one, which belongs to the
    table named [fk_column_table]. *)
Record ForeignKey : Type := mkForeignKey {
  fk_parent : Column;
  fk_column : Column;
  fk_column_table : string
}.

(** [ForeignKeyConstraint(columns, refcolumns, **kwargs)].  A constraint
    built by this module is given by names; [fkc_elements] are the resolved
    elements of a constraint of a reflected table. *)
Record ForeignKeyConstraint : Type := mkForeignKeyConstraint {
  fkc_columns : list string;
  fkc_refcolumns : list string;
  fkc_kwargs : gmap string kwval;
  fkc_elements : list ForeignKey
}.

Inductive Constraint : Type :=
| FKConstraint (c : ForeignKeyConstraint)
| OtherConstraint (name : string).    (* primary key, unique, check ... *)

Record Table : Type := mkTable {
  tbl_name : string;
  tbl_columns : list Column;
  tbl_constraints : list Constraint;
  tbl_autoload : bool
}.

(** Handles of entities, relationships and tables in the store. *)
Abbreviation ent_id := nat (only parsing).
Abbreviation rel_id := nat (only parsing).
Abbreviation table_id := nat (only parsing).

Inductive Kind : Type := ManyToOne | OneToOne | OneToMany | ManyToMany.

#[global] Instance Kind_eq_dec : EqDecision Kind.
Proof. solve_decision. Defined.

(** One relationship object.  The record is the union of the attributes of
    the four classes; [rel_target] is the resolved [target] (the code
    resolves [of_kind] lazily and caches it in [_target]). *)
Record Relationship : Type := mkRelationship {
  rel_kind : Kind;
  rel_entity : ent_id;
  rel_name : string;
  rel_target : ent_id;
  inverse_name : option string;
  _inverse : option rel_id;
  (* ManyToOne *)
  colname : list string;
  column_kwargs : gmap string kwval;
  constraint_kwargs : gmap string kwval;
  foreign_key : list Column;
  primaryjoin_clauses : list Clause;        (* ManyToOne and ManyToMany *)
  (* ManyToMany *)
  user_tablename : option string;
  local_side : list string;
  remote_side : list string;
  ondelete : option string;
  onupdate : option string;
  column_format : string;
  secondary_table : option table_id;
  secondaryjoin_clauses : list Clause
}.

(** The part of [EntityDescriptor] the module reads and writes. *)
Record EntityDescriptor : Type := mkEntityDescriptor {
  entity_name : string;                 (* entity.__name__ *)
  tablename : string;
  autoload : bool;
  parent : option ent_id;
  relationships : list rel_id;
  desc_columns : list Column;
  desc_constraints : list Constraint;
  schema : option string;               (* table_options.get('schema', None) *)
  table : option Table                  (* entity.table *)
}.

(** The store: entities, relationship objects, the tables of the metadata
    (a bridge table is referred to by its index here), and the tables of
    the database that reflection can load. *)
Record World : Type := mkWorld {
  entities : list EntityDescriptor;
  rels : list Relationship;
  metadata : list Table;
  database : gmap string (list Column * list Constraint)
}.

Definition get_rel (w : World) (i : rel_id) : result Relationship :=
  of_option (rels w !! i).

Definition get_desc (w : World) (e : ent_id) : result EntityDescriptor :=
  of_option (entities w !! e).

Definition upd_rel (w : World) (i : rel_id) (r : Relationship) : World :=
  {| entities := entities w; rels := <[i:=r]> (rels w);
     metadata := metadata w; database := database w |}.

Definition upd_desc (w : World) (e : ent_id) (d : EntityDescriptor) : World :=
  {| entities := <[e:=d]> (entities w); rels := rels w;
     metadata := metadata w; database := database w |}.

(** Attribute assignments on a relationship object. *)
Definition set__inverse (v : option rel_id) (r : Relationship) : Relationship :=
  {| rel_kind := rel_kind r; rel_entity := rel_entity r; rel_name := rel_name r;
     rel_target := rel_target r; inverse_name := inverse_name r; _inverse := v;
     colname := colname r; column_kwargs := column_kwargs r;
     constraint_kwargs := constraint_kwargs r; foreign_key := foreign_key r;
     primaryjoin_clauses := primaryjoin_clauses r;
     user_tablename := user_tablename r; local_side := local_side r;
     remote_side := remote_side r; ondelete := ondelete r; onupdate := onupdate r;
     column_format := column_format r; secondary_table := secondary_table r;
     secondaryjoin_clauses := secondaryjoin_clauses r |}.

Definition set_entity_name (e : ent_id) (n : string) (r : Relationship) : Relationship :=
  {| rel_kind := rel_kind r; rel_entity := e; rel_name := n;
     rel_target := rel_target r; inverse_name := inverse_name r; _inverse := _inverse r;
     colname := colname r; column_kwargs := column_kwargs r;
     constraint_kwargs := constraint_kwargs r; foreign_key := foreign_key r;
     primaryjoin_clauses := primaryjoin_clauses r;
     user_tablename := user_tablename r; local_side := local_side r;
     remote_side := remote_side r; ondelete := ondelete r; onupdate := onupdate r;
     column_format := column_format r; secondary_table := secondary_table r;
     secondaryjoin_clauses := secondaryjoin_clauses r |}.

Definition set_foreign_key (fk : list Column) (pj : list Clause) (r : Relationship)
  : Relationship :=
  {| rel_kind := rel_kind r; rel_entity := rel_entity r; rel_name := rel_name r;
     rel_target := rel_target r; inverse_name := inverse_name r; _inverse := _inverse r;
     colname := colname r; column_kwargs := column_kwargs r;
     constraint_kwargs := constraint_kwargs r; foreign_key := fk;
     primaryjoin_clauses := pj;
     user_tablename := user_tablename r; local_side := local_side r;
     remote_side := remote_side r; ondelete := ondelete r; onupdate := onupdate r;
     column_format := column_format r; secondary_table := secondary_table r;
     secondaryjoin_clauses := secondaryjoin_clauses r |}.

Definition set_constraint_kwargs (kw : gmap string kwval) (r : Relationship)
  : Relationship :=
  {| rel_kind := rel_kind r; rel_entity := rel_entity r; rel_name := rel_name r;
     rel_target := rel_target r; inverse_name := inverse_name r; _inverse := _inverse r;
     colname := colname r; column_kwargs := column_kwargs r;
     constraint_kwargs := kw; foreign_key := foreign_key r;
     primaryjoin_clauses := primaryjoin_clauses r;
     user_tablename := user_tablename r; local_side := local_side r;
     remote_side := remote_side r; ondelete := ondelete r; onupdate := onupdate r;
     column_format := column_format r; secondary_table := secondary_table r;
     secondaryjoin_clauses := secondaryjoin_clauses r |}.

Definition set_secondary (t : option table_id) (pj sj : list Clause) (r : Relationship)
  : Relationship :=
  {| rel_kind := rel_kind r; rel_entity := rel_entity r; rel_name := rel_name r;
     rel_target := rel_target r; inverse_name := inverse_name r; _inverse := _inverse r;
     colname := colname r; column_kwargs := column_kwargs r;
     constraint_kwargs := constraint_kwargs r; foreign_key := foreign_key r;
     primaryjoin_clauses := pj;
     user_tablename := user_tablename r; local_side := local_side r;
     remote_side := remote_side r; ondelete := ondelete r; onupdate := onupdate r;
     column_format := column_format r; secondary_table := t;
     secondaryjoin_clauses := sj |}.

(** Python truth value of a string-or-None attribute, of a list. *)
Definition truthy (o : option string) : bool :=
  match o with
  | Some s => negb (String.eqb s "")
  | None => false
  end.

Definition nonempty {A : Type} (l : list A) : bool :=
  match l with
  | [] => false
  | _ :: _ => true
  end.

(** ** Kind compatibility and inverse matching *)

(** [match_type_of]: [ManyToOne] accepts instances of [OneToMany] and
    [OneToOne]; [OneToOne] (and [OneToMany], which inherits the method)
    accepts [ManyToOne]; [ManyToMany] accepts [ManyToMany]. *)
Definition match_type_of (self other : Kind) : bool :=
  match self with
  | ManyToOne => match other with OneToMany | OneToOne => true | _ => false end
  | OneToOne | OneToMany => match other with ManyToOne => true | _ => false end
  | ManyToMany => match other with ManyToMany => true | _ => false end
  end.

(** [Relationship.is_inverse], with the extension of
    [ManyToMany.is_inverse]. *)
Definition base_is_inverse (i : rel_id) (self : Relationship)
    (j : rel_id) (other : Relationship) : bool :=
  negb (Nat.eqb j i)
  && match_type_of (rel_kind self) (rel_kind other)
  && Nat.eqb (rel_entity self) (rel_target other)
  && Nat.eqb (rel_entity other) (rel_target self)
  && (bool_decide (inverse_name self = Some (rel_name other))
      || negb (truthy (inverse_name self)))
  && (bool_decide (inverse_name other = Some (rel_name self))
      || negb (truthy (inverse_name other))).

Definition is_inverse (i : rel_id) (self : Relationship)
    (j : rel_id) (other : Relationship) : bool :=
  match rel_kind self with
  | ManyToMany =>
      base_is_inverse i self j other
      && (bool_decide (user_tablename self = user_tablename other)
          || (negb (truthy (user_tablename self))
              && negb (truthy (user_tablename other))))
  | _ => base_is_inverse i self j other
  end.

(** Modelled from the spec: [EntityDescriptor.find_relationship], which is
    not in this module.  The spec: "looks it up by name among the target's
    relationships (including inherited ones)".  The walk up the parent
    chain is bounded by the number of entities. *)
Fixpoint find_relationship_in (fuel : nat) (w : World) (e : ent_id) (name : string)
  : option rel_id :=
  match fuel with
  | 0 => None
  | S fuel' =>
      match entities w !! e with
      | None => None
      | Some d =>
          match List.find
                  (fun i => match rels w !! i with
                            | Some r => String.eqb (rel_name r) name
                            | None => false
                            end) (relationships d) with
          | Some i => Some i
          | None =>
              match parent d with
              | Some p => find_relationship_in fuel' w p name
              | None => None
              end
          end
      end
  end.

Definition find_relationship (w : World) (e : ent_id) (name : string)
  : option rel_id :=
  find_relationship_in (S (length (entities w))) w e name.

(** Modelled from the spec: [EntityDescriptor.get_inverse_relation], the
    inverse matcher, which is not in this module.  The spec: "enumerates the
    target entity's relationship descriptors, filters to those satisfying
    is_valid_inverse_of; if exactly one remains, returns it; if zero,
    returns none; if more than one, fails with AmbiguousInverse". *)
Definition get_inverse_relation (w : World) (e : ent_id) (i : rel_id)
  : result (option rel_id) :=
  match rels w !! i, entities w !! e with
  | Some r, Some d =>
      match List.filter (fun j => match rels w !! j with
                                  | Some other => is_inverse j other i r
                                  | None => false
                                  end) (relationships d) with
      | [] => Ok None
      | [j] => Ok (Some j)
      | _ => Error AmbiguousInverse
      end
  | _, _ => Error DanglingHandle
  end.

(** The relationship a resolution finds when [_inverse] is not set: by
    name when [inverse_name] is set, by the matcher otherwise (the first
    [if] of the property). *)
Definition candidate (w : World) (self : rel_id) (r : Relationship)
  : result (option rel_id) :=
  if truthy (inverse_name r) then
    match find_relationship w (rel_target r) (default "" (inverse_name r)) with
    | None => Error InverseNotFound
    | Some i =>
        let* ri := get_rel w i in
        if match_type_of (rel_kind r) (rel_kind ri) then Ok (Some i)
        else Error TypeMismatch
    end
  else get_inverse_relation w (rel_target r) self.

(** The [inverse] property of [Relationship].  Reading it may resolve the
    inverse and then writes both [_inverse] attributes; the new store is
    returned with the value. *)
Definition inverse (w : World) (self : rel_id) : result (World * option rel_id) :=
  let* r := get_rel w self in
  match _inverse r with
  | Some i => Ok (w, Some i)
  | None =>
      let* found := candidate w self r in
      match found with
      | Some i =>
          let w1 := upd_rel w self (set__inverse (Some i) r) in
          let* ri := get_rel w1 i in
          let w2 := upd_rel w1 i (set__inverse (Some self) ri) in
          let* r' := get_rel w2 self in
          Ok (w2, _inverse r')
      | None => Ok (w, None)
      end
  end.

(** [OneToOne.create_keys], inherited by [OneToMany]. *)
Definition OneToOne_create_keys (w : World) (self : rel_id) (pk : bool)
  : result World :=
  let* (w1, inv) := inverse w self in
  match inv with
  | None => Error MissingInverse
  | Some _ => Ok w1
  end.

(** Every cached inverse names a relationship of a compatible kind. *)
Definition cache_typed (w : World) : Prop :=
  forall (i j : rel_id) (r : Relationship),
    rels w !! i = Some r -> _inverse r = Some j ->
    exists rj, rels w !! j = Some rj
               /\ match_type_of (rel_kind r) (rel_kind rj) = true.

(** ** The join-clause deriver *)

(** [list.sort()] on column names. *)
Fixpoint insert_sorted (s : string) (l : list string) : list string :=
  match l with
  | [] => [s]
  | x :: l' => if String.leb s x then s :: l else x :: insert_sorted s l'
  end.

Definition sort (l : list string) : list string := foldr insert_sorted [] l.

(** [fk.references(table)] *)
Definition references (fk : ForeignKey) (t : Table) : bool :=
  String.eqb (fk_column_table fk) (tbl_name t).

(** The inner loop over [constraint.elements]: the pair
    [(use_constraint, fk_colnames)]. *)
Definition scan_elements (target_table : Table) (elements : list ForeignKey)
  : bool * list string :=
  foldl (fun acc fk =>
           if references fk target_table
           then (acc.1, acc.2 ++ [col_key (fk_parent fk)])
           else (false, acc.2))
        (true, []) elements.

(** [constraint_map]: the foreign-key constraints of [local_table] all of
    whose elements point to [target_table], indexed by their sorted local
    column names.  A later constraint with the same key replaces an earlier
    one, as the dictionary assignment does. *)
Definition constraint_map (local_table target_table : Table)
  : gmap (list string) ForeignKeyConstraint :=
  foldl (fun m c =>
           match c with
           | FKConstraint fkc =>
               let scan := scan_elements target_table (fkc_elements fkc) in
               if scan.1 then <[sort scan.2 := fkc]> m else m
           | OtherConstraint _ => m
           end)
        ∅ (tbl_constraints local_table).

(** The test [cols2 in constraint_map]; [None] is never a key. *)
Definition in_map (cols2 : option (list string))
    (m : gmap (list string) ForeignKeyConstraint) : bool :=
  match cols2 with
  | Some c => bool_decide (is_Some (m !! c))
  | None => false
  end.

Definition clauses_of (c : ForeignKeyConstraint) : list Clause :=
  map (fun fk => ClauseEq (fk_parent fk) (fk_column fk)) (fkc_elements c).

(** The slot a constraint is assigned to by the final loop. *)
Definition goes_primary (m : gmap (list string) ForeignKeyConstraint)
    (cols1 : list string) (cols2 : option (list string)) (cols : list string) : bool :=
  bool_decide (cols = cols1)
  || (bool_decide (Some cols ≠ cols2) && negb (nonempty cols1)
      && (in_map cols2 m || bool_decide (cols2 = None))).

Definition goes_secondary (m : gmap (list string) ForeignKeyConstraint)
    (cols1 : list string) (cols2 : option (list string)) (cols : list string) : bool :=
  bool_decide (Some cols = cols2)
  || (bool_decide (cols2 = Some []) && bool_decide (is_Some (m !! cols1))).

Definition join_step (m : gmap (list string) ForeignKeyConstraint)
    (cols1 : list string) (cols2 : option (list string))
    (acc : list Clause * list Clause)
    (item : list string * ForeignKeyConstraint) : list Clause * list Clause :=
  if goes_primary m cols1 cols2 item.1 then (acc.1 ++ clauses_of item.2, acc.2)
  else if goes_secondary m cols1 cols2 item.1 then (acc.1, acc.2 ++ clauses_of item.2)
  else acc.

(** [_get_join_clauses(local_table, local_cols1, local_cols2, target_table)].
    The function has no [raise]; it returns the pair
    [(primary_join, secondary_join)].  The dictionary is visited in the
    order of [map_to_list], which like the order of [iteritems] is fixed
    but not specified. *)
Definition _get_join_clauses (local_table : Table) (local_cols1 : list string)
    (local_cols2 : option (list string)) (target_table : Table)
  : list Clause * list Clause :=
  let cols1 := sort local_cols1 in
  let cols2 := sort <$> local_cols2 in
  let m := constraint_map local_table target_table in
  foldl (join_step m cols1 cols2) ([], []) (map_to_list m).

(** ** Construction of a [ManyToOne] *)

Inductive colname_arg : Type :=
| ColnameAbsent
| ColnameStr (s : string)
| ColnameList (l : list string).

(** The keyword arguments [ManyToOne.__init__] and [Relationship.__init__]
    pop; [None] stands for a keyword that is not given. *)
Record M2OArgs : Type := mkM2OArgs {
  arg_colname : colname_arg;
  arg_column_kwargs : gmap string kwval;
  arg_required : option bool;
  arg_primary_key : option bool;
  arg_constraint_kwargs : gmap string kwval;
  arg_use_alter : option bool;
  arg_ondelete : option string;
  arg_onupdate : option string;
  arg_inverse : option string
}.

Definition set_opt (k : string) (v : option kwval) (m : gmap string kwval)
  : gmap string kwval :=
  match v with
  | Some x => <[k:=x]> m
  | None => m
  end.

(** [dict.setdefault] *)
Definition setdefault (k : string) (v : kwval) (m : gmap string kwval)
  : gmap string kwval :=
  match m !! k with
  | Some _ => m
  | None => <[k:=v]> m
  end.

(** [ManyToOne.__init__(of_kind, **kwargs)].  The relationship is not yet
    attached: [attach] gives it its entity and name. *)
Definition ManyToOne_init (of_kind : ent_id) (a : M2OArgs) : Relationship :=
  {| rel_kind := ManyToOne; rel_entity := 0; rel_name := "";
     rel_target := of_kind; inverse_name := arg_inverse a; _inverse := None;
     colname := match arg_colname a with
                | ColnameAbsent => []
                | ColnameStr s => if String.eqb s "" then [] else [s]
                | ColnameList l => l
                end;
     column_kwargs :=
       setdefault "index" (VBool true)
         (set_opt "primary_key" (VBool <$> arg_primary_key a)
            (set_opt "nullable" ((fun b => VBool (negb b)) <$> arg_required a)
               (arg_column_kwargs a)));
     constraint_kwargs :=
       set_opt "onupdate" (VStr <$> arg_onupdate a)
         (set_opt "ondelete" (VStr <$> arg_ondelete a)
            (set_opt "use_alter" (VBool <$> arg_use_alter a)
               (arg_constraint_kwargs a)));
     foreign_key := []; primaryjoin_clauses := [];
     user_tablename := None; local_side := []; remote_side := [];
     ondelete := None; onupdate := None; column_format := "";
     secondary_table := None; secondaryjoin_clauses := [] |}.

(** [Relationship.__init__] for the classes without keyword arguments of
    their own: [OneToOne] and [OneToMany]. *)
Definition Relationship_init (k : Kind) (of_kind : ent_id) (inv : option string)
  : Relationship :=
  {| rel_kind := k; rel_entity := 0; rel_name := "";
     rel_target := of_kind; inverse_name := inv; _inverse := None;
     colname := []; column_kwargs := ∅; constraint_kwargs := ∅;
     foreign_key := []; primaryjoin_clauses := [];
     user_tablename := None; local_side := []; remote_side := [];
     ondelete := None; onupdate := None; column_format := "";
     secondary_table := None; secondaryjoin_clauses := [] |}.

(** The keyword arguments [ManyToMany.__init__] pops; a single column name
    given for [local_side] or [remote_side] is a one-element list. *)
Record M2MArgs : Type := mkM2MArgs {
  arg_tablename : option string;
  arg_local_side : list string;
  arg_remote_side : list string;
  arg_m2m_ondelete : option string;
  arg_m2m_onupdate : option string;
  arg_column_format : string;      (* default options.M2MCOL_NAMEFORMAT *)
  arg_m2m_inverse : option string
}.

(** [ManyToMany.__init__(of_kind, **kwargs)] *)
Definition ManyToMany_init (of_kind : ent_id) (a : M2MArgs) : Relationship :=
  {| rel_kind := ManyToMany; rel_entity := 0; rel_name := "";
     rel_target := of_kind; inverse_name := arg_m2m_inverse a; _inverse := None;
     colname := []; column_kwargs := ∅; constraint_kwargs := ∅;
     foreign_key := []; primaryjoin_clauses := [];
     user_tablename := arg_tablename a; local_side := arg_local_side a;
     remote_side := arg_remote_side a;
     ondelete := arg_m2m_ondelete a; onupdate := arg_m2m_onupdate a;
     column_format := arg_column_format a;
     secondary_table := None; secondaryjoin_clauses := [] |}.

(** Updates of an entity descriptor. *)
Definition with_relationships (l : list rel_id) (d : EntityDescriptor)
  : EntityDescriptor :=
  {| entity_name := entity_name d; tablename := tablename d; autoload := autoload d;
     parent := parent d; relationships := l; desc_columns := desc_columns d;
     desc_constraints := desc_constraints d; schema := schema d; table := table d |}.

Definition with_columns (l : list Column) (d : EntityDescriptor) : EntityDescriptor :=
  {| entity_name := entity_name d; tablename := tablename d; autoload := autoload d;
     parent := parent d; relationships := relationships d; desc_columns := l;
     desc_constraints := desc_constraints d; schema := schema d; table := table d |}.

Definition with_constraints (l : list Constraint) (d : EntityDescriptor)
  : EntityDescriptor :=
  {| entity_name := entity_name d; tablename := tablename d; autoload := autoload d;
     parent := parent d; relationships := relationships d;
     desc_columns := desc_columns d;
     desc_constraints := l; schema := schema d; table := table d |}.

(** [Relationship.attach(entity, name)]: the object enters the store and
    the list of relationships of the entity's descriptor. *)
Definition attach (w : World) (r : Relationship) (entity : ent_id) (name : string)
  : result (World * rel_id) :=
  let* d := get_desc w entity in
  let i := length (rels w) in
  Ok ({| entities := <[entity := with_relationships (relationships d ++ [i]) d]> (entities w);
         rels := rels w ++ [set_entity_name entity name r];
         metadata := metadata w; database := database w |}, i).

(** Modelled from the spec: [EntityDescriptor.add_column] and
    [EntityDescriptor.add_constraint], which are not in this module.  The
    spec lists them as "entity.add_column(col)" and
    "entity.add_constraint(constraint)": the column, the constraint, is
    added to those of the entity. *)
Definition add_column (w : World) (e : ent_id) (col : Column) : result World :=
  let* d := get_desc w e in
  Ok (upd_desc w e (with_columns (desc_columns d ++ [col]) d)).

Definition add_constraint (w : World) (e : ent_id) (c : Constraint) : result World :=
  let* d := get_desc w e in
  Ok (upd_desc w e (with_constraints (desc_constraints d ++ [c]) d)).

(** [str.lower()] on ASCII letters. *)
Definition lower_char (c : Ascii.ascii) : Ascii.ascii :=
  let n := Ascii.nat_of_ascii c in
  if (65 <=? n)%nat && (n <=? 90)%nat then Ascii.ascii_of_nat (n + 32) else c.

Fixpoint lower (s : string) : string :=
  match s with
  | EmptyString => EmptyString
  | String c s' => String (lower_char c) (lower s')
  end.

(** Modelled from the spec: the default of [options.FKCOL_NAMEFORMAT], a
    constant that is not in this module: the relationship name and the key
    of the target column joined by an underscore ("a column owner_id"). *)
Definition default_FKCOL_NAMEFORMAT (relname key : string) : string :=
  relname +:+ "_" +:+ key.

(** [Table(tablename, metadata, *args)]: the table joins the metadata; the
    handle of the new table is returned. *)
Definition new_table (w : World) (t : Table) : World * table_id :=
  ({| entities := entities w; rels := rels w;
      metadata := metadata w ++ [t]; database := database w |},
   length (metadata w)).

(** [Table(tablename, metadata, autoload=True)]: columns and constraints
    come from the database. *)
Definition reflect_table (w : World) (name : string) : result (World * table_id) :=
  match database w !! name with
  | Some (cols, cstrs) => Ok (new_table w (mkTable name cols cstrs true))
  | None => Error NoSuchTable
  end.

(** ** Example stores *)

(** An entity whose table is reflected from the database. *)
Definition reflected_entity (name tname : string) (t : Table) : EntityDescriptor :=
  mkEntityDescriptor name tname true None [] [] [] None (Some t).

(** An entity that is created, with its columns so far. *)
Definition plain_entity (name tname : string) (cols : list Column) : EntityDescriptor :=
  mkEntityDescriptor name tname false None [] cols [] None None.

(** [ManyToOne(...)] without keyword, and with [inverse=] only. *)
Definition no_M2OArgs : M2OArgs :=
  mkM2OArgs ColnameAbsent ∅ None None ∅ None None None None.

Definition M2O_inverse (inv : string) : M2OArgs :=
  mkM2OArgs ColnameAbsent ∅ None None ∅ None None None (Some inv).

Definition id_column : Column :=
  mkColumn "id" "Integer" {["primary_key" := VBool true]}.

(** The store a sequence of [attach] calls ends with. *)
Definition world_of (r : result (World * rel_id)) : World :=
  match r with
  | Ok (w, _) => w
  | Error _ => mkWorld [] [] [] ∅
  end.

(** [Person.pets = OneToMany('Pet', inverse='owner')],
    [Pet.owner = ManyToOne('Person')] and
    [Pet.feeder = ManyToOne('Person', inverse='pets')]:
    entities 0 and 1, relationships 0, 1 and 2. *)
Definition pets_world : World :=
  world_of
    (let* (w1, _) :=
       attach (mkWorld [plain_entity "Person" "person" [id_column];
                        plain_entity "Pet" "pet" [id_column]] [] [] ∅)
         (Relationship_init OneToMany 1 (Some "owner")) 0 "pets" in
     let* (w2, _) := attach w1 (ManyToOne_init 0 no_M2OArgs) 1 "owner" in
     attach w2 (ManyToOne_init 0 (M2O_inverse "pets")) 1 "feeder").

(** The same three relationships without any inverse name. *)
Definition unnamed_pets_world : World :=
  world_of
    (let* (w1, _) :=
       attach (mkWorld [plain_entity "Person" "person" [id_column];
                        plain_entity "Pet" "pet" [id_column]] [] [] ∅)
         (Relationship_init OneToMany 1 None) 0 "pets" in
     let* (w2, _) := attach w1 (ManyToOne_init 0 no_M2OArgs) 1 "owner" in
     attach w2 (ManyToOne_init 0 no_M2OArgs) 1 "feeder").

(** [Person.pets = OneToMany('Pet', inverse='keeper')] where [Pet] has
    only [owner]. *)
Definition keeper_world : World :=
  world_of
    (let* (w1, _) :=
       attach (mkWorld [plain_entity "Person" "person" [id_column];
                        plain_entity "Pet" "pet" [id_column]] [] [] ∅)
         (Relationship_init OneToMany 1 (Some "keeper")) 0 "pets" in
     attach w1 (ManyToOne_init 0 no_M2OArgs) 1 "owner").

(** [Person.pets = OneToMany('Pet', inverse='friends')] where
    [Pet.friends] is a [OneToMany] too. *)
Definition friends_world : World :=
  world_of
    (let* (w1, _) :=
       attach (mkWorld [plain_entity "Person" "person" [id_column];
                        plain_entity "Pet" "pet" [id_column]] [] [] ∅)
         (Relationship_init OneToMany 1 (Some "friends")) 0 "pets" in
     attach w1 (Relationship_init OneToMany 0 None) 1 "friends").

(** [Person.children = OneToMany('Person')] alone: the [ManyToOne] it
    needs is not declared. *)
Definition children_only_world : World :=
  world_of
    (attach (mkWorld [plain_entity "Person" "person" [id_column]] [] [] ∅)
       (Relationship_init OneToMany 0 None) 0 "children").

(** [Person.pets = OneToMany('Pet', inverse='owner')] and
    [Pet.owner = ManyToOne('Person', inverse='nonexistent')]: [Person] has
    no relationship of that name. *)
Definition misnamed_owner_world : World :=
  world_of
    (let* (w1, _) :=
       attach (mkWorld [plain_entity "Person" "person" [id_column];
                        plain_entity "Pet" "pet" [id_column]] [] [] ∅)
         (Relationship_init OneToMany 1 (Some "owner")) 0 "pets" in
     attach w1 (ManyToOne_init 0 (M2O_inverse "nonexistent")) 1 "owner").

(** Collaborators for the runs: an entity whose primary-key columns are
    already set up, whose primary key is read off its columns, and a
    constraint name made of the table name and the column names. *)
Definition pk_cols_done (w : World) (e : ent_id) : result World := Ok w.

Definition pk_of_columns (es : list EntityDescriptor) (e : ent_id) : list Column :=
  match es !! e with
  | Some d => List.filter col_primary_key (desc_columns d)
  | None => []
  end.

Definition example_CONSTRAINT_NAMEFORMAT (tname colnames : string) : string :=
  tname +:+ "_" +:+ colnames +:+ "_fk".

(** The table of [Person], as reflection returns it. *)
Definition person_table : Table :=
  mkTable "person" [id_column] [OtherConstraint "person_pkey"] true.

(** The bridge table of a self-referential many-to-many on [person], as
    reflection returns it, with three foreign keys to [person]. *)
Definition friend_column (name : string) : Column :=
  mkColumn name "Integer" {["primary_key" := VBool true]}.

Definition friend_fk (name : string) : Constraint :=
  FKConstraint (mkForeignKeyConstraint [name] ["person.id"] ∅
                  [mkForeignKey (friend_column name) id_column "person"]).

Definition friends_table : Table :=
  mkTable "friends"
    [friend_column "a_id"; friend_column "b_id"; friend_column "c_id"]
    [friend_fk "a_id"; friend_fk "b_id"; friend_fk "c_id"] true.

(** A table with three foreign keys to [person], two of them on the same
    local column [b_id]. *)
Definition uid_column : Column := mkColumn "uid" "Integer" ∅.

Definition links_table : Table :=
  mkTable "links"
    [friend_column "a_id"; friend_column "b_id"]
    [friend_fk "a_id"; friend_fk "b_id";
     FKConstraint (mkForeignKeyConstraint ["b_id"] ["person.uid"] ∅
                     [mkForeignKey (friend_column "b_id") uid_column "person"])]
    true.

(** A reflected [Person] with
    [friends = ManyToMany('Person', tablename='friends', local_side='a_id')]
    and the table [friends] in the database. *)
Definition selfref_world : World :=
  world_of
    (attach (mkWorld [reflected_entity "Person" "person" person_table] [] []
               {["friends" := (tbl_columns friends_table,
                               tbl_constraints friends_table)]})
       (ManyToMany_init 0
          (mkM2MArgs (Some "friends") ["a_id"] [] None None
             "%(tablename)s_%(key)s" None))
       0 "friends").

(** [Person] with the primary key [id] of type [ty], [Pet] with its own
    [id], and [Pet.owner = ManyToOne('Person')]: entities 0 and 1,
    relationship 0. *)
Definition person_id (ty : string) : Column :=
  mkColumn "id" ty {["primary_key" := VBool true]}.

Definition pet_owner_world (ty : string) : World :=
  world_of
    (attach (mkWorld [plain_entity "Person" "person" [person_id ty];
                      plain_entity "Pet" "pet" [id_column]] [] [] ∅)
       (ManyToOne_init 0 no_M2OArgs) 1 "owner").

(** [Article.tags = ManyToMany('Tag')] and
    [Tag.articles = ManyToMany('Article')]: entities 0 and 1,
    relationships 0 and 1. *)
Definition no_M2MArgs : M2MArgs :=
  mkM2MArgs None [] [] None None "%(tablename)s_%(key)s" None.

Definition articles_world : World :=
  world_of
    (let* (w1, _) :=
       attach (mkWorld [plain_entity "Article" "article" [id_column];
                        plain_entity "Tag" "tag" [id_column]] [] [] ∅)
         (ManyToMany_init 1 no_M2MArgs) 0 "tags" in
     attach w1 (ManyToMany_init 0 no_M2MArgs) 1 "articles").

(** The column format above, applied to its arguments. *)
Definition example_format_m2mcol (fmt tname key entity : string) : string :=
  tname +:+ "_" +:+ key.

(** Two reflected entities, [User] and [Item], with
    [Item.owner = ManyToOne('User')] and no colname. *)
Definition reflected_world : World :=
  world_of
    (attach (mkWorld [reflected_entity "User" "user"
                        (mkTable "user" [id_column] [] true);
                      reflected_entity "Item" "item"
                        (mkTable "item" [id_column] [] true)] [] [] ∅)
       (ManyToOne_init 0 no_M2OArgs) 1 "owner").

(** ** Creation of keys and tables *)

Section Schema.

(** What the module takes from [elixir.entity] and [elixir.options], which
    are not part of it:
    - [target_desc.create_pk_cols()], which "ensures the target's own
      primary-key columns are finalized" and may fail;
    - the property [primary_keys] of a descriptor, "an ordered sequence of
      Column";
    - the format strings [FKCOL_NAMEFORMAT] and [CONSTRAINT_NAMEFORMAT],
      applied to their named arguments;
    - the [%] operator applied to a relationship's [column_format] and the
      arguments [tablename], [key] and [entity]. *)
Variable create_pk_cols : World -> ent_id -> result World.
Variable primary_keys : list EntityDescriptor -> ent_id -> list Column.
Variable FKCOL_NAMEFORMAT : string -> string -> string.
Variable CONSTRAINT_NAMEFORMAT : string -> string -> string.
Variable format_m2mcol : string -> string -> string -> string -> string.

Definition entity_table (d : EntityDescriptor) : result Table :=
  match table d with
  | Some t => Ok t
  | None => Error (CollaboratorError "table")
  end.

(** The column "path" a foreign key points to: [tablename.key], with the
    schema in front when the target has one. *)
Definition target_path_of (target_desc : EntityDescriptor) (pk_col : Column) : string :=
  let target_path := tablename target_desc +:+ "." +:+ col_key pk_col in
  match schema target_desc with
  | Some s => s +:+ "." +:+ target_path
  | None => target_path
  end.

(** The body of [for key_num, pk_col in enumerate(pks)] in
    [ManyToOne.create_keys]; [fk_colnames] and [fk_refcols] are the local
    lists, the store carries [source_desc] and [self]. *)
Fixpoint create_keys_loop (w : World) (self : rel_id) (target_desc : EntityDescriptor)
    (key_num : nat) (pks : list Column) (fk_colnames fk_refcols : list string)
  : result (World * list string * list string) :=
  match pks with
  | [] => Ok (w, fk_colnames, fk_refcols)
  | pk_col :: pks' =>
      let* r := get_rel w self in
      let* name :=
        (if nonempty (colname r) then
           match colname r !! key_num with
           | Some c => Ok c
           | None => Error IndexError
           end
         else Ok (FKCOL_NAMEFORMAT (rel_name r) (col_key pk_col))) in
      let col := mkColumn name (col_type pk_col) (column_kwargs r) in
      let* w1 := add_column w (rel_entity r) col in
      let* r1 := get_rel w1 self in
      let w2 := upd_rel w1 self
                  (set_foreign_key (foreign_key r1 ++ [col])
                     (primaryjoin_clauses r1 ++ [ClauseEq col pk_col]) r1) in
      create_keys_loop w2 self target_desc (S key_num) pks'
        (fk_colnames ++ [col_key col])
        (fk_refcols ++ [target_path_of target_desc pk_col])
  end.

(** The columns the loop creates, one for each primary-key column of the
    target from position [key_num] on. *)
Fixpoint fk_columns (r : Relationship) (key_num : nat) (pks : list Column)
  : list Column :=
  match pks with
  | [] => []
  | pk_col :: pks' =>
      mkColumn (if nonempty (colname r)
                then default "" (colname r !! key_num)
                else FKCOL_NAMEFORMAT (rel_name r) (col_key pk_col))
               (col_type pk_col) (column_kwargs r)
      :: fk_columns r (S key_num) pks'
  end.

(** [ManyToOne.create_keys(pk)] *)
Definition ManyToOne_create_keys (w : World) (self : rel_id) (pk : bool)
  : result World :=
  let* r0 := get_rel w self in
  if nonempty (foreign_key r0) then Ok w
  else if bool_decide (default (VBool false) (column_kwargs r0 !! "primary_key")
                       ≠ VBool pk) then Ok w
  else
    let* w1 := create_pk_cols w (rel_target r0) in
    let* r := get_rel w1 self in
    let* source_desc := get_desc w1 (rel_entity r) in
    let* target_desc := get_desc w1 (rel_target r) in
    if autoload source_desc then
      if nonempty (colname r) then
        let* etable := entity_table source_desc in
        let* ttable := entity_table target_desc in
        let pj := (_get_join_clauses etable (colname r) None ttable).1 in
        if nonempty pj
        then Ok (upd_rel w1 self (set_foreign_key (foreign_key r) pj r))
        else Error ReflectionMismatch
      else Ok w1
    else
      let pks := primary_keys (entities w1) (rel_target r) in
      if nonempty (colname r) && negb (length (colname r) =? length pks)%nat
      then Error PrimaryKeyMismatch
      else if negb (nonempty pks) then Error NoPrimaryKey
      else
        let* (w2, fk_colnames, fk_refcols) :=
          create_keys_loop w1 self target_desc 0 pks [] [] in
        let* r2 := get_rel w2 self in
        let kw :=
          match constraint_kwargs r2 !! "name" with
          | Some _ => constraint_kwargs r2
          | None =>
              <["name" := VStr (CONSTRAINT_NAMEFORMAT (tablename source_desc)
                                  (String.concat "_" fk_colnames))]>
                (constraint_kwargs r2)
          end in
        let w3 := upd_rel w2 self (set_constraint_kwargs kw r2) in
        add_constraint w3 (rel_entity r2)
          (FKConstraint (mkForeignKeyConstraint fk_colnames fk_refcols kw [])).

(** [create_keys] by class: [Relationship.create_keys] does nothing. *)
Definition create_keys (w : World) (self : rel_id) (pk : bool) : result World :=
  let* r := get_rel w self in
  match rel_kind r with
  | ManyToOne => ManyToOne_create_keys w self pk
  | OneToOne | OneToMany => OneToOne_create_keys w self pk
  | ManyToMany => Ok w
  end.

(** [Relationship.create_pk_cols] and [Relationship.create_non_pk_cols] *)
Definition Relationship_create_pk_cols (w : World) (self : rel_id) : result World :=
  create_keys w self true.

Definition Relationship_create_non_pk_cols (w : World) (self : rel_id)
  : result World :=
  create_keys w self false.

(** *** Many-to-many bridge tables *)

Definition source_part_of (e1_desc : EntityDescriptor) (r : Relationship) : string :=
  tablename e1_desc +:+ "_" +:+ rel_name r.

Definition target_part_of (e2_desc : EntityDescriptor) (inv : option Relationship)
  : string :=
  match inv with
  | Some ri => tablename e2_desc +:+ "_" +:+ rel_name ri
  | None => tablename e2_desc
  end.

(** The name of the bridge table, as [create_tables] computes it. *)
Definition bridge_tablename (r : Relationship) (e1_desc e2_desc : EntityDescriptor)
    (inv : option Relationship) : string :=
  let source_part := source_part_of e1_desc r in
  let target_part := target_part_of e2_desc inv in
  if truthy (user_tablename r) then default "" (user_tablename r)
  else if bool_decide (is_Some inv) && String.ltb (tablename e1_desc) (tablename e2_desc)
       then target_part +:+ "__" +:+ source_part
       else source_part +:+ "__" +:+ target_part.

Definition is_selfref (r : Relationship) : bool :=
  Nat.eqb (rel_entity r) (rel_target r).

Definition m2m_column (r : Relationship) (num : nat) (desc : EntityDescriptor)
    (pk_col : Column) : Column :=
  let colname :=
    format_m2mcol (column_format r) (tablename desc) (col_key pk_col)
      (lower (entity_name desc)) in
  let colname := if is_selfref r then colname +:+ pretty (num + 1)%nat else colname in
  mkColumn colname (col_type pk_col) {["primary_key" := VBool true]}.

Definition opt_str (o : option string) : kwval :=
  match o with
  | Some s => VStr s
  | None => VNone
  end.

(** One round of [for num, desc, fk_name, m2m in (...)]: the columns, the
    constraint and the join clauses of one side. *)
Definition m2m_side (w : World) (r : Relationship) (num : nat) (e : ent_id)
    (desc : EntityDescriptor) (fk_name : string) (m2m : option Relationship)
  : list Column * Constraint * list Clause :=
  let pks := primary_keys (entities w) e in
  let cols := map (m2m_column r num desc) pks in
  let fk_colnames := map col_key cols in
  let fk_refcols := map (fun pk_col => tablename desc +:+ "." +:+ col_key pk_col) pks in
  let joins := if is_selfref r then zip_with ClauseEq cols pks else [] in
  let kw : gmap string kwval :=
    <["name" := VStr fk_name]>
      (<["onupdate" := opt_str (m2m ≫= onupdate)]>
         (<["ondelete" := opt_str (m2m ≫= ondelete)]> ∅)) in
  (cols, FKConstraint (mkForeignKeyConstraint fk_colnames fk_refcols kw []), joins).

(** [ManyToMany._reflect_table(tablename)] *)
Definition _reflect_table (w : World) (self : rel_id) (name : string) : result World :=
  let* r := get_rel w self in
  let* target_desc := get_desc w (rel_target r) in
  let* source_desc := get_desc w (rel_entity r) in
  if negb (autoload target_desc) then Error TargetNotAutoloaded
  else
    let* (w1, t) := reflect_table w name in
    let w2 := upd_rel w1 self
                (set_secondary (Some t) (primaryjoin_clauses r)
                   (secondaryjoin_clauses r) r) in
    if is_selfref r then
      if negb (nonempty (local_side r)) && negb (nonempty (remote_side r))
      then Error SelfReferentialAmbiguity
      else
        let* tbl := of_option (metadata w2 !! t) in
        let* etable := entity_table source_desc in
        let joins := _get_join_clauses tbl (local_side r) (Some (remote_side r)) etable in
        Ok (upd_rel w1 self (set_secondary (Some t) joins.1 joins.2 r))
    else Ok w2.

(** The bridge table [create_tables] builds for an entity that is not
    autoloaded, with the join clauses of the two sides (empty unless the
    relationship is self-referential). *)
Definition bridge_table_of (w : World) (r : Relationship)
    (e1_desc e2_desc : EntityDescriptor) (inv : option Relationship)
  : Table * list Clause * list Clause :=
  let source_part := source_part_of e1_desc r in
  let target_part := target_part_of e2_desc inv in
  let source_fk_name := source_part +:+ "_fk" in
  let target_fk_name :=
    match inv with
    | Some _ => target_part +:+ "_fk"
    | None => source_part +:+ "_inverse_fk"
    end in
  let side0 := m2m_side w r 0 (rel_entity r) e1_desc source_fk_name (Some r) in
  let side1 := m2m_side w r 1 (rel_target r) e2_desc target_fk_name inv in
  let columns := side0.1.1 ++ side1.1.1 in
  let constraints := [side0.1.2; side1.1.2] in
  (mkTable (bridge_tablename r e1_desc e2_desc inv) columns constraints false,
   side0.2, side1.2).

(** [ManyToMany.create_tables()] after its two early returns: the table is
    reflected or built. *)
Definition make_secondary (w : World) (self : rel_id) (r : Relationship)
    (inv : option Relationship) : result World :=
  let* e1_desc := get_desc w (rel_entity r) in
  let* e2_desc := get_desc w (rel_target r) in
  if autoload e1_desc
  then _reflect_table w self (bridge_tablename r e1_desc e2_desc inv)
  else
    let built := bridge_table_of w r e1_desc e2_desc inv in
    let created := new_table w built.1.1 in
    Ok (upd_rel created.1 self
          (set_secondary (Some created.2)
             (primaryjoin_clauses r ++ built.1.2)
             (secondaryjoin_clauses r ++ built.2) r)).

(** [ManyToMany.create_tables()].  The property [self.inverse] is read
    once here: its later reads in the method happen before any other
    write, so they return the same relationship. *)
Definition ManyToMany_create_tables (w : World) (self : rel_id) : result World :=
  let* r0 := get_rel w self in
  match secondary_table r0 with
  | Some _ => Ok w
  | None =>
      let* (w0, inv_id) := inverse w self in
      let* r := get_rel w0 self in
      let* inv :=
        match inv_id with
        | Some i => let* ri := get_rel w0 i in Ok (Some ri)
        | None => Ok None
        end in
      match inv, inv ≫= secondary_table with
      | Some ri, Some t =>
          Ok (upd_rel w0 self
                (set_secondary (Some t) (secondaryjoin_clauses ri)
                   (primaryjoin_clauses ri) r))
      | _, _ => make_secondary w0 self r inv
      end
  end.

(** [create_tables] by class: only [ManyToMany] overrides the empty
    method of [Relationship]. *)
Definition create_tables (w : World) (self : rel_id) : result World :=
  let* r := get_rel w self in
  match rel_kind r with
  | ManyToMany => ManyToMany_create_tables w self
  | _ => Ok w
  end.

(** *** Reading [inverse] on several relationships

    The set-up phases read the [inverse] property of one relationship
    after the other ([OneToOne.create_keys], [create_tables],
    [create_properties]); the reads are threaded through the store. *)
Fixpoint read_inverses (w : World) (l : list rel_id) : result World :=
  match l with
  | [] => Ok w
  | a :: l' =>
      let* (w1, _) := inverse w a in
      read_inverses w1 l'
  end.

(** *** The state in which [ManyToOne.create_keys] creates

    The relationship [self] is a [ManyToOne] that has no foreign key yet,
    [pk] is the pass of its columns, the set-up of the target's primary key
    succeeds with the store [w1] and leaves the relationship as it is, and
    the owner [sd] is not autoloaded; [td] is the target's descriptor. *)
Definition ready_for_keys (w w1 : World) (self : rel_id) (r : Relationship)
    (sd td : EntityDescriptor) (pk : bool) : Prop :=
  rels w !! self = Some r /\ rel_kind r = ManyToOne
  /\ foreign_key r = []
  /\ default (VBool false) (column_kwargs r !! "primary_key") = VBool pk
  /\ create_pk_cols w (rel_target r) = Ok w1
  /\ rels w1 !! self = Some r
  /\ entities w1 !! rel_entity r = Some sd /\ autoload sd = false
  /\ entities w1 !! rel_target r = Some td.

(** *** Example: a reflected owner with a foreign key

    [Item] and [User] are reflected, the table [item] has a foreign key
    from [owner_id] to [user.id], and
    [Item.owner = ManyToOne('User', colname='owner_id')]. *)
Definition item_owner_id : Column := mkColumn "owner_id" "Integer" ∅.

Definition item_table : Table :=
  mkTable "item" [id_column; item_owner_id]
    [FKConstraint (mkForeignKeyConstraint ["owner_id"] ["user.id"] ∅
                     [mkForeignKey item_owner_id id_column "user"])]
    true.

Definition reflected_colname_world : World :=
  world_of
    (attach (mkWorld [reflected_entity "User" "user"
                        (mkTable "user" [id_column] [] true);
                      reflected_entity "Item" "item" item_table] [] [] ∅)
       (ManyToOne_init 0
          (mkM2OArgs (ColnameStr "owner_id") ∅ None None ∅ None None None None))
       1 "owner").

(** *** Properties of the mapper: [get_prop_kwargs], [create_properties]

    The attributes [property], [backref] and [kwargs] of the relationship
    objects are kept in a store of their own, indexed by the handle of the
    relationship; the calls of [add_property] on the entity descriptors are
    recorded in the order they are made. *)

(** Values of the keyword arguments given to [relation] and [backref]. *)
Inductive pval : Type :=
| PBool (b : bool)
| PColumns (cols : list Column)            (* a list of columns (remote_side) *)
| PAnd (clauses : list Clause)             (* and_ of the clauses *)
| PTable (t : option table_id)             (* secondary *)
| PBackrefOf (owner : rel_id)              (* the backref object of a relationship *)
| PValue (v : string)                      (* a value given by the user *)
| PTranslated (target : ent_id) (v : pval). (* translate_order_by(v) of an entity *)

(** [backref(name, **kwargs)] and [relation(target, **kwargs)] *)
Record Backref : Type := mkBackref {
  backref_name : string;
  backref_kwargs : gmap string pval
}.

Record Property : Type := mkProperty {
  property_target : ent_id;
  property_kwargs : gmap string pval
}.

Record PropStore : Type := mkPropStore {
  rel_property : gmap rel_id Property;             (* self.property *)
  rel_backref : gmap rel_id Backref;               (* self.backref *)
  rel_kwargs : gmap rel_id (gmap string pval);     (* self.kwargs *)
  added_properties : list (ent_id * string * Property)
}.

Definition kwargs_of (ps : PropStore) (self : rel_id) : gmap string pval :=
  default ∅ (rel_kwargs ps !! self).

(** [kwargs.update(other)]: the entries of [other] replace those of
    [kwargs]. *)
Definition update (kwargs other : gmap string pval) : gmap string pval :=
  other ∪ kwargs.

(** [entity.table is target.table]: a table is one object for each name of
    the metadata. *)
Definition same_table (ed td : EntityDescriptor) : bool :=
  match table ed, table td with
  | Some t1, Some t2 => String.eqb (tbl_name t1) (tbl_name t2)
  | None, None => true
  | _, _ => false
  end.

(** [table.primary_key.columns] *)
Definition pk_columns_of (t : Table) : list Column :=
  List.filter col_primary_key (tbl_columns t).

(** [self.inverse.<attribute>]: the inverse object, an [AttributeError]
    when there is none. *)
Definition inverse_object (w : World) (self : rel_id)
  : result (World * Relationship) :=
  let* (w1, inv) := inverse w self in
  match inv with
  | Some i => let* ri := get_rel w1 i in Ok (w1, ri)
  | None => Error (CollaboratorError "AttributeError")
  end.

(** The translation of [order_by] by the descriptor of the target is kept
    symbolic. *)
Definition translate_order_by (target : ent_id) (kwargs : gmap string pval)
  : gmap string pval :=
  match kwargs !! "order_by" with
  | Some v => <["order_by" := PTranslated target v]> kwargs
  | None => kwargs
  end.

(** [ManyToOne.get_prop_kwargs] *)
Definition ManyToOne_get_prop_kwargs (w : World) (ps : PropStore) (self : rel_id)
  : result (World * gmap string pval) :=
  let* r := get_rel w self in
  let* ed := get_desc w (rel_entity r) in
  let* td := get_desc w (rel_target r) in
  let kwargs : gmap string pval := {["uselist" := PBool false]} in
  let* kwargs :=
    (if same_table ed td then
       let* ttable := entity_table td in
       Ok (<["remote_side" := PColumns (pk_columns_of ttable)]> kwargs)
     else Ok kwargs) in
  let kwargs :=
    if nonempty (primaryjoin_clauses r)
    then <["primaryjoin" := PAnd (primaryjoin_clauses r)]> kwargs
    else kwargs in
  Ok (w, update kwargs (kwargs_of ps self)).

(** [OneToOne.get_prop_kwargs]; [uselist] is the class attribute. *)
Definition OneToOne_get_prop_kwargs (uselist : bool) (w : World) (ps : PropStore)
    (self : rel_id) : result (World * gmap string pval) :=
  let* r := get_rel w self in
  let* ed := get_desc w (rel_entity r) in
  let* td := get_desc w (rel_target r) in
  let kwargs : gmap string pval := {["uselist" := PBool uselist]} in
  let* (w1, kwargs) :=
    (if same_table ed td then
       let* (w1, ri) := inverse_object w self in
       Ok (w1, <["remote_side" := PColumns (foreign_key ri)]> kwargs)
     else Ok (w, kwargs)) in
  let* (w2, ri) := inverse_object w1 self in
  let kwargs :=
    if nonempty (primaryjoin_clauses ri)
    then <["primaryjoin" := PAnd (primaryjoin_clauses ri)]> kwargs
    else kwargs in
  Ok (w2, update kwargs (kwargs_of ps self)).

(** [OneToMany.get_prop_kwargs] *)
Definition OneToMany_get_prop_kwargs (w : World) (ps : PropStore) (self : rel_id)
  : result (World * gmap string pval) :=
  let* (w1, kwargs) := OneToOne_get_prop_kwargs true w ps self in
  let* r := get_rel w1 self in
  Ok (w1, translate_order_by (rel_target r) kwargs).

(** [ManyToMany.get_prop_kwargs] *)
Definition ManyToMany_get_prop_kwargs (w : World) (ps : PropStore) (self : rel_id)
  : result (World * gmap string pval) :=
  let* r := get_rel w self in
  let kwargs : gmap string pval :=
    <["uselist" := PBool true]> {["secondary" := PTable (secondary_table r)]} in
  let kwargs :=
    if is_selfref r
    then <["secondaryjoin" := PAnd (secondaryjoin_clauses r)]>
           (<["primaryjoin" := PAnd (primaryjoin_clauses r)]> kwargs)
    else kwargs in
  Ok (w, translate_order_by (rel_target r) (update kwargs (kwargs_of ps self))).

Definition get_prop_kwargs (w : World) (ps : PropStore) (self : rel_id)
  : result (World * gmap string pval) :=
  let* r := get_rel w self in
  match rel_kind r with
  | ManyToOne => ManyToOne_get_prop_kwargs w ps self
  | OneToOne => OneToOne_get_prop_kwargs false w ps self
  | OneToMany => OneToMany_get_prop_kwargs w ps self
  | ManyToMany => ManyToMany_get_prop_kwargs w ps self
  end.

Definition set_backref (self : rel_id) (b : Backref) (ps : PropStore) : PropStore :=
  {| rel_property := rel_property ps; rel_backref := <[self := b]> (rel_backref ps);
     rel_kwargs := rel_kwargs ps; added_properties := added_properties ps |}.

Definition set_property (self : rel_id) (e : ent_id) (name : string) (p : Property)
    (ps : PropStore) : PropStore :=
  {| rel_property := <[self := p]> (rel_property ps); rel_backref := rel_backref ps;
     rel_kwargs := rel_kwargs ps;
     added_properties := added_properties ps ++ [(e, name, p)] |}.

(** The end of [create_properties]: [kwargs.update(self.get_prop_kwargs())],
    the [relation] and [add_property]. *)
Definition build_property (w : World) (ps : PropStore) (self : rel_id)
    (kwargs : gmap string pval) : result (World * PropStore) :=
  let* (w1, prop_kwargs) := get_prop_kwargs w ps self in
  let* r := get_rel w1 self in
  let p := mkProperty (rel_target r) (update kwargs prop_kwargs) in
  Ok (w1, set_property self (rel_entity r) (rel_name r) p ps).

(** [Relationship.create_properties] *)
Definition create_properties (w : World) (ps : PropStore) (self : rel_id)
  : result (World * PropStore) :=
  if bool_decide (is_Some (rel_property ps !! self))
     || bool_decide (is_Some (rel_backref ps !! self))
  then Ok (w, ps)
  else
    let* (w1, inv) := inverse w self in
    match inv with
    | Some i =>
        match rel_backref ps !! i with
        | Some _ => build_property w1 ps self {["backref" := PBackrefOf i]}
        | None =>
            let* (w2, kwargs) := get_prop_kwargs w1 ps self in
            let* r := get_rel w2 self in
            Ok (w2, set_backref self
                      (mkBackref (rel_name r) (delete "secondary" kwargs)) ps)
        end
    | None => build_property w1 ps self ∅
    end.

(** Two stores that differ in cached inverses at most. *)
Definition same_but_caches (w w' : World) : Prop :=
  entities w' = entities w /\ metadata w' = metadata w
  /\ database w' = database w
  /\ forall j, set__inverse None <$> rels w' !! j
               = set__inverse None <$> rels w !! j.

(** The value of [uselist] of a class. *)
Definition to_many (k : Kind) : bool :=
  match k with
  | OneToMany | ManyToMany => true
  | ManyToOne | OneToOne => false
  end.

(** *** The target of a relationship

    [of_kind] is an entity class or the name of one.  A name is looked up
    in [sys.modules] when it is qualified and among the entities of the
    caller of the owning entity otherwise; only the attributes of a module
    that are entities are kept. *)
Inductive of_kind_arg : Type :=
| OfEntity (e : ent_id)
| OfName (name : string).

Record Registry : Type := mkRegistry {
  sys_modules : gmap string (gmap string ent_id);
  _entities : gmap string (gmap string ent_id)      (* EntityMeta._entities *)
}.

(** Modelled from the spec: [py23compat.rsplit], which is not in this
    module, called as [rsplit(of_kind, '.', 1)]: "qualified names split on
    the last separator".  The result is the part before the last dot, if
    there is a dot, and the part after it. *)
Fixpoint rsplit_dot (s : string) : option string * string :=
  match s with
  | EmptyString => (None, EmptyString)
  | String c s' =>
      match rsplit_dot s' with
      | (Some p, last) => (Some (String c p), last)
      | (None, last) =>
          if Ascii.eqb c "."%char then (Some EmptyString, last)
          else (None, String c last)
      end
  end.

Fixpoint has_dot (s : string) : bool :=
  match s with
  | EmptyString => false
  | String c s' => Ascii.eqb c "."%char || has_dot s'
  end.

(** The [target] property: the value returned, which is also the new value
    of [self._target]; [caller] is [self.entity._caller].  A missing key of
    a dictionary is a [KeyError]. *)
Definition target (reg : Registry) (caller : string) (_target : option ent_id)
    (of_kind : of_kind_arg) : result (option ent_id) :=
  match _target with
  | Some e => Ok (Some e)
  | None =>
      match of_kind with
      | OfEntity e => Ok (Some e)
      | OfName name =>
          match rsplit_dot name with
          | (Some module_name, classname) =>
              match sys_modules reg !! module_name with
              | Some module => Ok (module !! classname)
              | None => Error (CollaboratorError "KeyError")
              end
          | (None, classname) =>
              match _entities reg !! caller with
              | Some caller_entities =>
                  match caller_entities !! classname with
                  | Some e => Ok (Some e)
                  | None => Error (CollaboratorError "KeyError")
                  end
              | None => Error (CollaboratorError "KeyError")
              end
          end
      end
  end.

(** *** More example stores *)

(** [Pet.owner = ManyToOne('Person', colname=['owner_a', 'owner_b'])] where
    the primary key of [Person] has one column. *)
Definition two_colnames_world : World :=
  world_of
    (attach (mkWorld [plain_entity "Person" "person" [id_column];
                      plain_entity "Pet" "pet" [id_column]] [] [] ∅)
       (ManyToOne_init 0
          (mkM2OArgs (ColnameList ["owner_a"; "owner_b"]) ∅ None None ∅
             None None None None))
       1 "owner").

(** [Pet.owner = ManyToOne('Person')] where [Person] has no column. *)
Definition keyless_world : World :=
  world_of
    (attach (mkWorld [plain_entity "Person" "person" [];
                      plain_entity "Pet" "pet" [id_column]] [] [] ∅)
       (ManyToOne_init 0 no_M2OArgs) 1 "owner").

(** [Article.tags = ManyToMany('Tag')] alone, and with
    [tablename='tagging']. *)
Definition lonely_tags_world : World :=
  world_of
    (attach (mkWorld [plain_entity "Article" "article" [id_column];
                      plain_entity "Tag" "tag" [id_column]] [] [] ∅)
       (ManyToMany_init 1 no_M2MArgs) 0 "tags").

Definition tagging_world : World :=
  world_of
    (attach (mkWorld [plain_entity "Article" "article" [id_column];
                      plain_entity "Tag" "tag" [id_column]] [] [] ∅)
       (ManyToMany_init 1
          (mkM2MArgs (Some "tagging") [] [] None None
             "%(tablename)s_%(key)s" None))
       0 "tags").

(** [Person.friends = ManyToMany('Person')] on a [Person] that is created. *)
Definition plain_selfref_world : World :=
  world_of
    (attach (mkWorld [plain_entity "Person" "person" [id_column]] [] [] ∅)
       (ManyToMany_init 0 no_M2MArgs) 0 "friends").

(** A reflected [Article] with [tags = ManyToMany('Tag')] to a [Tag] that
    is created. *)
Definition mixed_world : World :=
  world_of
    (attach (mkWorld [reflected_entity "Article" "article"
                        (mkTable "article" [id_column] [] true);
                      plain_entity "Tag" "tag" [id_column]] [] [] ∅)
       (ManyToMany_init 1 no_M2MArgs) 0 "tags").

(** A reflected [Person] with [friends = ManyToMany('Person',
    tablename='friends')] and neither [local_side] nor [remote_side]. *)
Definition selfref_nosides_world : World :=
  world_of
    (attach (mkWorld [reflected_entity "Person" "person" person_table] [] []
               {["friends" := (tbl_columns friends_table,
                               tbl_constraints friends_table)]})
       (ManyToMany_init 0
          (mkM2MArgs (Some "friends") [] [] None None
             "%(tablename)s_%(key)s" None))
       0 "friends").

(** An entity whose table is set up. *)
Definition mapped_entity (name tname : string) (rs : list rel_id)
    (cols : list Column) : EntityDescriptor :=
  mkEntityDescriptor name tname false None rs cols [] None
    (Some (mkTable tname cols [] false)).

(** [Person.pets = OneToMany('Pet')] and [Pet.owner = ManyToOne('Person')]
    after the set-up of the keys and tables: [owner] has its column and its
    join, and each is the cached inverse of the other. *)
Definition pet_owner_id : Column :=
  mkColumn "owner_id" "Integer" {["index" := VBool true]}.

Definition mapped_pets_world : World :=
  mkWorld
    [mapped_entity "Person" "person" [0] [id_column];
     mapped_entity "Pet" "pet" [1] [id_column; pet_owner_id]]
    [set__inverse (Some 1)
       (set_entity_name 0 "pets" (Relationship_init OneToMany 1 None));
     set__inverse (Some 0)
       (set_foreign_key [pet_owner_id] [ClauseEq pet_owner_id id_column]
          (set_entity_name 1 "owner" (ManyToOne_init 0 no_M2OArgs)))]
    [mkTable "person" [id_column] [] false;
     mkTable "pet" [id_column; pet_owner_id] [] false]
    ∅.

(** [Pet.owner] alone, after the set-up of the keys. *)
Definition mapped_owner_world : World :=
  mkWorld
    [mapped_entity "Person" "person" [] [id_column];
     mapped_entity "Pet" "pet" [0] [id_column; pet_owner_id]]
    [set_foreign_key [pet_owner_id] [ClauseEq pet_owner_id id_column]
       (set_entity_name 1 "owner" (ManyToOne_init 0 no_M2OArgs))]
    [mkTable "person" [id_column] [] false;
     mkTable "pet" [id_column; pet_owner_id] [] false]
    ∅.

(** No property is made yet; [has_many('pets', of_kind='Pet', lazy=False,
    order_by='name')] keeps its two keywords for the relation. *)
Definition no_properties (kw : gmap rel_id (gmap string pval)) : PropStore :=
  mkPropStore ∅ ∅ kw [].

Definition pets_kwargs : gmap rel_id (gmap string pval) :=
  {[0 := {["lazy" := PValue "False"; "order_by" := PValue "name"]}]}.

(** A module [zoo.models] with the entity [Pet], and the entities of the
    caller [zoo.views]. *)
Definition zoo_registry : Registry :=
  mkRegistry {["zoo.models" := {["Pet" := 1]}]}
             {["zoo.views" := {["Person" := 0]}]}.

(** The value of a run that succeeds, [d] otherwise. *)
Definition value_of {A : Type} (d : A) (r : result A) : A :=
  match r with
  | Ok a => a
  | Error _ => d
  end.

(** * Properties *)

(** ** The store *)

Lemma get_rel_Ok (w : World) (i : rel_id) (r : Relationship) :
  get_rel w i = Ok r <-> rels w !! i = Some r.
Proof.
  unfold get_rel. destruct (rels w !! i); simpl; split; congruence.
Qed.

Lemma get_desc_Ok (w : World) (e : ent_id) (d : EntityDescriptor) :
  get_desc w e = Ok d <-> entities w !! e = Some d.
Proof.
  unfold get_desc. destruct (entities w !! e); simpl; split; congruence.
Qed.

Lemma rbind_Ok {A B : Type} (m : result A) (f : A -> result B) (b : B) :
  rbind m f = Ok b -> exists a, m = Ok a /\ f a = Ok b.
Proof. destruct m; simpl; [eauto | discriminate]. Qed.

Lemma upd_rel_lookup_eq (w : World) (i : rel_id) (r r0 : Relationship) :
  rels w !! i = Some r0 -> rels (upd_rel w i r) !! i = Some r.
Proof.
  intros H. simpl. apply list_lookup_insert_eq. by eapply lookup_lt_Some.
Qed.

Lemma upd_rel_lookup_ne (w : World) (i j : rel_id) (r : Relationship) :
  i ≠ j -> rels (upd_rel w i r) !! j = rels w !! j.
Proof. intros H. simpl. by apply list_lookup_insert_ne. Qed.

(** Invert a successful [let*]. *)
Tactic Notation "inv_bind" hyp(H) "as" ident(a) ident(Ha) :=
  apply rbind_Ok in H; destruct H as (a & Ha & H).

(** ** Inverse resolution *)

(** The kind-compatibility table. *)
Lemma match_type_of_table (k k' : Kind) :
  match_type_of k k' = true <->
  (k = ManyToOne /\ (k' = OneToMany \/ k' = OneToOne))
  \/ ((k = OneToOne \/ k = OneToMany) /\ k' = ManyToOne)
  \/ (k = ManyToMany /\ k' = ManyToMany).
Proof.
  destruct k, k'; simpl; split; intros H; try discriminate; try reflexivity;
    try (by intuition congruence); intuition eauto.
Qed.

Lemma match_type_of_sym (k k' : Kind) : match_type_of k k' = match_type_of k' k.
Proof. by destruct k, k'. Qed.

(** A cached inverse is returned as it is, and the store is left alone. *)
Lemma inverse_cached (w : World) (a b : rel_id) (ra : Relationship) :
  rels w !! a = Some ra -> _inverse ra = Some b -> inverse w a = Ok (w, Some b).
Proof.
  intros Ha Hc. unfold inverse, get_rel. rewrite Ha. simpl. by rewrite Hc.
Qed.

Lemma inverse_fresh (w : World) (a : rel_id) (ra : Relationship) :
  rels w !! a = Some ra -> _inverse ra = None ->
  inverse w a =
  let* found := candidate w a ra in
  match found with
  | Some i =>
      let w1 := upd_rel w a (set__inverse (Some i) ra) in
      let* ri := get_rel w1 i in
      let w2 := upd_rel w1 i (set__inverse (Some a) ri) in
      let* r' := get_rel w2 a in
      Ok (w2, _inverse r')
  | None => Ok (w, None)
  end.
Proof.
  intros Ha Hc. unfold inverse, get_rel. rewrite Ha. simpl. by rewrite Hc.
Qed.

(** What a resolution from an empty cache writes: [self._inverse = inverse]
    and then [inverse._inverse = self]. *)
Lemma inverse_fresh_Some (w w' : World) (a b : rel_id) (ra : Relationship) :
  rels w !! a = Some ra -> _inverse ra = None ->
  inverse w a = Ok (w', Some b) ->
  candidate w a ra = Ok (Some b) /\
  exists rb1,
    rels (upd_rel w a (set__inverse (Some b) ra)) !! b = Some rb1 /\
    w' = upd_rel (upd_rel w a (set__inverse (Some b) ra)) b
           (set__inverse (Some a) rb1).
Proof.
  intros Ha Hc H. rewrite (inverse_fresh _ _ _ Ha Hc) in H.
  inv_bind H as found Hfound. destruct found as [i|]; [|congruence].
  simpl in H. inv_bind H as ri Hri. apply get_rel_Ok in Hri.
  inv_bind H as r' Hr'. apply get_rel_Ok in Hr'.
  assert (Hinv : _inverse r' = Some i).
  { destruct (decide (i = a)) as [->|Hne].
    - erewrite upd_rel_lookup_eq in Hr' by eauto. by simplify_eq.
    - rewrite upd_rel_lookup_ne in Hr' by done.
      erewrite upd_rel_lookup_eq in Hr' by eauto. by simplify_eq. }
  rewrite Hinv in H. simplify_eq. split; [done|]. eauto.
Qed.

Lemma inverse_fresh_None (w w' : World) (a : rel_id) (ra : Relationship) :
  rels w !! a = Some ra -> _inverse ra = None ->
  inverse w a = Ok (w', None) ->
  candidate w a ra = Ok None /\ w' = w.
Proof.
  intros Ha Hc H. rewrite (inverse_fresh _ _ _ Ha Hc) in H.
  inv_bind H as found Hfound. destruct found as [i|]; [|by simplify_eq].
  simpl in H. inv_bind H as ri Hri. apply get_rel_Ok in Hri.
  inv_bind H as r' Hr'. apply get_rel_Ok in Hr'.
  assert (Hinv : _inverse r' = Some i).
  { destruct (decide (i = a)) as [->|Hne].
    - erewrite upd_rel_lookup_eq in Hr' by eauto. by simplify_eq.
    - rewrite upd_rel_lookup_ne in Hr' by done.
      erewrite upd_rel_lookup_eq in Hr' by eauto. by simplify_eq. }
  rewrite Hinv in H. simplify_eq.
Qed.


(** Two relationship objects that differ in [_inverse] at most. *)
Lemma erased_fields (r r' : Relationship) :
  set__inverse None r = set__inverse None r' ->
  rel_entity r = rel_entity r' /\ rel_target r = rel_target r'
  /\ rel_name r = rel_name r' /\ user_tablename r = user_tablename r'
  /\ secondary_table r = secondary_table r'.
Proof.
  intros H. repeat split.
  - exact (f_equal rel_entity H).
  - exact (f_equal rel_target H).
  - exact (f_equal rel_name H).
  - exact (f_equal user_tablename H).
  - exact (f_equal secondary_table H).
Qed.

Lemma upd_rel_erase (w : World) (i j : rel_id) (r r0 : Relationship) :
  rels w !! i = Some r0 -> set__inverse None r = set__inverse None r0 ->
  set__inverse None <$> rels (upd_rel w i r) !! j
  = set__inverse None <$> rels w !! j.
Proof.
  intros H0 He. destruct (decide (i = j)) as [<-|Hne].
  - erewrite upd_rel_lookup_eq by eauto. rewrite H0. simpl. by f_equal.
  - by rewrite upd_rel_lookup_ne.
Qed.

(** Reading [inverse] writes nothing but [_inverse] attributes. *)
Lemma inverse_frame (w w' : World) (a : rel_id) (x : option rel_id) :
  inverse w a = Ok (w', x) ->
  entities w' = entities w /\ metadata w' = metadata w
  /\ database w' = database w
  /\ forall j, set__inverse None <$> rels w' !! j
               = set__inverse None <$> rels w !! j.
Proof.
  intros H. pose proof H as H0. unfold inverse in H0.
  inv_bind H0 as ra Hra. apply get_rel_Ok in Hra.
  destruct (_inverse ra) as [c|] eqn:Hc.
  - by simplify_eq.
  - clear H0. destruct x as [b|].
    + destruct (inverse_fresh_Some _ _ _ _ _ Hra Hc H) as (_ & rb1 & Hb & ->).
      repeat split; try done. intros j.
      erewrite upd_rel_erase; [| exact Hb | done].
      erewrite upd_rel_erase; [| exact Hra | done]. done.
    + by destruct (inverse_fresh_None _ _ _ _ Hra Hc H) as (_ & ->).
Qed.

Lemma inverse_frame_kind (w w' : World) (a j : rel_id) (x : option rel_id) :
  inverse w a = Ok (w', x) ->
  rel_kind <$> rels w' !! j = rel_kind <$> rels w !! j.
Proof.
  intros H. destruct (inverse_frame _ _ _ _ H) as (_ & _ & _ & Hj).
  specialize (Hj j). revert Hj.
  destruct (rels w' !! j), (rels w !! j); simpl; intros Hj; simplify_eq; try done.
  by f_equal.
Qed.

(** The relationship picked for an empty cache is of a compatible kind. *)
Lemma candidate_typed (w : World) (a b : rel_id) (ra : Relationship) :
  rels w !! a = Some ra -> candidate w a ra = Ok (Some b) ->
  exists rb, rels w !! b = Some rb
             /\ match_type_of (rel_kind ra) (rel_kind rb) = true.
Proof.
  intros Ha H. unfold candidate in H.
  destruct (truthy (inverse_name ra)).
  - destruct (find_relationship _ _ _) as [i|]; [|discriminate].
    inv_bind H as ri Hri. apply get_rel_Ok in Hri.
    destruct (match_type_of _ _) eqn:Hm; [|discriminate]. simplify_eq. eauto.
  - unfold get_inverse_relation in H. rewrite Ha in H.
    destruct (entities w !! rel_target ra) as [d|]; [|discriminate].
    destruct (List.filter _ _) as [|j [|? ?]] eqn:Hf; simplify_eq.
    assert (Hin : In b (List.filter
                          (fun j => match rels w !! j with
                                    | Some other => is_inverse j other a ra
                                    | None => false
                                    end) (relationships d))).
    { rewrite Hf. by left. }
    apply filter_In in Hin as [_ Hin].
    destruct (rels w !! b) as [rb|]; [|discriminate].
    exists rb. split; [done|]. rewrite match_type_of_sym.
    unfold is_inverse, base_is_inverse in Hin.
    destruct (rel_kind rb); repeat (apply andb_prop in Hin as [Hin ?]); done.
Qed.


Lemma kind_of_lookup (w w' : World) (j : rel_id) (rj : Relationship) :
  rel_kind <$> rels w' !! j = rel_kind <$> rels w !! j ->
  rels w !! j = Some rj ->
  exists rj', rels w' !! j = Some rj' /\ rel_kind rj' = rel_kind rj.
Proof.
  intros Hk Hj. rewrite Hj in Hk. destruct (rels w' !! j) as [rj'|]; simplify_eq.
  eauto.
Qed.

(** After a resolution that yields [b], the cache of [a] holds [b]. *)
Lemma inverse_Some_cached (w w' : World) (a b : rel_id) :
  inverse w a = Ok (w', Some b) ->
  exists ra', rels w' !! a = Some ra' /\ _inverse ra' = Some b.
Proof.
  intros H. pose proof H as H0. unfold inverse in H0.
  inv_bind H0 as ra Hra. apply get_rel_Ok in Hra.
  destruct (_inverse ra) as [c|] eqn:Hc.
  - simplify_eq. eauto.
  - clear H0.
    destruct (inverse_fresh_Some _ _ _ _ _ Hra Hc H) as (_ & rb1 & Hb & ->).
    destruct (decide (b = a)) as [->|Hne].
    + erewrite upd_rel_lookup_eq by eauto. eauto.
    + rewrite upd_rel_lookup_ne by done.
      erewrite upd_rel_lookup_eq by eauto. eauto.
Qed.

(** Resolution keeps the cache well typed. *)
Lemma inverse_cache_typed (w w' : World) (a : rel_id) (x : option rel_id) :
  cache_typed w -> inverse w a = Ok (w', x) -> cache_typed w'.
Proof.
  intros Hty H. pose proof H as H0. unfold inverse in H0.
  inv_bind H0 as ra Hra. apply get_rel_Ok in Hra.
  destruct (_inverse ra) as [c|] eqn:Hc; [by simplify_eq|]. clear H0.
  destruct x as [b|];
    [|by destruct (inverse_fresh_None _ _ _ _ Hra Hc H) as (_ & ->)].
  pose proof (fun j => inverse_frame_kind _ _ _ j _ H) as Hk.
  destruct (inverse_fresh_Some _ _ _ _ _ Hra Hc H) as (Hcand & rb1 & Hb & ->).
  destruct (candidate_typed _ _ _ _ Hra Hcand) as (rb & Hrb & Hm).
  destruct (kind_of_lookup _ _ _ _ (Hk a) Hra) as (ra' & Hra' & Hka).
  destruct (kind_of_lookup _ _ _ _ (Hk b) Hrb) as (rb' & Hrb' & Hkb).
  intros i j r Hi Hj.
  destruct (decide (i = b)) as [->|Hib].
  - erewrite upd_rel_lookup_eq in Hi by eauto. injection Hi as <-.
    simpl in Hj. injection Hj as <-. simpl. exists ra'. split; [done|].
    rewrite Hka. rewrite match_type_of_sym.
    assert (rel_kind rb1 = rel_kind rb) as ->; [|done].
    destruct (decide (a = b)) as [Hab|Hab].
    + rewrite Hab in Hb. erewrite upd_rel_lookup_eq in Hb by eauto.
      injection Hb as <-. simpl. rewrite Hab in Hra. congruence.
    + rewrite upd_rel_lookup_ne in Hb by done. congruence.
  - rewrite upd_rel_lookup_ne in Hi by done.
    destruct (decide (i = a)) as [->|Hia].
    + erewrite upd_rel_lookup_eq in Hi by eauto. injection Hi as <-.
      simpl in Hj. injection Hj as <-. simpl. exists rb'. split; [done|].
      by rewrite Hkb.
    + rewrite upd_rel_lookup_ne in Hi by done.
      destruct (Hty _ _ _ Hi Hj) as (rj & Hrj & Hmj).
      destruct (kind_of_lookup _ _ _ _ (Hk j) Hrj) as (rj' & Hrj' & Hkj).
      exists rj'. split; [done|]. by rewrite Hkj.
Qed.

(** C2 (amended): inverse resolution is symmetric and idempotent.  If
    resolving the inverse of A yields B, resolving A again yields B and
    leaves the store as it is; and when the resolution started from an empty
    cache on A, the cached inverse of B is A at once, and resolving B
    yields A.  Nothing makes the pair exclusive: a later resolution of a
    third relationship that yields B overwrites the cached inverse of B. *)
Theorem inverse_symmetric_idempotent
    (w w' : World) (a b : rel_id) (ra : Relationship) :
  rels w !! a = Some ra ->
  inverse w a = Ok (w', Some b) ->
  inverse w' a = Ok (w', Some b)
  /\ (_inverse ra = None ->
      (exists rb', rels w' !! b = Some rb' /\ _inverse rb' = Some a)
      /\ inverse w' b = Ok (w', Some a)).
Proof.
  intros Hra H.
  destruct (inverse_Some_cached _ _ _ _ H) as (ra' & Hra' & Hca).
  split; [by eapply inverse_cached|].
  intros Hc.
  destruct (inverse_fresh_Some _ _ _ _ _ Hra Hc H) as (_ & rb1 & Hb & Hw).
  assert (Hb' : rels w' !! b = Some (set__inverse (Some a) rb1)).
  { rewrite Hw. by erewrite upd_rel_lookup_eq. }
  split; [eauto|]. by eapply inverse_cached.
Qed.

(** A relationship found by name is in the store under that name. *)
Lemma find_relationship_Some (w : World) (e : ent_id) (n : string) (i : rel_id) :
  find_relationship w e n = Some i ->
  exists ri, rels w !! i = Some ri /\ rel_name ri = n.
Proof.
  unfold find_relationship. generalize (S (length (entities w))) as fuel.
  intros fuel. revert e. induction fuel as [|fuel IH]; intros e; simpl; [done|].
  destruct (entities w !! e) as [d|]; [|done].
  destruct (List.find _ (relationships d)) as [j|] eqn:Hf.
  - intros [= ->]. apply find_some in Hf as [_ Hf].
    destruct (rels w !! i) as [ri|]; [|done].
    exists ri. split; [done|]. by apply String.eqb_eq.
  - destruct (parent d) as [p|]; [apply IH|done].
Qed.

(** C8 (amended): with an explicit inverse name set, what the resolution
    does depends on the cache.  When an inverse is cached already (the
    resolution of the other side has set it), it is returned as it is:
    the name is not looked up and nothing fails, whatever the name.  When
    nothing is cached yet, the name is looked up among the relationships of
    the target and of its parents: the resolution fails with
    InverseNotFound when there is none of that name, with the assertion
    failure TypeMismatch when the one found is not a compatible
    counterpart, and yields the one found otherwise.  Compatible
    counterparts: ManyToOne with OneToMany or OneToOne, OneToOne (and its
    subclass OneToMany) with ManyToOne, ManyToMany with ManyToMany. *)
Theorem explicit_inverse_lookup
    (w : World) (self : rel_id) (r : Relationship) (n : string) :
  rels w !! self = Some r ->
  inverse_name r = Some n -> n ≠ "" ->
  (forall i, _inverse r = Some i -> inverse w self = Ok (w, Some i))
  /\ (_inverse r = None ->
      match find_relationship w (rel_target r) n with
      | None => inverse w self = Error InverseNotFound
      | Some i =>
          exists ri, rels w !! i = Some ri /\ rel_name ri = n
            /\ if match_type_of (rel_kind r) (rel_kind ri)
               then exists w', inverse w self = Ok (w', Some i)
               else inverse w self = Error TypeMismatch
      end)
  /\ (forall k k' : Kind,
        match_type_of k k' = true <->
        (k = ManyToOne /\ (k' = OneToMany \/ k' = OneToOne))
        \/ ((k = OneToOne \/ k = OneToMany) /\ k' = ManyToOne)
        \/ (k = ManyToMany /\ k' = ManyToMany)).
Proof.
  intros Hr Hn Hne. split; [|split; [|apply match_type_of_table]].
  { intros i Hc. by apply (inverse_cached _ _ _ _ Hr). }
  intros Hc.
  rewrite (inverse_fresh _ _ _ Hr Hc). unfold candidate. rewrite Hn. simpl.
  assert (String.eqb n "" = false) as -> by (by apply String.eqb_neq).
  simpl. destruct (find_relationship w (rel_target r) n) as [i|] eqn:Hf; [|done].
  destruct (find_relationship_Some _ _ _ _ Hf) as (ri & Hri & Hname).
  exists ri. split; [done|]. split; [done|].
  rewrite (proj2 (get_rel_Ok _ _ _) Hri). simpl.
  destruct (match_type_of _ _); [|done]. simpl.
  destruct (decide (i = self)) as [->|Hne'].
  - rewrite (proj2 (get_rel_Ok _ self (set__inverse (Some self) r)));
      [|by erewrite upd_rel_lookup_eq].
    simpl. erewrite (proj2 (get_rel_Ok _ self _));
      [|by erewrite upd_rel_lookup_eq; [|by erewrite upd_rel_lookup_eq]].
    simpl. eauto.
  - rewrite (proj2 (get_rel_Ok _ i ri)); [|by rewrite upd_rel_lookup_ne].
    simpl. erewrite (proj2 (get_rel_Ok _ self _));
      [|by rewrite upd_rel_lookup_ne by done; erewrite upd_rel_lookup_eq].
    simpl. eauto.
Qed.

(** C3: a OneToOne or OneToMany whose inverse resolution yields no
    counterpart fails in create_keys with MissingInverse; and when
    create_keys succeeds, the relationship has a resolved inverse, which is
    a ManyToOne. *)
Theorem onetoone_needs_inverse
    (w : World) (self : rel_id) (r : Relationship) (pk : bool) :
  rels w !! self = Some r ->
  rel_kind r = OneToOne \/ rel_kind r = OneToMany ->
  cache_typed w ->
  (forall w', inverse w self = Ok (w', None) ->
              create_keys w self pk = Error MissingInverse)
  /\ (forall w', create_keys w self pk = Ok w' ->
        exists i ri r',
          inverse w self = Ok (w', Some i)
          /\ rels w' !! self = Some r' /\ _inverse r' = Some i
          /\ rels w' !! i = Some ri /\ rel_kind ri = ManyToOne).
Proof.
  intros Hr Hk Hty.
  assert (Hck : create_keys w self pk = OneToOne_create_keys w self pk).
  { unfold create_keys, get_rel. rewrite Hr. simpl. by destruct Hk as [-> | ->]. }
  rewrite Hck. unfold OneToOne_create_keys. split.
  - intros w' H. by rewrite H.
  - intros w' H. inv_bind H as res Hres. destruct res as [w1 [i|]]; simplify_eq.
    destruct (inverse_Some_cached _ _ _ _ Hres) as (r' & Hr' & Hc').
    pose proof (inverse_cache_typed _ _ _ _ Hty Hres) as Hty'.
    destruct (Hty' _ _ _ Hr' Hc') as (ri & Hri & Hm).
    exists i, ri, r'. repeat split; try done.
    pose proof (inverse_frame_kind _ _ _ self _ Hres) as Hkk.
    rewrite Hr, Hr' in Hkk. simpl in Hkk. simplify_eq.
    apply match_type_of_table in Hm. rewrite Hkk in Hm.
    destruct Hk as [Hk | Hk]; rewrite Hk in Hm; intuition congruence.
Qed.

(** ** The join-clause deriver *)

(** The final loop, as two selections from the dictionary. *)
Lemma foldl_join_step (m : gmap (list string) ForeignKeyConstraint)
    (cols1 : list string) (cols2 : option (list string))
    (l : list (list string * ForeignKeyConstraint)) (p s : list Clause) :
  foldl (join_step m cols1 cols2) (p, s) l
  = (p ++ concat (map (fun item => clauses_of item.2)
                    (List.filter (fun item => goes_primary m cols1 cols2 item.1) l)),
     s ++ concat (map (fun item => clauses_of item.2)
                    (List.filter
                       (fun item => negb (goes_primary m cols1 cols2 item.1)
                                    && goes_secondary m cols1 cols2 item.1) l))).
Proof.
  revert p s. induction l as [|item l IH]; intros p s; simpl.
  - by rewrite !app_nil_r.
  - unfold join_step at 2.
    destruct (goes_primary m cols1 cols2 item.1); simpl.
    + rewrite IH. by rewrite <- app_assoc.
    + destruct (goes_secondary m cols1 cols2 item.1); simpl.
      * rewrite IH. by rewrite <- app_assoc.
      * apply IH.
Qed.

(** ** Bridge tables *)

(** The table [make_secondary] ends with: one new table in the metadata,
    under the computed name, referred to by the relationship. *)
Lemma make_secondary_Ok (w w1 : World) (self : rel_id) (r : Relationship)
    (inv : option Relationship) (d1 d2 : EntityDescriptor) :
  rels w !! self = Some r ->
  entities w !! rel_entity r = Some d1 ->
  entities w !! rel_target r = Some d2 ->
  make_secondary w self r inv = Ok w1 ->
  exists (t : Table) (pj sj : list Clause),
    w1 = upd_rel (new_table w t).1 self
           (set_secondary (Some (length (metadata w))) pj sj r)
    /\ tbl_name t = bridge_tablename r d1 d2 inv
    /\ (autoload d1 = false ->
        t = (bridge_table_of w r d1 d2 inv).1.1
        /\ pj = primaryjoin_clauses r ++ (bridge_table_of w r d1 d2 inv).1.2
        /\ sj = secondaryjoin_clauses r ++ (bridge_table_of w r d1 d2 inv).2).
Proof.
  intros Hr Hd1 Hd2 H. unfold make_secondary in H.
  rewrite (proj2 (get_desc_Ok _ _ _) Hd1), (proj2 (get_desc_Ok _ _ _) Hd2) in H.
  simpl in H. destruct (autoload d1) eqn:Hauto.
  - unfold _reflect_table in H.
    rewrite (proj2 (get_rel_Ok _ _ _) Hr) in H. simpl in H.
    rewrite (proj2 (get_desc_Ok _ _ _) Hd1), (proj2 (get_desc_Ok _ _ _) Hd2) in H.
    simpl in H. destruct (autoload d2); simpl in H; [|discriminate].
    unfold reflect_table in H.
    destruct (database w !! _) as [[cols cstrs]|]; simpl in H; [|discriminate].
    destruct (is_selfref r).
    + destruct (negb (nonempty (local_side r)) && negb (nonempty (remote_side r)));
        [discriminate|].
      inv_bind H as tbl Htbl. inv_bind H as etable Hetable.
      injection H as <-. eexists _, _, _. split; [reflexivity|].
      split; [reflexivity|]. discriminate.
    + injection H as <-. eexists _, _, _. split; [reflexivity|].
      split; [reflexivity|]. discriminate.
  - injection H as <-. eexists _, _, _. split; [reflexivity|].
    split; [reflexivity|]. done.
Qed.

Lemma inverse_lookup_erased (w w0 : World) (a j : rel_id) (x : option rel_id)
    (rj : Relationship) :
  inverse w a = Ok (w0, x) -> rels w !! j = Some rj ->
  exists rj0, rels w0 !! j = Some rj0
              /\ set__inverse None rj0 = set__inverse None rj.
Proof.
  intros H Hj. destruct (inverse_frame _ _ _ _ H) as (_ & _ & _ & Hf).
  specialize (Hf j). rewrite Hj in Hf. revert Hf.
  destruct (rels w0 !! j) as [rj0|]; simpl; intros Hf; [|discriminate].
  exists rj0. split; [done|]. congruence.
Qed.

(** [create_tables] on a many-to-many without table, whose inverse (if
    any) has none either, is [make_secondary] after the resolution. *)
Lemma create_tables_makes (w w0 : World) (a : rel_id) (ra : Relationship)
    (inv_id : option rel_id) :
  rels w !! a = Some ra -> rel_kind ra = ManyToMany ->
  secondary_table ra = None ->
  inverse w a = Ok (w0, inv_id) ->
  (forall i, inv_id = Some i ->
             exists ri, rels w0 !! i = Some ri /\ secondary_table ri = None) ->
  exists ra0,
    rels w0 !! a = Some ra0
    /\ set__inverse None ra0 = set__inverse None ra
    /\ create_tables w a
       = make_secondary w0 a ra0 (inv_id ≫= fun i => rels w0 !! i).
Proof.
  intros Hra Hk Hsec Hinv Hnone.
  destruct (inverse_lookup_erased _ _ _ _ _ _ Hinv Hra) as (ra0 & Hra0 & He).
  exists ra0. split; [done|]. split; [done|].
  unfold create_tables. rewrite (proj2 (get_rel_Ok _ _ _) Hra).
  simpl. rewrite Hk. unfold ManyToMany_create_tables.
  rewrite (proj2 (get_rel_Ok _ _ _) Hra). simpl.
  rewrite Hsec, Hinv. simpl.
  rewrite (proj2 (get_rel_Ok _ _ _) Hra0). simpl.
  destruct inv_id as [i|]; simpl; [|done].
  destruct (Hnone i eq_refl) as (ri & Hri & Hsi).
  rewrite (proj2 (get_rel_Ok _ _ _) Hri). simpl. by rewrite Hri, Hsi.
Qed.

Lemma m2m_column_primary_key (r : Relationship) (num : nat)
    (desc : EntityDescriptor) (pk_col : Column) :
  col_primary_key (m2m_column r num desc pk_col) = true.
Proof. reflexivity. Qed.

(** C9: every column of a freshly created (not reflected) bridge table is
    created with primary_key set to true, and the table has one column per
    primary-key column of the owner plus one per primary-key column of the
    target. *)
Theorem bridge_columns_all_primary_key
    (w w0 : World) (a : rel_id) (ra : Relationship) (inv_id : option rel_id)
    (d1 d2 : EntityDescriptor) :
  rels w !! a = Some ra -> rel_kind ra = ManyToMany ->
  secondary_table ra = None ->
  inverse w a = Ok (w0, inv_id) ->
  (forall i, inv_id = Some i ->
             exists ri, rels w0 !! i = Some ri /\ secondary_table ri = None) ->
  entities w !! rel_entity ra = Some d1 -> autoload d1 = false ->
  entities w !! rel_target ra = Some d2 ->
  exists (w1 : World) (t : Table),
    create_tables w a = Ok w1
    /\ metadata w1 = metadata w ++ [t]
    /\ secondary_table <$> rels w1 !! a = Some (Some (length (metadata w)))
    /\ tbl_autoload t = false
    /\ Forall (fun c => col_primary_key c = true) (tbl_columns t)
    /\ length (tbl_columns t)
       = length (primary_keys (entities w) (rel_entity ra))
         + length (primary_keys (entities w) (rel_target ra)).
Proof.
  intros Hra Hk Hsec Hinv Hnone Hd1 Hauto Hd2.
  destruct (create_tables_makes _ _ _ _ _ Hra Hk Hsec Hinv Hnone)
    as (ra0 & Hra0 & He & ->).
  destruct (inverse_frame _ _ _ _ Hinv) as (Hents & Hmeta & _ & _).
  assert (Hent : rel_entity ra0 = rel_entity ra)
    by apply (f_equal rel_entity He).
  assert (Htgt : rel_target ra0 = rel_target ra)
    by apply (f_equal rel_target He).
  unfold make_secondary, get_desc. rewrite Hents, Hent, Htgt, Hd1, Hd2. simpl.
  rewrite Hauto. eexists _, _. split; [reflexivity|]. simpl.
  rewrite Hmeta. split; [reflexivity|]. split.
  { rewrite list_lookup_insert_eq by (by eapply lookup_lt_Some). done. }
  split; [reflexivity|].
  rewrite Hents, Hent, Htgt. split.
  - apply Forall_app. split; apply Forall_forall; intros c Hc;
      apply list_elem_of_fmap in Hc as (pk_col & -> & _);
      apply m2m_column_primary_key.
  - cbn [tbl_columns]. by rewrite length_app, !length_map.
Qed.

Lemma bridge_tablename_erase (r r' ri ri' : Relationship)
    (d1 d2 : EntityDescriptor) :
  set__inverse None r = set__inverse None r' ->
  set__inverse None ri = set__inverse None ri' ->
  bridge_tablename r d1 d2 (Some ri) = bridge_tablename r' d1 d2 (Some ri').
Proof.
  intros He Hi. unfold bridge_tablename, source_part_of, target_part_of.
  destruct (erased_fields _ _ He) as (_ & _ & -> & -> & _).
  by destruct (erased_fields _ _ Hi) as (_ & _ & -> & _).
Qed.

(** The two halves of the name are ordered by the comparison of the table
    names, whichever end computes it. *)
Lemma bridge_tablename_sym (ra rb : Relationship) (d1 d2 : EntityDescriptor) :
  tablename d1 ≠ tablename d2 ->
  truthy (user_tablename ra) = false -> truthy (user_tablename rb) = false ->
  bridge_tablename ra d1 d2 (Some rb) = bridge_tablename rb d2 d1 (Some ra).
Proof.
  intros Hne Ha Hb. unfold bridge_tablename. rewrite Ha, Hb. simpl.
  unfold String.ltb. rewrite (String.compare_antisym (tablename d2)).
  destruct (String.compare (tablename d1) (tablename d2)) eqn:Hcmp; simpl.
  - apply String.compare_eq_iff in Hcmp. congruence.
  - reflexivity.
  - reflexivity.
Qed.

(** C4: for a matched pair of many-to-many relationships between two
    entities with distinct table names and no explicit tablename, the name
    of the bridge table is the same whichever of the two ends runs
    create_tables first. *)
Theorem bridge_name_independent_of_order
    (w wa wb w1 w2 : World) (a b : rel_id) (ra rb : Relationship)
    (d1 d2 : EntityDescriptor) :
  rels w !! a = Some ra -> rels w !! b = Some rb ->
  rel_kind ra = ManyToMany -> rel_kind rb = ManyToMany ->
  rel_target ra = rel_entity rb -> rel_target rb = rel_entity ra ->
  entities w !! rel_entity ra = Some d1 ->
  entities w !! rel_entity rb = Some d2 ->
  tablename d1 ≠ tablename d2 ->
  truthy (user_tablename ra) = false -> truthy (user_tablename rb) = false ->
  secondary_table ra = None -> secondary_table rb = None ->
  inverse w a = Ok (wa, Some b) -> inverse w b = Ok (wb, Some a) ->
  create_tables w a = Ok w1 -> create_tables w b = Ok w2 ->
  exists t1 t2 : Table,
    metadata w1 = metadata w ++ [t1]
    /\ metadata w2 = metadata w ++ [t2]
    /\ tbl_name t1 = tbl_name t2.
Proof.
  intros Hra Hrb Hka Hkb Hta Htb Hd1 Hd2 Hne Hua Hub Hsa Hsb Hia Hib H1 H2.
  destruct (inverse_lookup_erased _ _ _ _ _ _ Hia Hrb) as (rb0 & Hrb0 & Heb0).
  destruct (inverse_lookup_erased _ _ _ _ _ _ Hib Hra) as (ra0 & Hra0 & Hea0).
  destruct (create_tables_makes _ _ _ _ _ Hra Hka Hsa Hia)
    as (ra1 & Hra1 & Hea1 & Hca).
  { intros i [= <-]. exists rb0. split; [done|].
    destruct (erased_fields _ _ Heb0) as (_ & _ & _ & _ & ->). done. }
  destruct (create_tables_makes _ _ _ _ _ Hrb Hkb Hsb Hib)
    as (rb1 & Hrb1 & Heb1 & Hcb).
  { intros i [= <-]. exists ra0. split; [done|].
    destruct (erased_fields _ _ Hea0) as (_ & _ & _ & _ & ->). done. }
  rewrite Hca in H1. rewrite Hcb in H2. simpl in H1, H2.
  rewrite Hrb0 in H1. rewrite Hra0 in H2.
  destruct (inverse_frame _ _ _ _ Hia) as (Hea & Hma & _ & _).
  destruct (inverse_frame _ _ _ _ Hib) as (Heb & Hmb & _ & _).
  assert (Hd1a : entities wa !! rel_entity ra1 = Some d1).
  { destruct (erased_fields _ _ Hea1) as (-> & _). by rewrite Hea. }
  assert (Hd2a : entities wa !! rel_target ra1 = Some d2).
  { destruct (erased_fields _ _ Hea1) as (_ & -> & _). by rewrite Hea, Hta. }
  assert (Hd2b : entities wb !! rel_entity rb1 = Some d2).
  { destruct (erased_fields _ _ Heb1) as (-> & _). by rewrite Heb. }
  assert (Hd1b : entities wb !! rel_target rb1 = Some d1).
  { destruct (erased_fields _ _ Heb1) as (_ & -> & _). by rewrite Heb, Htb. }
  destruct (make_secondary_Ok _ _ _ _ _ _ _ Hra1 Hd1a Hd2a H1)
    as (t1 & pj1 & sj1 & -> & Hn1 & _).
  destruct (make_secondary_Ok _ _ _ _ _ _ _ Hrb1 Hd2b Hd1b H2)
    as (t2 & pj2 & sj2 & -> & Hn2 & _).
  exists t1, t2. simpl. rewrite Hma, Hmb. split; [done|]. split; [done|].
  rewrite Hn1, Hn2.
  rewrite (bridge_tablename_erase _ _ _ _ _ _ Hea1 Heb0).
  rewrite (bridge_tablename_erase _ _ _ _ _ _ Heb1 Hea0).
  by apply bridge_tablename_sym.
Qed.

Lemma make_secondary_shape (w w1 : World) (self : rel_id) (r : Relationship)
    (inv : option Relationship) :
  rels w !! self = Some r ->
  make_secondary w self r inv = Ok w1 ->
  exists (t : Table) (pj sj : list Clause),
    w1 = upd_rel (new_table w t).1 self
           (set_secondary (Some (length (metadata w))) pj sj r).
Proof.
  intros Hr H. pose proof H as H0. unfold make_secondary in H0.
  inv_bind H0 as d1 Hd1. inv_bind H0 as d2 Hd2.
  apply get_desc_Ok in Hd1, Hd2.
  destruct (make_secondary_Ok _ _ _ _ _ _ _ Hr Hd1 Hd2 H) as (t & pj & sj & Hw & _).
  eauto.
Qed.

(** C5: of a matched pair of many-to-many relationships, the end whose
    create_tables runs first makes the one bridge table; when the other
    end's create_tables runs after that, it makes no table: it adopts the
    same table reference, with the creator's secondaryjoin list as its
    primaryjoin list and the creator's primaryjoin list as its
    secondaryjoin list, and leaves the creator as it is. *)
Theorem bridge_table_shared_and_swapped
    (w w0 w1 : World) (a b : rel_id) (ra rb0 : Relationship) :
  a ≠ b ->
  rels w !! a = Some ra -> rel_kind ra = ManyToMany ->
  secondary_table ra = None ->
  inverse w a = Ok (w0, Some b) ->
  rels w0 !! b = Some rb0 -> rel_kind rb0 = ManyToMany ->
  secondary_table rb0 = None -> _inverse rb0 = Some a ->
  create_tables w a = Ok w1 ->
  exists (t : Table) (ra1 : Relationship),
    metadata w1 = metadata w ++ [t]
    /\ rels w1 !! a = Some ra1
    /\ secondary_table ra1 = Some (length (metadata w))
    /\ exists (w2 : World) (rb2 : Relationship),
         create_tables w1 b = Ok w2
         /\ metadata w2 = metadata w1
         /\ rels w2 !! b = Some rb2
         /\ secondary_table rb2 = secondary_table ra1
         /\ primaryjoin_clauses rb2 = secondaryjoin_clauses ra1
         /\ secondaryjoin_clauses rb2 = primaryjoin_clauses ra1
         /\ rels w2 !! a = Some ra1.
Proof.
  intros Hab Hra Hka Hsa Hinv Hrb0 Hkb Hsb Hcb H.
  destruct (create_tables_makes _ _ _ _ _ Hra Hka Hsa Hinv)
    as (ra0 & Hra0 & Hea & Hc).
  { intros i [= <-]. eauto. }
  rewrite Hc in H.
  destruct (make_secondary_shape _ _ _ _ _ Hra0 H) as (t & pj & sj & ->).
  destruct (inverse_frame _ _ _ _ Hinv) as (_ & Hmeta & _ & _).
  set (ra1 := set_secondary (Some (length (metadata w0))) pj sj ra0).
  set (w1 := upd_rel (new_table w0 t).1 a ra1).
  assert (Ha1 : rels w1 !! a = Some ra1).
  { subst w1. by erewrite upd_rel_lookup_eq. }
  assert (Hb1 : rels w1 !! b = Some rb0).
  { subst w1. by rewrite upd_rel_lookup_ne. }
  exists t, ra1. split; [by simpl; rewrite Hmeta|]. split; [done|].
  split; [by simpl; rewrite Hmeta|].
  exists (upd_rel w1 b
            (set_secondary (secondary_table ra1) (secondaryjoin_clauses ra1)
               (primaryjoin_clauses ra1) rb0)),
    (set_secondary (secondary_table ra1) (secondaryjoin_clauses ra1)
       (primaryjoin_clauses ra1) rb0).
  split.
  { unfold create_tables. rewrite (proj2 (get_rel_Ok _ _ _) Hb1). simpl.
    rewrite Hkb. unfold ManyToMany_create_tables.
    rewrite (proj2 (get_rel_Ok _ _ _) Hb1). simpl. rewrite Hsb.
    rewrite (inverse_cached _ _ _ _ Hb1 Hcb). simpl.
    rewrite (proj2 (get_rel_Ok _ _ _) Hb1). simpl.
    rewrite (proj2 (get_rel_Ok _ _ _) Ha1). simpl. reflexivity. }
  split; [reflexivity|]. split; [by erewrite upd_rel_lookup_eq|].
  repeat (split; [reflexivity|]).
  by rewrite upd_rel_lookup_ne.
Qed.

(** ** Foreign keys of a many-to-one *)

Lemma fk_columns_length (r : Relationship) (k : nat) (pks : list Column) :
  length (fk_columns r k pks) = length pks.
Proof. revert k. induction pks; intros k; simpl; [done|]. by rewrite IHpks. Qed.

Lemma fk_columns_ext (r r' : Relationship) (k : nat) (pks : list Column) :
  colname r = colname r' -> rel_name r = rel_name r' ->
  column_kwargs r = column_kwargs r' ->
  fk_columns r k pks = fk_columns r' k pks.
Proof.
  intros Hc Hn Hk. revert k. induction pks as [|pk_col pks IH]; intros k; simpl.
  - done.
  - by rewrite Hc, Hn, Hk, IH.
Qed.

(** The loop adds the columns [fk_columns] to the owner, to [foreign_key]
    and, paired with the primary-key columns, to [primaryjoin_clauses]. *)
Lemma create_keys_loop_Ok (target_desc : EntityDescriptor) (self : rel_id)
    (pks : list Column) :
  forall (w : World) (r : Relationship) (sd : EntityDescriptor) (k : nat)
         (fk_colnames fk_refcols : list string),
    rels w !! self = Some r ->
    entities w !! rel_entity r = Some sd ->
    (colname r = [] \/ k + length pks <= length (colname r)) ->
    let cols := fk_columns r k pks in
    create_keys_loop w self target_desc k pks fk_colnames fk_refcols
    = Ok ({| entities :=
               <[rel_entity r := with_columns (desc_columns sd ++ cols) sd]>
                 (entities w);
             rels :=
               <[self := set_foreign_key (foreign_key r ++ cols)
                           (primaryjoin_clauses r ++ zip_with ClauseEq cols pks) r]>
                 (rels w);
             metadata := metadata w; database := database w |},
          fk_colnames ++ map col_key cols,
          fk_refcols ++ map (target_path_of target_desc) pks).
Proof.
  induction pks as [|pk_col pks IH]; intros w r sd k fkn fkr Hr Hsd Hlen; simpl.
  - rewrite !app_nil_r. destruct w as [es rs md db]; simpl in *.
    do 3 f_equal. f_equal.
    + symmetry. apply list_insert_id. rewrite Hsd. by destruct sd.
    + symmetry. apply list_insert_id. rewrite Hr. by destruct r.
  - rewrite (proj2 (get_rel_Ok _ _ _) Hr). simpl.
    set (name := if nonempty (colname r)
                 then default "" (colname r !! k)
                 else FKCOL_NAMEFORMAT (rel_name r) (col_key pk_col)).
    assert (Hname :
      (if nonempty (colname r)
       then match colname r !! k with
            | Some c => Ok c
            | None => Error IndexError
            end
       else Ok (FKCOL_NAMEFORMAT (rel_name r) (col_key pk_col))) = Ok name).
    { subst name. destruct (colname r) as [|c cs] eqn:Hcn; simpl; [done|].
      destruct Hlen as [?|Hlen]; [done|]. simpl in Hlen.
      destruct (lookup_lt_is_Some_2 (c :: cs) k) as [x Hx]; [simpl; lia|].
      by rewrite Hx. }
    rewrite Hname. simpl.
    unfold add_column. rewrite (proj2 (get_desc_Ok _ _ _) Hsd). simpl.
    unfold get_rel at 1. simpl. rewrite Hr. simpl.
    set (col := mkColumn name (col_type pk_col) (column_kwargs r)).
    set (r' := set_foreign_key (foreign_key r ++ [col])
                 (primaryjoin_clauses r ++ [ClauseEq col pk_col]) r).
    set (sd' := with_columns (desc_columns sd ++ [col]) sd).
    rewrite (IH _ r' sd').
    + simpl. rewrite list_insert_insert_eq. rewrite list_insert_insert_eq.
      rewrite <- !app_assoc. simpl.
      rewrite (fk_columns_ext r' r) by done. reflexivity.
    + simpl. apply list_lookup_insert_eq. by eapply lookup_lt_Some.
    + simpl. apply list_lookup_insert_eq. by eapply lookup_lt_Some.
    + simpl. destruct Hlen as [?|Hlen]; [by left|]. right. simpl in Hlen. lia.
Qed.

Lemma fk_columns_types (r : Relationship) (k : nat) (pks : list Column) :
  Forall2 (fun c p => col_type c = col_type p) (fk_columns r k pks) pks.
Proof.
  revert k. induction pks as [|pk_col pks IH]; intros k; simpl; constructor; auto.
Qed.

(** [ManyToOne.create_keys] on an entity that is not autoloaded, in the
    matching pass, from the state [__init__] leaves. *)
Lemma ManyToOne_create_keys_creates
    (w w1 : World) (self : rel_id) (r : Relationship) (sd td : EntityDescriptor)
    (pk : bool) :
  rels w !! self = Some r ->
  foreign_key r = [] ->
  default (VBool false) (column_kwargs r !! "primary_key") = VBool pk ->
  create_pk_cols w (rel_target r) = Ok w1 ->
  rels w1 !! self = Some r ->
  entities w1 !! rel_entity r = Some sd -> autoload sd = false ->
  entities w1 !! rel_target r = Some td ->
  primary_keys (entities w1) (rel_target r) ≠ [] ->
  (colname r = []
   \/ length (colname r) = length (primary_keys (entities w1) (rel_target r))) ->
  let pks := primary_keys (entities w1) (rel_target r) in
  let cols := fk_columns r 0 pks in
  let kw :=
    match constraint_kwargs r !! "name" with
    | Some _ => constraint_kwargs r
    | None =>
        <["name" := VStr (CONSTRAINT_NAMEFORMAT (tablename sd)
                            (String.concat "_" (map col_key cols)))]>
          (constraint_kwargs r)
    end in
  ManyToOne_create_keys w self pk
  = Ok {| entities :=
            <[rel_entity r :=
                with_constraints
                  (desc_constraints sd
                   ++ [FKConstraint
                         (mkForeignKeyConstraint (map col_key cols)
                            (map (target_path_of td) pks) kw [])])
                  (with_columns (desc_columns sd ++ cols) sd)]> (entities w1);
          rels :=
            <[self := set_constraint_kwargs kw
                        (set_foreign_key cols
                           (primaryjoin_clauses r ++ zip_with ClauseEq cols pks) r)]>
              (rels w1);
          metadata := metadata w1; database := database w1 |}.
Proof.
  intros Hr Hfk Hpass Hpk Hr1 Hsd Hauto Htd Hpks Hlen pks cols kw.
  unfold ManyToOne_create_keys.
  rewrite (proj2 (get_rel_Ok _ _ _) Hr). simpl. rewrite Hfk. simpl.
  rewrite Hpass. rewrite bool_decide_eq_false_2 by (intros Hc; by apply Hc).
  rewrite Hpk. simpl.
  rewrite (proj2 (get_rel_Ok _ _ _) Hr1). simpl.
  rewrite (proj2 (get_desc_Ok _ _ _) Hsd), (proj2 (get_desc_Ok _ _ _) Htd).
  simpl. rewrite Hauto. fold pks.
  assert (nonempty (colname r) && negb (length (colname r) =? length pks)%nat
          = false) as ->.
  { destruct Hlen as [-> | ->]; [done|]. rewrite Nat.eqb_refl. simpl.
    apply andb_false_r. }
  assert (nonempty pks = true) as ->.
  { subst pks. by destruct (primary_keys _ _). }
  simpl.
  rewrite (create_keys_loop_Ok td self pks w1 r sd 0 [] [] Hr1 Hsd)
    by (destruct Hlen as [?|Hlen]; [by left | right; rewrite Hlen; by unfold pks]).
  simpl. fold cols.
  assert (Hself : self < length (rels w1)) by (by eapply lookup_lt_Some).
  assert (Hent : rel_entity r < length (entities w1)) by (by eapply lookup_lt_Some).
  unfold get_rel. simpl. rewrite list_lookup_insert_eq by done. simpl.
  rewrite Hfk. simpl. fold kw.
  unfold add_constraint, get_desc. simpl.
  rewrite list_lookup_insert_eq by done. simpl.
  unfold upd_desc, upd_rel. simpl.
  by rewrite !list_insert_insert_eq.
Qed.

(** C1: for a ManyToOne on an entity that is not autoloaded, whose target
    has at least one primary-key column and whose colname list, if given,
    has that many names, create_keys in the matching pass creates on the
    owner as many foreign-key columns as the target has primary-key columns
    (each of the type of its primary-key column), and the primaryjoin list
    pairs the i-th created column with the i-th primary-key column, in the
    order of the target's primary key. *)
Theorem many_to_one_keys_match_primary_key
    (w w1 : World) (self : rel_id) (r : Relationship) (sd td : EntityDescriptor)
    (pk : bool) :
  rels w !! self = Some r -> rel_kind r = ManyToOne ->
  foreign_key r = [] -> primaryjoin_clauses r = [] ->
  default (VBool false) (column_kwargs r !! "primary_key") = VBool pk ->
  create_pk_cols w (rel_target r) = Ok w1 ->
  rels w1 !! self = Some r ->
  entities w1 !! rel_entity r = Some sd -> autoload sd = false ->
  entities w1 !! rel_target r = Some td ->
  primary_keys (entities w1) (rel_target r) ≠ [] ->
  (colname r = []
   \/ length (colname r) = length (primary_keys (entities w1) (rel_target r))) ->
  exists (w2 : World) (r2 : Relationship) (sd2 : EntityDescriptor),
    create_keys w self pk = Ok w2
    /\ rels w2 !! self = Some r2
    /\ entities w2 !! rel_entity r = Some sd2
    /\ desc_columns sd2 = desc_columns sd ++ foreign_key r2
    /\ length (foreign_key r2)
       = length (primary_keys (entities w1) (rel_target r))
    /\ primaryjoin_clauses r2
       = zip_with ClauseEq (foreign_key r2)
           (primary_keys (entities w1) (rel_target r))
    /\ Forall2 (fun c p => col_type c = col_type p) (foreign_key r2)
         (primary_keys (entities w1) (rel_target r)).
Proof.
  intros Hr Hk Hfk Hpj Hpass Hpk Hr1 Hsd Hauto Htd Hpks Hlen.
  unfold create_keys. rewrite (proj2 (get_rel_Ok _ _ _) Hr). simpl. rewrite Hk.
  rewrite (ManyToOne_create_keys_creates _ _ _ _ _ _ _
             Hr Hfk Hpass Hpk Hr1 Hsd Hauto Htd Hpks Hlen).
  eexists _, _, _. split; [reflexivity|]. simpl.
  split; [by apply list_lookup_insert_eq; eapply lookup_lt_Some|].
  split; [by apply list_lookup_insert_eq; eapply lookup_lt_Some|].
  simpl. split; [done|]. split; [apply fk_columns_length|].
  split; [by rewrite Hpj|]. apply fk_columns_types.
Qed.

(** C10: for a ManyToOne whose owner is autoloaded and which has no colname
    list, create_keys creates no column and no constraint and derives no
    join clause: in the pass that does not match it returns at once, and in
    the matching pass it returns the store as the set-up of the target's
    primary key left it, with foreign_key and primaryjoin_clauses empty and
    without an error of its own. *)
Theorem autoloaded_many_to_one_creates_nothing
    (w w1 : World) (self : rel_id) (r : Relationship) (sd td : EntityDescriptor)
    (pk : bool) :
  rels w !! self = Some r -> rel_kind r = ManyToOne ->
  foreign_key r = [] -> primaryjoin_clauses r = [] -> colname r = [] ->
  create_pk_cols w (rel_target r) = Ok w1 ->
  rels w1 !! self = Some r ->
  entities w1 !! rel_entity r = Some sd -> autoload sd = true ->
  entities w1 !! rel_target r = Some td ->
  create_keys w self pk
  = Ok (if bool_decide (default (VBool false) (column_kwargs r !! "primary_key")
                        = VBool pk) then w1 else w)
  /\ foreign_key <$> rels w1 !! self = Some []
  /\ primaryjoin_clauses <$> rels w1 !! self = Some [].
Proof.
  intros Hr Hk Hfk Hpj Hcn Hpk Hr1 Hsd Hauto Htd.
  split; [|by rewrite Hr1; simpl; rewrite Hfk, Hpj].
  unfold create_keys. rewrite (proj2 (get_rel_Ok _ _ _) Hr). simpl. rewrite Hk.
  unfold ManyToOne_create_keys.
  rewrite (proj2 (get_rel_Ok _ _ _) Hr). simpl. rewrite Hfk. simpl.
  destruct (decide (default (VBool false) (column_kwargs r !! "primary_key")
                    = VBool pk)) as [Hpass|Hpass].
  - rewrite (bool_decide_eq_true_2 _ Hpass).
    rewrite bool_decide_eq_false_2 by (intros Hc; by apply Hc).
    rewrite Hpk. simpl.
    rewrite (proj2 (get_rel_Ok _ _ _) Hr1). simpl.
    rewrite (proj2 (get_desc_Ok _ _ _) Hsd), (proj2 (get_desc_Ok _ _ _) Htd).
    simpl. by rewrite Hauto, Hcn.
  - rewrite (bool_decide_eq_false_2 _ Hpass).
    by rewrite bool_decide_eq_true_2.
Qed.

(** C7: for [Pet.owner = ManyToOne('Person')], where [Person] has the
    single primary-key column [id] and [Pet] is not autoloaded, create_keys
    (in the pass for columns that are not primary keys; the other pass does
    nothing) adds to [Pet] exactly one column, named by the FK name format
    applied to relname [owner] and key [id], of the type of [Person.id],
    nullable by default (no nullable keyword, not a primary key), and one
    foreign-key constraint from that column to [person.id]. *)
Theorem pet_owner_gets_one_column (ty : string) :
  create_pk_cols (pet_owner_world ty) 0 = Ok (pet_owner_world ty) ->
  primary_keys (entities (pet_owner_world ty)) 0 = [person_id ty] ->
  let col := mkColumn (FKCOL_NAMEFORMAT "owner" "id") ty {["index" := VBool true]} in
  create_keys (pet_owner_world ty) 0 true = Ok (pet_owner_world ty)
  /\ exists (w2 : World) (kw : gmap string kwval),
       create_keys (pet_owner_world ty) 0 false = Ok w2
       /\ desc_columns <$> entities w2 !! 1 = Some [id_column; col]
       /\ desc_columns <$> entities w2 !! 0 = Some [person_id ty]
       /\ col_type col = col_type (person_id ty)
       /\ col_kwargs col !! "nullable" = None
       /\ col_nullable col = true
       /\ desc_constraints <$> entities w2 !! 1
          = Some [FKConstraint
                    (mkForeignKeyConstraint [col_key col] ["person.id"] kw [])]
       /\ foreign_key <$> rels w2 !! 0 = Some [col]
       /\ primaryjoin_clauses <$> rels w2 !! 0
          = Some [ClauseEq col (person_id ty)].
Proof.
  intros Hpk Hpks col. split; [reflexivity|].
  set (r := set_entity_name 1 "owner" (ManyToOne_init 0 no_M2OArgs)).
  set (sd := with_relationships [0] (plain_entity "Pet" "pet" [id_column])).
  set (td := plain_entity "Person" "person" [person_id ty]).
  assert (Hpks' : primary_keys (entities (pet_owner_world ty)) (rel_target r)
                  = [person_id ty]) by exact Hpks.
  assert (Hne : primary_keys (entities (pet_owner_world ty)) (rel_target r) ≠ [])
    by (by rewrite Hpks').
  pose proof (ManyToOne_create_keys_creates (pet_owner_world ty)
                (pet_owner_world ty) 0 r sd td false eq_refl eq_refl eq_refl
                Hpk eq_refl eq_refl eq_refl eq_refl Hne (or_introl eq_refl))
    as Hc.
  rewrite Hpks' in Hc. cbv zeta in Hc.
  unfold create_keys. simpl. fold r. rewrite Hc.
  eexists _, _. split; [reflexivity|]. simpl. repeat split; reflexivity.
Qed.

Lemma cache_typed_fresh (w : World) :
  Forall (fun r => _inverse r = None) (rels w) -> cache_typed w.
Proof.
  intros Hall i j r Hi Hj. rewrite Forall_forall in Hall.
  assert (Hin : r ∈ rels w) by (apply list_elem_of_lookup; eauto).
  specialize (Hall r Hin). congruence.
Qed.

(** ** More on inverse matching *)

(** X1: [is_inverse] is symmetric: A accepts B as its inverse exactly when
    B accepts A, for all four classes (with the table-name test of
    [ManyToMany.is_inverse]). *)
Theorem is_inverse_symmetric (i j : rel_id) (self other : Relationship) :
  is_inverse i self j other = is_inverse j other i self.
Proof.
  assert (Hb : base_is_inverse i self j other = base_is_inverse j other i self).
  { unfold base_is_inverse.
    rewrite (Nat.eqb_sym j i), (match_type_of_sym (rel_kind self)).
    destruct (negb (Nat.eqb i j)), (match_type_of (rel_kind other) (rel_kind self)),
      (Nat.eqb (rel_entity self) (rel_target other)),
      (Nat.eqb (rel_entity other) (rel_target self)),
      (bool_decide (inverse_name self = Some (rel_name other))
       || negb (truthy (inverse_name self))),
      (bool_decide (inverse_name other = Some (rel_name self))
       || negb (truthy (inverse_name other))); reflexivity. }
  unfold is_inverse.
  destruct (rel_kind self) eqn:Hs, (rel_kind other) eqn:Ho; try exact Hb;
    try (rewrite Hb; unfold base_is_inverse; rewrite Ho, Hs; simpl;
         by rewrite ?andb_false_r);
    try (unfold base_is_inverse; rewrite Ho, Hs; simpl;
         by rewrite ?andb_false_r).
  rewrite Hb. f_equal.
  rewrite (bool_decide_ext (user_tablename self = user_tablename other)
             (user_tablename other = user_tablename self)) by (split; congruence).
  by rewrite (andb_comm (negb (truthy (user_tablename self)))).
Qed.

(** X2: reading [inverse] writes nothing but [_inverse] attributes: the
    entity descriptors, the metadata and the database are the same after
    it, and every relationship object is the same up to its [_inverse]. *)
Theorem inverse_changes_only_the_cache
    (w w' : World) (a : rel_id) (x : option rel_id) :
  inverse w a = Ok (w', x) ->
  entities w' = entities w /\ metadata w' = metadata w
  /\ database w' = database w
  /\ length (rels w') = length (rels w)
  /\ forall j rj, rels w !! j = Some rj ->
       exists rj', rels w' !! j = Some rj'
                   /\ rj' = set__inverse (_inverse rj') rj.
Proof.
  intros H. destruct (inverse_frame _ _ _ _ H) as (He & Hm & Hd & Hj).
  repeat split; try done.
  - apply Nat.le_antisymm; apply Nat.le_ngt; intros Hlt.
    + destruct (lookup_lt_is_Some_2 (rels w') (length (rels w))) as [r Hr];
        [lia|].
      specialize (Hj (length (rels w))). rewrite Hr in Hj.
      rewrite (lookup_ge_None_2 (rels w)) in Hj by lia. discriminate.
    + destruct (lookup_lt_is_Some_2 (rels w) (length (rels w'))) as [r Hr];
        [lia|].
      specialize (Hj (length (rels w'))). rewrite Hr in Hj.
      rewrite (lookup_ge_None_2 (rels w')) in Hj by lia. discriminate.
  - intros j rj Hrj.
    destruct (inverse_lookup_erased _ _ _ _ _ _ H Hrj) as (rj' & Hrj' & He').
    exists rj'. split; [done|].
    destruct rj', rj. unfold set__inverse in *. simpl in *.
    injection He'; intros; subst; reflexivity.
Qed.

Lemma inverse_none_leaves_store_aux (w w' : World) (a : rel_id) :
  inverse w a = Ok (w', None) -> w' = w.
Proof.
  intros H. pose proof H as H0. unfold inverse in H0.
  inv_bind H0 as ra Hra. apply get_rel_Ok in Hra.
  destruct (_inverse ra) as [c|] eqn:Hc; [by simplify_eq|]. clear H0.
  by destruct (inverse_fresh_None _ _ _ _ Hra Hc H) as (_ & ->).
Qed.

(** X3: a resolution that finds no counterpart caches nothing: the store
    is exactly the one before, so that the next read searches again. *)
Theorem inverse_none_leaves_store (w w' : World) (a : rel_id) :
  inverse w a = Ok (w', None) ->
  w' = w /\ inverse w' a = Ok (w', None).
Proof.
  intros H. pose proof (inverse_none_leaves_store_aux _ _ _ H) as ->.
  by split.
Qed.

(** X4: starting from relationships none of which has a cached inverse, any
    sequence of reads of [inverse] leaves a store in which every cached
    inverse is of a kind compatible with its holder. *)
Theorem read_inverses_keep_cache_typed (l : list rel_id) (w w' : World) :
  Forall (fun r => _inverse r = None) (rels w) ->
  read_inverses w l = Ok w' ->
  cache_typed w'.
Proof.
  intros Hfresh. assert (Hty : cache_typed w).
  { intros i j r Hi Hj. rewrite Forall_forall in Hfresh.
    assert (Hin : r ∈ rels w) by (apply list_elem_of_lookup; eauto).
    specialize (Hfresh r Hin). congruence. }
  clear Hfresh. revert w Hty. induction l as [|a l IH]; intros w Hty H; simpl in H.
  - by simplify_eq.
  - inv_bind H as res Hres. destruct res as [w1 x].
    eapply IH; [|exact H]. by eapply inverse_cache_typed.
Qed.

(** ** More on the keys of a many-to-one *)

Lemma fk_columns_lookup (r : Relationship) (pks : list Column) :
  forall (k i : nat) (pk_col : Column),
    pks !! i = Some pk_col ->
    fk_columns r k pks !! i
    = Some (mkColumn (if nonempty (colname r)
                      then default "" (colname r !! (k + i))
                      else FKCOL_NAMEFORMAT (rel_name r) (col_key pk_col))
              (col_type pk_col) (column_kwargs r)).
Proof.
  induction pks as [|p pks IH]; intros k i pk_col Hi; [done|].
  destruct i as [|i]; simpl in *.
  - simplify_eq. by rewrite Nat.add_0_r.
  - rewrite (IH (S k) i pk_col Hi). by rewrite Nat.add_succ_r.
Qed.

(** [create_keys] in the state [ready_for_keys], as one equation. *)
Lemma create_keys_ready (w w1 : World) (self : rel_id) (r : Relationship)
    (sd td : EntityDescriptor) (pk : bool) :
  ready_for_keys w w1 self r sd td pk ->
  primary_keys (entities w1) (rel_target r) ≠ [] ->
  (colname r = []
   \/ length (colname r) = length (primary_keys (entities w1) (rel_target r))) ->
  let pks := primary_keys (entities w1) (rel_target r) in
  let cols := fk_columns r 0 pks in
  let kw :=
    match constraint_kwargs r !! "name" with
    | Some _ => constraint_kwargs r
    | None =>
        <["name" := VStr (CONSTRAINT_NAMEFORMAT (tablename sd)
                            (String.concat "_" (map col_key cols)))]>
          (constraint_kwargs r)
    end in
  create_keys w self pk
  = Ok {| entities :=
            <[rel_entity r :=
                with_constraints
                  (desc_constraints sd
                   ++ [FKConstraint
                         (mkForeignKeyConstraint (map col_key cols)
                            (map (target_path_of td) pks) kw [])])
                  (with_columns (desc_columns sd ++ cols) sd)]> (entities w1);
          rels :=
            <[self := set_constraint_kwargs kw
                        (set_foreign_key cols
                           (primaryjoin_clauses r ++ zip_with ClauseEq cols pks) r)]>
              (rels w1);
          metadata := metadata w1; database := database w1 |}.
Proof.
  intros (Hr & Hk & Hfk & Hpass & Hpk & Hr1 & Hsd & Hauto & Htd) Hpks Hlen.
  unfold create_keys. rewrite (proj2 (get_rel_Ok _ _ _) Hr). simpl. rewrite Hk.
  by apply ManyToOne_create_keys_creates.
Qed.

(** X5: each foreign-key column [create_keys] creates has the type of its
    primary-key column and the relationship's [column_kwargs]; it is named
    by the i-th name of [colname] when [colname] is given, and by
    [FKCOL_NAMEFORMAT] applied to the relationship name and the key of the
    primary-key column otherwise. *)
Theorem created_columns_named_and_typed
    (w w1 : World) (self : rel_id) (r : Relationship)
    (sd td : EntityDescriptor) (pk : bool) :
  ready_for_keys w w1 self r sd td pk ->
  primary_keys (entities w1) (rel_target r) ≠ [] ->
  (colname r = []
   \/ length (colname r) = length (primary_keys (entities w1) (rel_target r))) ->
  exists (w2 : World) (r2 : Relationship),
    create_keys w self pk = Ok w2 /\ rels w2 !! self = Some r2
    /\ forall (i : nat) (pk_col : Column),
         primary_keys (entities w1) (rel_target r) !! i = Some pk_col ->
         exists c : Column,
           foreign_key r2 !! i = Some c
           /\ col_type c = col_type pk_col
           /\ col_kwargs c = column_kwargs r
           /\ (colname r = [] ->
               col_key c = FKCOL_NAMEFORMAT (rel_name r) (col_key pk_col))
           /\ (colname r ≠ [] -> colname r !! i = Some (col_key c)).
Proof.
  intros Hready Hpks Hlen. pose proof Hready as (_ & _ & _ & _ & _ & Hr1 & _).
  rewrite (create_keys_ready _ _ _ _ _ _ _ Hready Hpks Hlen).
  eexists _, _. split; [reflexivity|]. simpl.
  split; [by apply list_lookup_insert_eq; eapply lookup_lt_Some|].
  intros i pk_col Hi. simpl. rewrite (fk_columns_lookup _ _ 0 i pk_col Hi).
  eexists. split; [reflexivity|]. simpl. repeat split.
  - by intros ->.
  - intros Hne. destruct (colname r) as [|c cs] eqn:Hcn; [done|]. simpl.
    destruct Hlen as [?|Hlen]; [done|].
    destruct (lookup_lt_is_Some_2 (c :: cs) i) as [x Hx].
    { rewrite Hlen. by eapply lookup_lt_Some. }
    by rewrite Hx.
Qed.

(** X6: [ManyToOne.__init__] builds [column_kwargs] from the keyword
    [column_kwargs] with [required] and [primary_key] on top: [nullable] is
    the negation of [required] when [required] is given, [primary_key] is
    the keyword of that name when given, [index] is [True] unless the
    dictionary has an [index] of its own, and every other key is the
    dictionary's. *)
Theorem init_column_kwargs (of_kind : ent_id) (a : M2OArgs) :
  let kw := column_kwargs (ManyToOne_init of_kind a) in
  kw !! "nullable"
  = match arg_required a with
    | Some b => Some (VBool (negb b))
    | None => arg_column_kwargs a !! "nullable"
    end
  /\ kw !! "primary_key"
     = match arg_primary_key a with
       | Some b => Some (VBool b)
       | None => arg_column_kwargs a !! "primary_key"
       end
  /\ kw !! "index" = Some (default (VBool true) (arg_column_kwargs a !! "index"))
  /\ forall k : string,
       k ≠ "nullable" -> k ≠ "primary_key" -> k ≠ "index" ->
       kw !! k = arg_column_kwargs a !! k.
Proof.
  assert (Hsd : forall (k k' : string) v (m : gmap string kwval),
             k ≠ k' -> setdefault k v m !! k' = m !! k').
  { intros k k' v m Hne. unfold setdefault. destruct (m !! k); [done|].
    by rewrite lookup_insert_ne. }
  assert (Hso : forall (k k' : string) v (m : gmap string kwval),
             k ≠ k' -> set_opt k v m !! k' = m !! k').
  { intros k k' v m Hne. unfold set_opt. destruct v; [|done].
    by rewrite lookup_insert_ne. }
  simpl. repeat split.
  - rewrite Hsd, Hso by done. unfold set_opt.
    destruct (arg_required a); simpl; [by rewrite lookup_insert_eq | done].
  - rewrite Hsd by done. unfold set_opt at 1.
    destruct (arg_primary_key a); simpl; [by rewrite lookup_insert_eq|].
    by rewrite Hso.
  - unfold setdefault.
    destruct (set_opt "primary_key" _ _ !! "index") as [v|] eqn:Hv.
    + rewrite Hv. rewrite !Hso in Hv by done. by rewrite Hv.
    + rewrite lookup_insert_eq. rewrite !Hso in Hv by done. by rewrite Hv.
  - intros k H1 H2 H3. by rewrite Hsd, !Hso.
Qed.

(** X7: a [ManyToOne] creates its keys once, in one pass: before the
    creation the other pass returns the store as it is, and after it
    [create_keys] returns the store as it is in both passes. *)
Theorem create_keys_once
    (w w1 : World) (self : rel_id) (r : Relationship)
    (sd td : EntityDescriptor) (pk : bool) :
  ready_for_keys w w1 self r sd td pk ->
  primary_keys (entities w1) (rel_target r) ≠ [] ->
  (colname r = []
   \/ length (colname r) = length (primary_keys (entities w1) (rel_target r))) ->
  create_keys w self (negb pk) = Ok w
  /\ exists w2 : World,
       create_keys w self pk = Ok w2
       /\ forall pk' : bool, create_keys w2 self pk' = Ok w2.
Proof.
  intros Hready Hpks Hlen.
  pose proof Hready as (Hr & Hk & Hfk & Hpass & _ & Hr1 & _). split.
  - unfold create_keys. rewrite (proj2 (get_rel_Ok _ _ _) Hr). simpl. rewrite Hk.
    unfold ManyToOne_create_keys. rewrite (proj2 (get_rel_Ok _ _ _) Hr). simpl.
    rewrite Hfk, Hpass. simpl.
    rewrite bool_decide_eq_true_2; [done|]. intros [= Hb]. by destruct pk.
  - rewrite (create_keys_ready _ _ _ _ _ _ _ Hready Hpks Hlen).
    eexists. split; [reflexivity|]. intros pk'.
    unfold create_keys, get_rel. simpl.
    rewrite list_lookup_insert_eq by (by eapply lookup_lt_Some). simpl.
    rewrite Hk. unfold ManyToOne_create_keys, get_rel. simpl.
    rewrite list_lookup_insert_eq by (by eapply lookup_lt_Some). simpl.
    destruct (primary_keys (entities w1) (rel_target r)); done.
Qed.

(** X8: [create_keys] checks before it creates: a [colname] list whose
    length is not the number of primary-key columns of the target ends in
    the error on the number of column names (also when the target has no
    primary key at all), and a target without primary key, with no
    [colname], ends in the error on the missing primary key. *)
Theorem create_keys_validates
    (w w1 : World) (self : rel_id) (r : Relationship)
    (sd td : EntityDescriptor) (pk : bool) :
  ready_for_keys w w1 self r sd td pk ->
  (colname r ≠ [] ->
   length (colname r) ≠ length (primary_keys (entities w1) (rel_target r)) ->
   create_keys w self pk = Error PrimaryKeyMismatch)
  /\ (colname r = [] ->
      primary_keys (entities w1) (rel_target r) = [] ->
      create_keys w self pk = Error NoPrimaryKey).
Proof.
  intros (Hr & Hk & Hfk & Hpass & Hpk & Hr1 & Hsd & Hauto & Htd).
  assert (Hstart : create_keys w self pk =
    if nonempty (colname r)
       && negb (length (colname r)
                =? length (primary_keys (entities w1) (rel_target r)))%nat
    then Error PrimaryKeyMismatch
    else if negb (nonempty (primary_keys (entities w1) (rel_target r)))
         then Error NoPrimaryKey
         else create_keys w self pk).
  { destruct (nonempty (colname r)
              && negb (length (colname r)
                       =? length (primary_keys (entities w1) (rel_target r)))%nat)
      eqn:H1;
      [|destruct (negb (nonempty (primary_keys (entities w1) (rel_target r))))
          eqn:H2; [|done]];
      unfold create_keys; rewrite (proj2 (get_rel_Ok _ _ _) Hr); simpl;
      rewrite Hk; unfold ManyToOne_create_keys;
      rewrite (proj2 (get_rel_Ok _ _ _) Hr); simpl; rewrite Hfk; simpl;
      rewrite Hpass;
      rewrite bool_decide_eq_false_2 by (intros Hc; by apply Hc);
      rewrite Hpk; simpl; rewrite (proj2 (get_rel_Ok _ _ _) Hr1); simpl;
      rewrite (proj2 (get_desc_Ok _ _ _) Hsd), (proj2 (get_desc_Ok _ _ _) Htd);
      simpl; rewrite Hauto.
    - by rewrite H1.
    - by rewrite H1, H2. }
  split.
  - intros Hne Hlen. rewrite Hstart.
    destruct (colname r) as [|c cs]; [done|]. simpl.
    apply Nat.eqb_neq in Hlen. simpl in Hlen. by rewrite Hlen.
  - intros Hcn Hpks. rewrite Hstart. by rewrite Hcn, Hpks.
Qed.

(** X9: [create_keys] touches the relationship and its owner only: the
    other relationship objects, the other entity descriptors, the metadata
    and the database are those the set-up of the target's primary key left;
    on the relationship only [foreign_key], [primaryjoin_clauses] and
    [constraint_kwargs] change, on the owner only its columns and
    constraints. *)
Theorem create_keys_frame
    (w w1 : World) (self : rel_id) (r : Relationship)
    (sd td : EntityDescriptor) (pk : bool) :
  ready_for_keys w w1 self r sd td pk ->
  primary_keys (entities w1) (rel_target r) ≠ [] ->
  (colname r = []
   \/ length (colname r) = length (primary_keys (entities w1) (rel_target r))) ->
  exists (w2 : World) (r2 : Relationship) (sd2 : EntityDescriptor),
    create_keys w self pk = Ok w2
    /\ metadata w2 = metadata w1 /\ database w2 = database w1
    /\ (forall j, j ≠ self -> rels w2 !! j = rels w1 !! j)
    /\ (forall e, e ≠ rel_entity r -> entities w2 !! e = entities w1 !! e)
    /\ rels w2 !! self = Some r2
    /\ set_constraint_kwargs (constraint_kwargs r)
         (set_foreign_key (foreign_key r) (primaryjoin_clauses r) r2) = r
    /\ entities w2 !! rel_entity r = Some sd2
    /\ with_constraints (desc_constraints sd)
         (with_columns (desc_columns sd) sd2) = sd.
Proof.
  intros Hready Hpks Hlen.
  pose proof Hready as (_ & _ & _ & _ & _ & Hr1 & Hsd & _).
  rewrite (create_keys_ready _ _ _ _ _ _ _ Hready Hpks Hlen).
  eexists _, _, _. split; [reflexivity|]. simpl.
  split; [done|]. split; [done|].
  split; [by intros j Hj; rewrite list_lookup_insert_ne|].
  split; [by intros e He; rewrite list_lookup_insert_ne|].
  split; [by apply list_lookup_insert_eq; eapply lookup_lt_Some|].
  split; [by destruct r|].
  split; [by apply list_lookup_insert_eq; eapply lookup_lt_Some|].
  by destruct sd.
Qed.

(** X10: [create_keys] adds to the owner one foreign-key constraint over
    the created columns, in the order of the target's primary key, pointing
    to the paths [schema.tablename.key] of the primary-key columns (without
    [schema.] when the target has none).  A constraint name given in
    [constraint_kwargs] is kept; without one the name is
    [CONSTRAINT_NAMEFORMAT] applied to the owner's table name and the
    column names joined by underscores, and it is stored in
    [constraint_kwargs]. *)
Theorem create_keys_constraint
    (w w1 : World) (self : rel_id) (r : Relationship)
    (sd td : EntityDescriptor) (pk : bool) :
  ready_for_keys w w1 self r sd td pk ->
  primary_keys (entities w1) (rel_target r) ≠ [] ->
  (colname r = []
   \/ length (colname r) = length (primary_keys (entities w1) (rel_target r))) ->
  exists (w2 : World) (r2 : Relationship) (sd2 : EntityDescriptor)
         (fkc : ForeignKeyConstraint),
    create_keys w self pk = Ok w2
    /\ rels w2 !! self = Some r2 /\ entities w2 !! rel_entity r = Some sd2
    /\ desc_constraints sd2 = desc_constraints sd ++ [FKConstraint fkc]
    /\ fkc_columns fkc = map col_key (foreign_key r2)
    /\ fkc_refcolumns fkc
       = map (fun pk_col =>
                match schema td with
                | Some s => s +:+ "." +:+ tablename td +:+ "." +:+ col_key pk_col
                | None => tablename td +:+ "." +:+ col_key pk_col
                end) (primary_keys (entities w1) (rel_target r))
    /\ fkc_kwargs fkc = constraint_kwargs r2
    /\ (forall k, k ≠ "name" -> constraint_kwargs r2 !! k = constraint_kwargs r !! k)
    /\ constraint_kwargs r2 !! "name"
       = Some (default
                 (VStr (CONSTRAINT_NAMEFORMAT (tablename sd)
                          (String.concat "_" (map col_key (foreign_key r2)))))
                 (constraint_kwargs r !! "name")).
Proof.
  intros Hready Hpks Hlen.
  pose proof Hready as (_ & _ & _ & _ & _ & Hr1 & Hsd & _).
  rewrite (create_keys_ready _ _ _ _ _ _ _ Hready Hpks Hlen).
  eexists _, _, _, _. split; [reflexivity|]. simpl.
  split; [by apply list_lookup_insert_eq; eapply lookup_lt_Some|].
  split; [by apply list_lookup_insert_eq; eapply lookup_lt_Some|].
  simpl. split; [reflexivity|]. split; [reflexivity|].
  split; [by unfold target_path_of; destruct (schema td)|].
  split; [reflexivity|].
  destruct (constraint_kwargs r !! "name") as [v|] eqn:Hn; simpl.
  - split; [done|]. by rewrite Hn.
  - split; [by intros k Hk; rewrite lookup_insert_ne|].
    by rewrite lookup_insert_eq.
Qed.

(** ** More on the join-clause deriver *)

Lemma leb_trans (a b c : string) :
  String.leb a b = true -> String.leb b c = true -> String.leb a c = true.
Proof.
  unfold String.leb. intros Hab Hbc.
  destruct (String.compare a b) eqn:H1; try discriminate;
    destruct (String.compare b c) eqn:H2; try discriminate.
  - apply String.compare_eq_iff in H1, H2. subst.
    destruct (String.compare c c) eqn:H3; try done.
    pose proof (String.compare_antisym c c) as Ha. rewrite H3 in Ha. discriminate.
  - apply String.compare_eq_iff in H1. subst. by rewrite H2.
  - apply String.compare_eq_iff in H2. subst. by rewrite H1.
  - apply OrderedTypeEx.String_as_OT.cmp_lt in H1, H2.
    pose proof (OrderedTypeEx.String_as_OT.lt_trans _ _ _ H1 H2) as H3.
    apply OrderedTypeEx.String_as_OT.cmp_lt in H3.
    change (String.compare a c = Lt) in H3. by rewrite H3.
Qed.

Lemma leb_false_flip (a b : string) :
  String.leb a b = false -> String.leb b a = true.
Proof. intros H. destruct (String.leb_total a b) as [H'|H']; congruence. Qed.

Lemma insert_sorted_comm (a b : string) (l : list string) :
  insert_sorted a (insert_sorted b l) = insert_sorted b (insert_sorted a l).
Proof.
  induction l as [|x l IH]; simpl.
  - destruct (String.leb a b) eqn:Hab, (String.leb b a) eqn:Hba; try done.
    + by rewrite (String.leb_antisym _ _ Hab Hba).
    + apply leb_false_flip in Hab. congruence.
  - destruct (String.leb b x) eqn:Hbx, (String.leb a x) eqn:Hax; simpl.
    + destruct (String.leb a b) eqn:Hab, (String.leb b a) eqn:Hba;
        rewrite ?Hax, ?Hbx; try done.
      * by rewrite (String.leb_antisym _ _ Hab Hba).
      * apply leb_false_flip in Hab. congruence.
    + destruct (String.leb a b) eqn:Hab.
      * pose proof (leb_trans _ _ _ Hab Hbx). congruence.
      * by rewrite Hax, Hbx.
    + destruct (String.leb b a) eqn:Hba.
      * pose proof (leb_trans _ _ _ Hba Hax). congruence.
      * by rewrite Hax, Hbx.
    + by rewrite Hax, Hbx, IH.
Qed.

Lemma sort_Permutation (l l' : list string) : l ≡ₚ l' -> sort l = sort l'.
Proof.
  unfold sort. induction 1 as [|x l l' _ IH|x y l|l l' l'' _ IH1 _ IH2]; simpl.
  - done.
  - by rewrite IH.
  - apply insert_sorted_comm.
  - congruence.
Qed.

Lemma insert_sorted_length (a : string) (l : list string) :
  length (insert_sorted a l) = S (length l).
Proof.
  induction l as [|x l IH]; simpl; [done|].
  destruct (String.leb a x); simpl; [done|]. by rewrite IH.
Qed.

Lemma sort_length (l : list string) : length (sort l) = length l.
Proof.
  unfold sort. induction l as [|x l IH]; simpl; [done|].
  by rewrite insert_sorted_length, IH.
Qed.

Lemma sort_nil_inv (l : list string) : sort l = [] -> l = [].
Proof.
  intros H. apply (f_equal length) in H. rewrite sort_length in H.
  by destruct l.
Qed.

(** The inner loop: [use_constraint] is whether all elements point to the
    target, [fk_colnames] the keys of the parents of those that do. *)
Lemma scan_elements_spec (target_table : Table) (elements : list ForeignKey) :
  scan_elements target_table elements
  = (forallb (fun fk => references fk target_table) elements,
     map (fun fk => col_key (fk_parent fk))
       (List.filter (fun fk => references fk target_table) elements)).
Proof.
  unfold scan_elements.
  assert (Hgen : forall (b : bool) (acc : list string),
    foldl (fun acc fk =>
             if references fk target_table
             then (acc.1, acc.2 ++ [col_key (fk_parent fk)])
             else (false, acc.2)) (b, acc) elements
    = (b && forallb (fun fk => references fk target_table) elements,
       acc ++ map (fun fk => col_key (fk_parent fk))
                (List.filter (fun fk => references fk target_table) elements))).
  { induction elements as [|fk els IH]; intros b acc; simpl.
    - by rewrite andb_true_r, app_nil_r.
    - destruct (references fk target_table); simpl; rewrite IH.
      + by rewrite <- app_assoc.
      + by rewrite andb_false_r. }
  by rewrite Hgen.
Qed.

(** Every entry of [constraint_map] is a foreign-key constraint of the
    local table all of whose elements point to the target table, under the
    sorted keys of its local columns. *)
Lemma constraint_map_spec (local_table target_table : Table)
    (k : list string) (c : ForeignKeyConstraint) :
  constraint_map local_table target_table !! k = Some c ->
  FKConstraint c ∈ tbl_constraints local_table
  /\ forallb (fun fk => references fk target_table) (fkc_elements c) = true
  /\ k = sort (map (fun fk => col_key (fk_parent fk)) (fkc_elements c)).
Proof.
  unfold constraint_map.
  assert (Hgen : forall (cs : list Constraint)
                        (m0 : gmap (list string) ForeignKeyConstraint),
    foldl (fun m c =>
             match c with
             | FKConstraint fkc =>
                 let scan := scan_elements target_table (fkc_elements fkc) in
                 if scan.1 then <[sort scan.2 := fkc]> m else m
             | OtherConstraint _ => m
             end) m0 cs !! k = Some c ->
    m0 !! k = Some c
    \/ (FKConstraint c ∈ cs
        /\ forallb (fun fk => references fk target_table) (fkc_elements c) = true
        /\ k = sort (map (fun fk => col_key (fk_parent fk)) (fkc_elements c)))).
  { induction cs as [|c0 cs IH]; intros m0 H; simpl in H; [by left|].
    destruct (IH _ H) as [H0|(Hin & Hall & Hk)].
    - destruct c0 as [fkc|?]; [|by left].
      rewrite scan_elements_spec in H0. simpl in H0.
      destruct (forallb _ (fkc_elements fkc)) eqn:Hall; [|by left].
      destruct (decide (sort (map (fun fk => col_key (fk_parent fk))
                                (List.filter (fun fk => references fk target_table)
                                   (fkc_elements fkc))) = k)) as [Hk|Hk].
      + rewrite Hk, lookup_insert_eq in H0. injection H0 as ->.
        right. split; [apply list_elem_of_here|]. split; [done|].
        rewrite <- Hk. do 2 f_equal. clear -Hall.
        induction (fkc_elements c) as [|fk els IHe]; simpl in *; [done|].
        apply andb_prop in Hall as [-> Hall]. by rewrite IHe.
      + rewrite lookup_insert_ne in H0 by done. by left.
    - right. split; [by apply list_elem_of_further|done]. }
  intros H. destruct (Hgen _ _ H) as [H0|H0]; [by rewrite lookup_empty in H0|done].
Qed.

(** A list of pairs with distinct keys has at most the one entry under a
    key. *)
Lemma filter_key_NoDup {A : Type} (k : list string) (l : list (list string * A)) :
  NoDup l.*1 ->
  List.filter (fun item : list string * A => bool_decide (item.1 = k)) l
  = match list_find (fun item : list string * A => item.1 = k) l with
    | Some (_, item) => [item]
    | None => []
    end.
Proof.
  induction l as [|[k0 x] l IH]; intros Hnd; simpl; [done|].
  apply NoDup_cons in Hnd as [Hnotin Hnd]. simpl in *.
  case_bool_decide as Hk; simpl.
  - rewrite decide_True by done. f_equal.
    assert (Hempty : forall l' : list (list string * A),
              k0 ∉ l'.*1 ->
              List.filter (fun item : list string * A => bool_decide (item.1 = k)) l'
              = []).
    { subst k0. clear. induction l' as [|[k1 y] l' IH']; intros Hn; simpl; [done|].
      rewrite bool_decide_eq_false_2.
      - apply IH'. intros Hin. apply Hn. simpl. by apply list_elem_of_further.
      - simpl. intros ->. apply Hn. simpl. apply list_elem_of_here. }
    by apply Hempty.
  - rewrite decide_False by done. rewrite IH by done.
    by destruct (list_find _ l) as [[? ?]|].
Qed.

(** The clauses of the constraint under a key, none when there is no
    such constraint. *)
Lemma clauses_at_key (m : gmap (list string) ForeignKeyConstraint) (k : list string) :
  concat (map (fun item : list string * ForeignKeyConstraint => clauses_of item.2)
            (List.filter
               (fun item : list string * ForeignKeyConstraint =>
                  bool_decide (item.1 = k)) (map_to_list m)))
  = match m !! k with
    | Some c => clauses_of c
    | None => []
    end.
Proof.
  rewrite filter_key_NoDup by apply NoDup_fst_map_to_list.
  destruct (list_find _ (map_to_list m)) as [[i [k' c]]|] eqn:Hf.
  - apply list_find_Some in Hf as (Hi & Hk & _). simpl in Hk. subst k'.
    assert (Hin : (k, c) ∈ map_to_list m) by (apply list_elem_of_lookup; eauto).
    apply elem_of_map_to_list in Hin. rewrite Hin. simpl. by rewrite app_nil_r.
  - destruct (m !! k) as [c|] eqn:Hm; [|done].
    apply elem_of_map_to_list in Hm.
    apply list_find_None in Hf. rewrite Forall_forall in Hf.
    by specialize (Hf _ Hm).
Qed.

Lemma filter_ext_map_to_list (m : gmap (list string) ForeignKeyConstraint)
    (f g : list string * ForeignKeyConstraint -> bool) :
  (forall k c, m !! k = Some c -> f (k, c) = g (k, c)) ->
  List.filter f (map_to_list m) = List.filter g (map_to_list m).
Proof.
  intros H. apply List.filter_ext_in. intros [k c] Hin.
  apply H. apply elem_of_map_to_list. by apply list_elem_of_In.
Qed.

Lemma filter_none_map_to_list (m : gmap (list string) ForeignKeyConstraint)
    (f : list string * ForeignKeyConstraint -> bool) :
  (forall k c, m !! k = Some c -> f (k, c) = false) ->
  List.filter f (map_to_list m) = [].
Proof.
  intros H. rewrite (filter_ext_map_to_list m f (fun _ => false)) by done.
  by induction (map_to_list m).
Qed.

(** [_get_join_clauses] as two selections from [constraint_map]. *)
Lemma get_join_clauses_filters
    (local_table target_table : Table) (local_cols1 : list string)
    (local_cols2 : option (list string)) :
  _get_join_clauses local_table local_cols1 local_cols2 target_table
  = (concat (map (fun item : list string * ForeignKeyConstraint => clauses_of item.2)
               (List.filter
                  (fun item : list string * ForeignKeyConstraint =>
                     goes_primary (constraint_map local_table target_table)
                       (sort local_cols1) (sort <$> local_cols2) item.1)
                  (map_to_list (constraint_map local_table target_table)))),
     concat (map (fun item : list string * ForeignKeyConstraint => clauses_of item.2)
               (List.filter
                  (fun item : list string * ForeignKeyConstraint =>
                     negb (goes_primary (constraint_map local_table target_table)
                             (sort local_cols1) (sort <$> local_cols2) item.1)
                     && goes_secondary (constraint_map local_table target_table)
                          (sort local_cols1) (sort <$> local_cols2) item.1)
                  (map_to_list (constraint_map local_table target_table))))).
Proof. unfold _get_join_clauses. by rewrite foldl_join_step. Qed.

Lemma forallb_filter_id {A : Type} (f : A -> bool) (l : list A) :
  forallb f l = true -> List.filter f l = l.
Proof.
  induction l as [|x l IH]; simpl; [done|].
  intros H. apply andb_prop in H as [-> H]. by rewrite IH.
Qed.

(** One round of the first loop: a constraint all of whose elements point
    to the target enters the dictionary under its sorted local columns. *)
Lemma constraint_map_step (target_table : Table) (fkc : ForeignKeyConstraint)
    (m : gmap (list string) ForeignKeyConstraint) :
  (let scan := scan_elements target_table (fkc_elements fkc) in
   if scan.1 then <[sort scan.2 := fkc]> m else m)
  = if forallb (fun fk => references fk target_table) (fkc_elements fkc)
    then <[sort (map (fun fk => col_key (fk_parent fk)) (fkc_elements fkc)) := fkc]> m
    else m.
Proof.
  rewrite scan_elements_spec. simpl.
  destruct (forallb _ (fkc_elements fkc)) eqn:Hall; [|done].
  by rewrite (forallb_filter_id _ _ Hall).
Qed.

(** The entry of [constraint_map] under a key is the last constraint of
    the local table that points to the target with those local columns. *)
Lemma constraint_map_lookup (local_table target_table : Table)
    (k : list string) (c : ForeignKeyConstraint) :
  constraint_map local_table target_table !! k = Some c <->
  exists pre post,
    tbl_constraints local_table = pre ++ FKConstraint c :: post
    /\ forallb (fun fk => references fk target_table) (fkc_elements c) = true
    /\ sort (map (fun fk => col_key (fk_parent fk)) (fkc_elements c)) = k
    /\ forall c', FKConstraint c' ∈ post ->
         forallb (fun fk => references fk target_table) (fkc_elements c') = true ->
         sort (map (fun fk => col_key (fk_parent fk)) (fkc_elements c')) ≠ k.
Proof.
  unfold constraint_map.
  set (T := fun c : ForeignKeyConstraint =>
              forallb (fun fk => references fk target_table) (fkc_elements c)).
  set (K := fun c : ForeignKeyConstraint =>
              sort (map (fun fk => col_key (fk_parent fk)) (fkc_elements c))).
  set (nolater := fun l : list Constraint =>
                    forall c', FKConstraint c' ∈ l -> T c' = true -> K c' ≠ k).
  assert (Hgen : forall (cs : list Constraint)
                        (m0 : gmap (list string) ForeignKeyConstraint),
    foldl (fun m c =>
             match c with
             | FKConstraint fkc =>
                 let scan := scan_elements target_table (fkc_elements fkc) in
                 if scan.1 then <[sort scan.2 := fkc]> m else m
             | OtherConstraint _ => m
             end) m0 cs !! k = Some c <->
    (exists pre post, cs = pre ++ FKConstraint c :: post
                      /\ T c = true /\ K c = k /\ nolater post)
    \/ (m0 !! k = Some c /\ nolater cs)).
  { induction cs as [|c0 cs IH]; intros m0.
    - simpl. split.
      + intros H. right. split; [done|]. intros c' Hin. by apply elem_of_nil in Hin.
      + intros [(pre & post & Hnil & _)|[H _]]; [by destruct pre|done].
    - simpl. rewrite IH. clear IH.
      assert (Hsplit :
        (exists pre post, c0 :: cs = pre ++ FKConstraint c :: post
                          /\ T c = true /\ K c = k /\ nolater post)
        <-> (exists pre post, cs = pre ++ FKConstraint c :: post
                              /\ T c = true /\ K c = k /\ nolater post)
            \/ (c0 = FKConstraint c /\ T c = true /\ K c = k /\ nolater cs)).
      { split.
        - intros (pre & post & Heq & HT & HK & Hno). destruct pre as [|x pre].
          + simpl in Heq. injection Heq as -> ->. by right.
          + simpl in Heq. injection Heq as -> ->. left. by exists pre, post.
        - intros [(pre & post & -> & HT & HK & Hno)|(-> & HT & HK & Hno)].
          + by exists (c0 :: pre), post.
          + by exists [], cs. }
      assert (Hno : nolater (c0 :: cs)
                    <-> (forall c', c0 = FKConstraint c' -> T c' = true -> K c' ≠ k)
                        /\ nolater cs).
      { unfold nolater. split.
        - intros H. split.
          + intros c' -> HT. apply H; [apply list_elem_of_here|done].
          + intros c' Hin. apply H. by apply list_elem_of_further.
        - intros [H0 H] c' Hin. apply elem_of_cons in Hin as [Heq|Hin].
          + by apply H0.
          + by apply H. }
      rewrite Hsplit, Hno. clear Hsplit Hno.
      destruct c0 as [fkc|name].
      + rewrite constraint_map_step. fold (T fkc) (K fkc).
        destruct (T fkc) eqn:HT.
        * destruct (decide (K fkc = k)) as [HK|HK].
          -- rewrite <- HK, lookup_insert_eq. split.
             ++ intros [H|[[= <-] Hn]]; [left; by left|].
                left. right. rewrite HK. repeat split; done.
             ++ intros [[H|([= <-] & _ & _ & Hn)]|[_ [H0 _]]].
                ** by left.
                ** right. by split.
                ** exfalso. by apply (H0 fkc eq_refl).
          -- rewrite lookup_insert_ne by done. split.
             ++ intros [H|[Hm Hn]]; [left; by left|].
                right. split; [done|]. split; [|done].
                intros c' [= <-] _. done.
             ++ intros [[H|([= <-] & _ & HK' & _)]|[Hm [_ Hn]]];
                  [by left|done|by right].
        * split.
          -- intros [H|[Hm Hn]]; [left; by left|].
             right. split; [done|]. split; [|done].
             intros c' [= <-] HT'. congruence.
          -- intros [[H|([= <-] & HT' & _)]|[Hm [_ Hn]]];
               [by left|congruence|by right].
      + split.
        * intros [H|[Hm Hn]]; [left; by left|].
          right. split; [done|]. split; [|done]. intros c' [=].
        * intros [[H|([=] & _)]|[Hm [_ Hn]]]; [by left|by right]. }
  rewrite Hgen. split.
  - intros [H|[H _]]; [done|by rewrite lookup_empty in H].
  - intros H. by left.
Qed.

(** The two tests of the final loop, as propositions. *)
Lemma goes_primary_true (m : gmap (list string) ForeignKeyConstraint)
    (cols1 : list string) (cols2 : option (list string)) (k : list string) :
  goes_primary m cols1 cols2 k = true <->
  k = cols1
  \/ (Some k ≠ cols2 /\ cols1 = []
      /\ (cols2 = None \/ exists k2, cols2 = Some k2 /\ is_Some (m !! k2))).
Proof.
  unfold goes_primary, in_map, nonempty.
  rewrite orb_true_iff, !andb_true_iff, orb_true_iff, negb_true_iff,
    !bool_decide_eq_true.
  assert (H1 : match cols1 with [] => false | _ :: _ => true end = false
               <-> cols1 = []) by (by destruct cols1).
  assert (H2 : match cols2 with
               | Some c => bool_decide (is_Some (m !! c))
               | None => false
               end = true
               <-> exists k2, cols2 = Some k2 /\ is_Some (m !! k2)).
  { destruct cols2 as [c2|].
    - rewrite bool_decide_eq_true. split; [by eauto|].
      by intros (k2 & [= <-] & H).
    - split; [done|]. by intros (k2 & [=] & _). }
  rewrite H1, H2. tauto.
Qed.

Lemma goes_secondary_true (m : gmap (list string) ForeignKeyConstraint)
    (cols1 : list string) (cols2 : option (list string)) (k : list string) :
  goes_secondary m cols1 cols2 k = true <->
  Some k = cols2 \/ (cols2 = Some [] /\ is_Some (m !! cols1)).
Proof.
  unfold goes_secondary.
  by rewrite orb_true_iff, andb_true_iff, !bool_decide_eq_true.
Qed.

Lemma filter_items_NoDup {A : Type} (f : list string * A -> bool)
    (l : list (list string * A)) :
  NoDup l.*1 -> NoDup (List.filter f l).*1.
Proof.
  induction l as [|[k x] l IH]; simpl; [done|].
  intros Hnd. apply NoDup_cons in Hnd as [Hnotin Hnd].
  destruct (f (k, x)); simpl; [|by apply IH].
  apply NoDup_cons. split; [|by apply IH].
  intros Hin. apply Hnotin.
  apply list_elem_of_fmap in Hin as ([k' x'] & -> & Hin). simpl.
  apply list_elem_of_In, filter_In in Hin as [Hin _].
  apply list_elem_of_fmap. exists (k', x'). split; [done|]. by apply list_elem_of_In.
Qed.

Lemma elem_of_filter_map_to_list (m : gmap (list string) ForeignKeyConstraint)
    (f : list string * ForeignKeyConstraint -> bool)
    (k : list string) (c : ForeignKeyConstraint) :
  (k, c) ∈ List.filter f (map_to_list m) <-> m !! k = Some c /\ f (k, c) = true.
Proof.
  rewrite list_elem_of_In, filter_In, <- list_elem_of_In, elem_of_map_to_list.
  done.
Qed.

(** C6 (amended): the join-clause deriver has no ambiguity error: it
    always returns its two joins.  It keeps the foreign-key constraints of
    the local table all of whose elements point to the target table, one
    for each set of local columns, the last of them in the table when
    several have the same local columns.  Each kept constraint is visited
    once.  It goes to the primary join when its columns are the first list,
    or when the first list is empty, its columns are not the second list,
    and the second list is absent or the columns of a kept constraint.
    Otherwise it goes to the secondary join when its columns are the second
    list, or when the second list is empty and the first list is the
    columns of a kept constraint.  Otherwise it is left out.  A join is
    made of the clauses of all the constraints that go to it: when several
    do, because no explicit column list tells them apart, the join holds
    the clauses of all of them. *)
Theorem join_clauses_take_every_constraint
    (local_table target_table : Table) (local_cols1 : list string)
    (local_cols2 : option (list string)) :
  let m := constraint_map local_table target_table in
  let cols1 := sort local_cols1 in
  let cols2 := sort <$> local_cols2 in
  let to_target := fun c : ForeignKeyConstraint =>
    forallb (fun fk => references fk target_table) (fkc_elements c) in
  let columns_of := fun c : ForeignKeyConstraint =>
    sort (map (fun fk => col_key (fk_parent fk)) (fkc_elements c)) in
  let primary := fun k : list string =>
    k = cols1
    \/ (Some k ≠ cols2 /\ cols1 = []
        /\ (cols2 = None \/ exists k2, cols2 = Some k2 /\ is_Some (m !! k2))) in
  let secondary := fun k : list string =>
    Some k = cols2 \/ (cols2 = Some [] /\ is_Some (m !! cols1)) in
  (forall k c,
     m !! k = Some c <->
     exists pre post,
       tbl_constraints local_table = pre ++ FKConstraint c :: post
       /\ to_target c = true /\ columns_of c = k
       /\ forall c', FKConstraint c' ∈ post -> to_target c' = true ->
                     columns_of c' ≠ k)
  /\ exists items1 items2 : list (list string * ForeignKeyConstraint),
       _get_join_clauses local_table local_cols1 local_cols2 target_table
       = (concat (map (fun item => clauses_of item.2) items1),
          concat (map (fun item => clauses_of item.2) items2))
       /\ NoDup items1.*1 /\ NoDup items2.*1
       /\ (forall k c, (k, c) ∈ items1 <-> m !! k = Some c /\ primary k)
       /\ (forall k c, (k, c) ∈ items2 <->
                       m !! k = Some c /\ ~ primary k /\ secondary k).
Proof.
  intros m cols1 cols2 to_target columns_of primary secondary. split.
  - intros k c. apply constraint_map_lookup.
  - eexists _, _. split; [apply get_join_clauses_filters|].
    fold m cols1 cols2.
    split; [apply filter_items_NoDup, NoDup_fst_map_to_list|].
    split; [apply filter_items_NoDup, NoDup_fst_map_to_list|].
    split; intros k c; rewrite elem_of_filter_map_to_list; simpl.
    + by rewrite goes_primary_true.
    + rewrite andb_true_iff, negb_true_iff, goes_secondary_true.
      rewrite <- not_true_iff_false, goes_primary_true. done.
Qed.

Lemma goes_primary_explicit (m : gmap (list string) ForeignKeyConstraint)
    (cols1 : list string) (cols2 : option (list string)) (k : list string) :
  cols1 ≠ [] -> goes_primary m cols1 cols2 k = bool_decide (k = cols1).
Proof.
  intros Hne. unfold goes_primary. destruct cols1; [done|]. simpl.
  by destruct (bool_decide (k = s :: cols1)), (bool_decide (Some k ≠ cols2)).
Qed.

Lemma sort_nonempty (l : list string) : l ≠ [] -> sort l ≠ [].
Proof. intros Hne Hs. by apply sort_nil_inv in Hs. Qed.

(** With an explicit first list the primary join is the constraint on
    exactly those columns. *)
Lemma primary_join_explicit
    (local_table target_table : Table) (local_cols1 : list string)
    (local_cols2 : option (list string)) :
  local_cols1 ≠ [] ->
  (_get_join_clauses local_table local_cols1 local_cols2 target_table).1
  = match constraint_map local_table target_table !! sort local_cols1 with
    | Some c => clauses_of c
    | None => []
    end.
Proof.
  intros Hne. rewrite get_join_clauses_filters. simpl.
  rewrite <- clauses_at_key. do 2 f_equal. apply filter_ext_map_to_list.
  intros k c _. simpl. by apply goes_primary_explicit, sort_nonempty.
Qed.

(** X11: with an explicit list of local columns and no second list (the
    call of [ManyToOne.create_keys]), the primary join is made of the
    clauses of the one foreign-key constraint to the target table whose
    local columns are exactly the given ones, whatever their order; it is
    empty when there is no such constraint, and the secondary join is
    always empty. *)
Theorem join_clauses_exact_match
    (local_table target_table : Table) (local_cols1 : list string) :
  local_cols1 ≠ [] ->
  _get_join_clauses local_table local_cols1 None target_table
  = (match constraint_map local_table target_table !! sort local_cols1 with
     | Some c => clauses_of c
     | None => []
     end, []).
Proof.
  intros Hne. rewrite get_join_clauses_filters. f_equal.
  - rewrite <- clauses_at_key. do 2 f_equal. apply filter_ext_map_to_list.
    intros k c _. simpl. by apply goes_primary_explicit, sort_nonempty.
  - rewrite filter_none_map_to_list; [done|].
    intros k c _. unfold goes_secondary. simpl. apply andb_false_r.
Qed.

(** X12: with explicit lists for both sides (a self-referential
    many-to-many with [local_side] and [remote_side]), the primary join
    comes from the constraint on the local columns and the secondary join
    from the constraint on the remote columns; when both lists name the
    same columns the constraint goes to the primary join and the secondary
    join is empty. *)
Theorem join_clauses_two_sides
    (local_table target_table : Table) (local_cols1 local_cols2 : list string) :
  local_cols1 ≠ [] -> local_cols2 ≠ [] ->
  let m := constraint_map local_table target_table in
  _get_join_clauses local_table local_cols1 (Some local_cols2) target_table
  = (match m !! sort local_cols1 with
     | Some c => clauses_of c
     | None => []
     end,
     if decide (sort local_cols1 = sort local_cols2) then []
     else match m !! sort local_cols2 with
          | Some c => clauses_of c
          | None => []
          end).
Proof.
  intros Hne1 Hne2 m. rewrite get_join_clauses_filters. fold m.
  pose proof (sort_nonempty _ Hne1) as Hs1.
  pose proof (sort_nonempty _ Hne2) as Hs2.
  assert (Hsec : forall k,
             goes_secondary m (sort local_cols1) (Some (sort local_cols2)) k
             = bool_decide (k = sort local_cols2)).
  { intros k. unfold goes_secondary.
    rewrite (bool_decide_eq_false_2 (Some (sort local_cols2) = Some [])) by congruence.
    simpl. rewrite orb_false_r. apply bool_decide_ext. split; congruence. }
  f_equal.
  - rewrite <- clauses_at_key. do 2 f_equal. apply filter_ext_map_to_list.
    intros k c _. simpl. by apply goes_primary_explicit.
  - destruct (decide (sort local_cols1 = sort local_cols2)) as [Heq|Hneq].
    + rewrite filter_none_map_to_list; [done|].
      intros k c _. simpl. rewrite goes_primary_explicit, Hsec, Heq by done.
      by destruct (bool_decide (k = sort local_cols2)).
    + rewrite <- clauses_at_key. do 2 f_equal. apply filter_ext_map_to_list.
      intros k c _. simpl. rewrite goes_primary_explicit, Hsec by done.
      case_bool_decide as H1; case_bool_decide as H2; simpl; congruence.
Qed.

(** X13: the order in which the column names are given does not matter:
    two lists with the same names give the same joins. *)
Theorem join_clauses_order_insensitive
    (local_table target_table : Table)
    (local_cols1 local_cols1' local_cols2 local_cols2' : list string) :
  local_cols1 ≡ₚ local_cols1' -> local_cols2 ≡ₚ local_cols2' ->
  _get_join_clauses local_table local_cols1 (Some local_cols2) target_table
  = _get_join_clauses local_table local_cols1' (Some local_cols2') target_table
  /\ _get_join_clauses local_table local_cols1 None target_table
     = _get_join_clauses local_table local_cols1' None target_table.
Proof.
  intros H1 H2. unfold _get_join_clauses. simpl.
  by rewrite (sort_Permutation _ _ H1), (sort_Permutation _ _ H2).
Qed.

(** X14: every clause the deriver returns is [fk.parent == fk.column] for
    an element [fk] of a foreign-key constraint of the local table all of
    whose elements point to the target table: a constraint with an element
    pointing elsewhere never contributes. *)
Theorem join_clauses_come_from_the_target
    (local_table target_table : Table) (local_cols1 : list string)
    (local_cols2 : option (list string)) (cl : Clause) :
  cl ∈ (_get_join_clauses local_table local_cols1 local_cols2 target_table).1
       ++ (_get_join_clauses local_table local_cols1 local_cols2 target_table).2 ->
  exists (c : ForeignKeyConstraint) (fk : ForeignKey),
    FKConstraint c ∈ tbl_constraints local_table
    /\ fk ∈ fkc_elements c
    /\ cl = ClauseEq (fk_parent fk) (fk_column fk)
    /\ forall fk', fk' ∈ fkc_elements c -> references fk' target_table = true.
Proof.
  rewrite get_join_clauses_filters. simpl. intros Hin.
  assert (Hsrc : forall f : list string * ForeignKeyConstraint -> bool,
    cl ∈ concat (map (fun item : list string * ForeignKeyConstraint =>
                        clauses_of item.2)
                   (List.filter f
                      (map_to_list (constraint_map local_table target_table)))) ->
    exists k c, constraint_map local_table target_table !! k = Some c
                /\ cl ∈ clauses_of c).
  { intros f H. apply list_elem_of_In, in_concat in H as (cls & Hcls & Hcl).
    apply in_map_iff in Hcls as ([k c] & <- & Hkc).
    apply filter_In in Hkc as [Hkc _].
    apply list_elem_of_In, elem_of_map_to_list in Hkc.
    exists k, c. split; [done|]. by apply list_elem_of_In. }
  assert (Hex : exists k c, constraint_map local_table target_table !! k = Some c
                            /\ cl ∈ clauses_of c).
  { apply elem_of_app in Hin as [Hin|Hin]; eapply Hsrc; exact Hin. }
  destruct Hex as (k & c & Hm & Hcl).
  apply constraint_map_spec in Hm as (Hc & Hall & _).
  apply list_elem_of_fmap in Hcl as (fk & -> & Hfk).
  exists c, fk. repeat split; try done.
  intros fk' Hfk'. rewrite forallb_forall in Hall. apply Hall.
  by apply list_elem_of_In.
Qed.

(** X15: when only the second list is given (a self-referential
    many-to-many with [remote_side] alone) and it names no foreign key of
    the local table, both joins come out empty, without an error. *)
Theorem join_clauses_unknown_remote
    (local_table target_table : Table) (local_cols2 : list string) :
  local_cols2 ≠ [] ->
  constraint_map local_table target_table !! sort local_cols2 = None ->
  _get_join_clauses local_table [] (Some local_cols2) target_table = ([], []).
Proof.
  intros Hne Hm. rewrite get_join_clauses_filters. simpl.
  pose proof (sort_nonempty _ Hne) as Hs2.
  assert (Hp : forall k,
             goes_primary (constraint_map local_table target_table) []
               (Some (sort local_cols2)) k = bool_decide (k = [])).
  { intros k. unfold goes_primary, in_map. simpl.
    rewrite (bool_decide_eq_false_2 (is_Some _)) by (rewrite Hm; by intros [? ?]).
    simpl. repeat case_bool_decide; simpl; congruence. }
  f_equal.
  - transitivity (match constraint_map local_table target_table !! [] with
                  | Some c => clauses_of c
                  | None => []
                  end).
    + rewrite <- clauses_at_key. do 2 f_equal. apply filter_ext_map_to_list.
      intros k c _. simpl. rewrite Hp. by apply bool_decide_ext.
    + destruct (constraint_map local_table target_table !! []) as [c|] eqn:Hc;
        [|done].
      apply constraint_map_spec in Hc as (_ & _ & Hk). symmetry in Hk.
      apply sort_nil_inv in Hk. unfold clauses_of.
      by destruct (fkc_elements c).
  - rewrite filter_none_map_to_list; [done|].
    intros k c Hkc. simpl. rewrite Hp. unfold goes_secondary.
    rewrite (bool_decide_eq_false_2 (Some (sort local_cols2) = Some [])) by congruence.
    simpl. rewrite orb_false_r.
    rewrite (bool_decide_eq_false_2 (Some k = Some (sort local_cols2)));
      [apply andb_false_r|].
    intros [= ->]. congruence.
Qed.

(** X16: on an autoloaded owner with a [colname], [create_keys] creates
    nothing and looks for the foreign-key constraint of the owner's table
    on exactly the [colname] columns, pointing to the target's table: its
    clauses become [primaryjoin_clauses]; when there is none (or one
    without columns) it fails with the error on the missing foreign key. *)
Theorem reflected_keys_from_constraint
    (w w1 : World) (self : rel_id) (r : Relationship)
    (sd td : EntityDescriptor) (etable ttable : Table) (pk : bool) :
  rels w !! self = Some r -> rel_kind r = ManyToOne ->
  foreign_key r = [] ->
  default (VBool false) (column_kwargs r !! "primary_key") = VBool pk ->
  create_pk_cols w (rel_target r) = Ok w1 ->
  rels w1 !! self = Some r ->
  entities w1 !! rel_entity r = Some sd -> autoload sd = true ->
  table sd = Some etable ->
  entities w1 !! rel_target r = Some td -> table td = Some ttable ->
  colname r ≠ [] ->
  create_keys w self pk
  = match constraint_map etable ttable !! sort (colname r) with
    | Some c =>
        if nonempty (fkc_elements c)
        then Ok (upd_rel w1 self (set_foreign_key [] (clauses_of c) r))
        else Error ReflectionMismatch
    | None => Error ReflectionMismatch
    end.
Proof.
  intros Hr Hk Hfk Hpass Hpk Hr1 Hsd Hauto Het Htd Htt Hcn.
  unfold create_keys. rewrite (proj2 (get_rel_Ok _ _ _) Hr). simpl. rewrite Hk.
  unfold ManyToOne_create_keys.
  rewrite (proj2 (get_rel_Ok _ _ _) Hr). simpl. rewrite Hfk. simpl.
  rewrite Hpass. rewrite bool_decide_eq_false_2 by (intros Hc; by apply Hc).
  rewrite Hpk. simpl.
  rewrite (proj2 (get_rel_Ok _ _ _) Hr1). simpl.
  rewrite (proj2 (get_desc_Ok _ _ _) Hsd), (proj2 (get_desc_Ok _ _ _) Htd).
  simpl. rewrite Hauto.
  assert (nonempty (colname r) = true) as -> by (by destruct (colname r)).
  unfold entity_table. rewrite Het, Htt. simpl.
  rewrite primary_join_explicit by done. rewrite Hfk.
  destruct (constraint_map etable ttable !! sort (colname r)) as [c|]; [|done].
  unfold clauses_of. by destruct (fkc_elements c).
Qed.

(** ** More on bridge tables *)

(** The ways [ManyToMany.create_tables] succeeds: the table was set
    already, the table of the inverse is adopted, or a table is made. *)
Lemma create_tables_cases (w w1 : World) (a : rel_id) (ra : Relationship) :
  rels w !! a = Some ra -> rel_kind ra = ManyToMany ->
  create_tables w a = Ok w1 ->
  (is_Some (secondary_table ra) /\ w1 = w)
  \/ (secondary_table ra = None
      /\ exists (w0 : World) (inv_id : option rel_id) (ra0 : Relationship),
           inverse w a = Ok (w0, inv_id) /\ rels w0 !! a = Some ra0
           /\ set__inverse None ra0 = set__inverse None ra
           /\ ((exists (ri : Relationship) (t : table_id),
                  inv_id ≫= (fun i => rels w0 !! i) = Some ri
                  /\ secondary_table ri = Some t
                  /\ w1 = upd_rel w0 a
                            (set_secondary (Some t) (secondaryjoin_clauses ri)
                               (primaryjoin_clauses ri) ra0))
               \/ ((inv_id ≫= (fun i => rels w0 !! i)) ≫= secondary_table = None
                   /\ make_secondary w0 a ra0 (inv_id ≫= fun i => rels w0 !! i)
                      = Ok w1))).
Proof.
  intros Hra Hk H. unfold create_tables in H.
  rewrite (proj2 (get_rel_Ok _ _ _) Hra) in H. simpl in H. rewrite Hk in H.
  unfold ManyToMany_create_tables in H.
  rewrite (proj2 (get_rel_Ok _ _ _) Hra) in H. simpl in H.
  destruct (secondary_table ra) as [t|] eqn:Hsec.
  { left. split; [eauto|]. by simplify_eq. }
  right. split; [done|].
  inv_bind H as res Hinv. destruct res as [w0 inv_id].
  inv_bind H as ra0 Hra0. apply get_rel_Ok in Hra0.
  inv_bind H as inv Hi.
  exists w0, inv_id, ra0. split; [done|]. split; [done|]. split.
  { destruct (inverse_lookup_erased _ _ _ _ _ _ Hinv Hra) as (ra0' & Hra0' & He).
    congruence. }
  assert (Hinv' : inv = inv_id ≫= fun i => rels w0 !! i).
  { destruct inv_id as [i|]; simpl in *; [|by simplify_eq].
    inv_bind Hi as ri Hri. apply get_rel_Ok in Hri. by simplify_eq. }
  rewrite <- Hinv'. clear Hi Hinv'.
  destruct inv as [ri|]; simpl in *; [|by right].
  destruct (secondary_table ri) as [t|] eqn:Ht.
  - left. exists ri, t. repeat split; try done. by simplify_eq.
  - by right.
Qed.

(** What [make_secondary] ends with, with the descriptors it read. *)
Lemma make_secondary_named (w w1 : World) (self : rel_id) (r : Relationship)
    (inv : option Relationship) :
  rels w !! self = Some r ->
  make_secondary w self r inv = Ok w1 ->
  exists (d1 d2 : EntityDescriptor) (t : Table) (pj sj : list Clause),
    entities w !! rel_entity r = Some d1 /\ entities w !! rel_target r = Some d2
    /\ w1 = upd_rel (new_table w t).1 self
              (set_secondary (Some (length (metadata w))) pj sj r)
    /\ tbl_name t = bridge_tablename r d1 d2 inv
    /\ (autoload d1 = false ->
        t = (bridge_table_of w r d1 d2 inv).1.1
        /\ pj = primaryjoin_clauses r ++ (bridge_table_of w r d1 d2 inv).1.2
        /\ sj = secondaryjoin_clauses r ++ (bridge_table_of w r d1 d2 inv).2)
    /\ (is_selfref r = false -> pj = primaryjoin_clauses r
                                /\ sj = secondaryjoin_clauses r).
Proof.
  intros Hr H. pose proof H as H0. unfold make_secondary in H0.
  inv_bind H0 as d1 Hd1. inv_bind H0 as d2 Hd2.
  pose proof Hd1 as Hd1'. pose proof Hd2 as Hd2'.
  apply get_desc_Ok in Hd1', Hd2'.
  exists d1, d2. destruct (autoload d1) eqn:Hauto.
  - unfold _reflect_table in H0.
    rewrite (proj2 (get_rel_Ok _ _ _) Hr) in H0. simpl in H0.
    rewrite Hd1, Hd2 in H0. simpl in H0.
    destruct (autoload d2); simpl in H0; [|discriminate].
    unfold reflect_table in H0.
    destruct (database w !! _) as [[cols cstrs]|]; simpl in H0; [|discriminate].
    destruct (is_selfref r) eqn:Hself.
    + destruct (negb (nonempty (local_side r)) && negb (nonempty (remote_side r)));
        [discriminate|].
      inv_bind H0 as tbl Htbl. inv_bind H0 as etable Hetable.
      injection H0 as <-. eexists _, _, _. do 2 (split; [done|]).
      split; [reflexivity|]. split; [reflexivity|]. split; discriminate.
    + injection H0 as <-. eexists _, _, _. do 2 (split; [done|]).
      split; [reflexivity|]. split; [reflexivity|]. split; [discriminate|done].
  - injection H0 as <-. eexists _, _, _. do 2 (split; [done|]).
    split; [reflexivity|]. split; [reflexivity|]. split; [done|].
    intros Hself. unfold bridge_table_of, m2m_side. simpl. rewrite Hself.
    by rewrite !app_nil_r.
Qed.

(** X17: [create_tables] runs once: after a successful run the
    relationship refers to a table, and a second run returns the store as
    it is. *)
Theorem create_tables_once (w w1 : World) (a : rel_id) (ra : Relationship) :
  rels w !! a = Some ra -> rel_kind ra = ManyToMany ->
  create_tables w a = Ok w1 ->
  (exists (ra1 : Relationship) (t : table_id),
     rels w1 !! a = Some ra1 /\ secondary_table ra1 = Some t)
  /\ create_tables w1 a = Ok w1.
Proof.
  intros Hra Hk H.
  assert (Hset : exists (ra1 : Relationship) (t : table_id),
             rels w1 !! a = Some ra1 /\ secondary_table ra1 = Some t
             /\ rel_kind ra1 = ManyToMany).
  { destruct (create_tables_cases _ _ _ _ Hra Hk H)
      as [[[t Ht] ->]|(Hsec & w0 & inv_id & ra0 & Hinv & Hra0 & He & Hcase)].
    - eauto.
    - assert (Hk0 : rel_kind ra0 = ManyToMany).
      { rewrite <- Hk. exact (f_equal rel_kind He). }
      destruct Hcase as [(ri & t & _ & _ & ->)|[_ Hmake]].
      + eexists _, t. split; [by erewrite upd_rel_lookup_eq|]. by split.
      + destruct (make_secondary_shape _ _ _ _ _ Hra0 Hmake) as (t & pj & sj & ->).
        eexists _, _. split; [by erewrite upd_rel_lookup_eq|]. by split. }
  destruct Hset as (ra1 & t & Hra1 & Ht & Hk1). split; [eauto|].
  unfold create_tables. rewrite (proj2 (get_rel_Ok _ _ _) Hra1). simpl.
  rewrite Hk1. unfold ManyToMany_create_tables.
  rewrite (proj2 (get_rel_Ok _ _ _) Hra1). simpl. by rewrite Ht.
Qed.

(** X18: a table name given with [tablename] is the name of the bridge
    table the relationship makes or reflects, whatever the entities and the
    inverse are called. *)
Theorem user_tablename_is_used
    (w w1 : World) (a : rel_id) (ra : Relationship) (name : string) :
  rels w !! a = Some ra -> rel_kind ra = ManyToMany ->
  secondary_table ra = None ->
  user_tablename ra = Some name -> name ≠ "" ->
  create_tables w a = Ok w1 ->
  metadata w1 = metadata w
  \/ exists t : Table, metadata w1 = metadata w ++ [t] /\ tbl_name t = name.
Proof.
  intros Hra Hk Hsec Hname Hne H.
  destruct (create_tables_cases _ _ _ _ Hra Hk H)
    as [[[t Ht] _]|(_ & w0 & inv_id & ra0 & Hinv & Hra0 & He & Hcase)].
  { congruence. }
  destruct (inverse_frame _ _ _ _ Hinv) as (_ & Hmeta & _ & _).
  destruct Hcase as [(ri & t & _ & _ & ->)|[_ Hmake]].
  - left. simpl. done.
  - right.
    destruct (make_secondary_named _ _ _ _ _ Hra0 Hmake)
      as (d1 & d2 & t & pj & sj & _ & _ & -> & Hn & _).
    exists t. split; [by simpl; rewrite Hmeta|].
    rewrite Hn. unfold bridge_tablename.
    destruct (erased_fields _ _ He) as (_ & _ & _ & -> & _). rewrite Hname. simpl.
    by rewrite (proj2 (String.eqb_neq _ _) Hne).
Qed.

Lemma erased_m2m_fields (r r' : Relationship) :
  set__inverse None r = set__inverse None r' ->
  primaryjoin_clauses r = primaryjoin_clauses r'
  /\ secondaryjoin_clauses r = secondaryjoin_clauses r'
  /\ local_side r = local_side r' /\ remote_side r = remote_side r'
  /\ is_selfref r = is_selfref r'.
Proof.
  intros H. repeat split.
  - exact (f_equal primaryjoin_clauses H).
  - exact (f_equal secondaryjoin_clauses H).
  - exact (f_equal local_side H).
  - exact (f_equal remote_side H).
  - unfold is_selfref.
    by rewrite (f_equal rel_entity H : rel_entity r = rel_entity r'),
      (f_equal rel_target H : rel_target r = rel_target r').
Qed.

Lemma append_last_neq (a b : Ascii.ascii) (s s' : string) :
  a ≠ b -> s +:+ String a "" ≠ s' +:+ String b "".
Proof.
  intros Hab. revert s'. induction s as [|c s IH]; intros [|c' s']; simpl.
  - by intros [= H].
  - intros [= _ H]. by destruct s'.
  - intros [= _ H]. by destruct s.
  - intros [= _ H]. by apply (IH s').
Qed.

(** X19: a many-to-many without inverse and without [tablename] gets a
    bridge table named after its own table and name and the table of the
    target only, and the two foreign-key constraints of the table get
    different names, ending in [_fk] and [_inverse_fk]. *)
Theorem bridge_table_without_inverse
    (w w0 : World) (a : rel_id) (ra : Relationship) (d1 d2 : EntityDescriptor) :
  rels w !! a = Some ra -> rel_kind ra = ManyToMany ->
  secondary_table ra = None -> truthy (user_tablename ra) = false ->
  inverse w a = Ok (w0, None) ->
  entities w !! rel_entity ra = Some d1 -> autoload d1 = false ->
  entities w !! rel_target ra = Some d2 ->
  exists (w1 : World) (t : Table) (c0 c1 : ForeignKeyConstraint) (n0 n1 : string),
    create_tables w a = Ok w1
    /\ metadata w1 = metadata w ++ [t]
    /\ tbl_name t = source_part_of d1 ra +:+ "__" +:+ tablename d2
    /\ tbl_constraints t = [FKConstraint c0; FKConstraint c1]
    /\ fkc_kwargs c0 !! "name" = Some (VStr n0)
    /\ fkc_kwargs c1 !! "name" = Some (VStr n1)
    /\ n0 = source_part_of d1 ra +:+ "_fk"
    /\ n1 = source_part_of d1 ra +:+ "_inverse_fk"
    /\ n0 ≠ n1.
Proof.
  intros Hra Hk Hsec Huser Hinv Hd1 Hauto Hd2.
  destruct (create_tables_makes _ _ _ _ _ Hra Hk Hsec Hinv)
    as (ra0 & Hra0 & He & ->); [done|].
  destruct (inverse_frame _ _ _ _ Hinv) as (Hents & Hmeta & _ & _).
  destruct (erased_fields _ _ He) as (Hent & Htgt & Hn & Hu & _).
  unfold make_secondary, get_desc. rewrite Hents, Hent, Htgt, Hd1, Hd2. simpl.
  rewrite Hauto. eexists _, _, _, _, _, _. split; [reflexivity|]. simpl.
  rewrite Hmeta. split; [reflexivity|]. split.
  { unfold bridge_tablename. rewrite Hu, Huser. simpl.
    unfold source_part_of. by rewrite Hn. }
  split; [reflexivity|]. simpl.
  split; [by rewrite lookup_insert_eq|]. split; [by rewrite lookup_insert_eq|].
  split; [by unfold source_part_of; rewrite Hn|].
  split; [by unfold source_part_of; rewrite Hn|].
  intros Heq. apply (inj (String.append _)) in Heq. discriminate.
Qed.

(** X20: for a self-referential many-to-many that is not autoloaded, the
    columns of the two sides of the bridge table are told apart by the
    suffixes 1 and 2: no column of the first side has the name of a column
    of the second side; and the join lists get one clause per primary-key
    column, pairing the columns of the first side (primary join) and of the
    second side (secondary join) with the primary-key columns. *)
Theorem selfref_bridge_columns_and_joins
    (w w0 : World) (a : rel_id) (ra : Relationship) (inv_id : option rel_id)
    (d : EntityDescriptor) :
  rels w !! a = Some ra -> rel_kind ra = ManyToMany ->
  secondary_table ra = None ->
  rel_entity ra = rel_target ra ->
  inverse w a = Ok (w0, inv_id) ->
  (forall i, inv_id = Some i ->
             exists ri, rels w0 !! i = Some ri /\ secondary_table ri = None) ->
  entities w !! rel_entity ra = Some d -> autoload d = false ->
  exists (w1 : World) (t : Table) (ra1 : Relationship) (cols0 cols1 : list Column),
    create_tables w a = Ok w1
    /\ metadata w1 = metadata w ++ [t] /\ rels w1 !! a = Some ra1
    /\ tbl_columns t = cols0 ++ cols1
    /\ (forall c0 c1, c0 ∈ cols0 -> c1 ∈ cols1 -> col_key c0 ≠ col_key c1)
    /\ primaryjoin_clauses ra1
       = primaryjoin_clauses ra
         ++ zip_with ClauseEq cols0 (primary_keys (entities w) (rel_entity ra))
    /\ secondaryjoin_clauses ra1
       = secondaryjoin_clauses ra
         ++ zip_with ClauseEq cols1 (primary_keys (entities w) (rel_entity ra))
    /\ length cols0 = length (primary_keys (entities w) (rel_entity ra))
    /\ length cols1 = length (primary_keys (entities w) (rel_entity ra)).
Proof.
  intros Hra Hk Hsec Hself Hinv Hnone Hd Hauto.
  destruct (create_tables_makes _ _ _ _ _ Hra Hk Hsec Hinv Hnone)
    as (ra0 & Hra0 & He & ->).
  destruct (inverse_frame _ _ _ _ Hinv) as (Hents & Hmeta & _ & _).
  destruct (erased_fields _ _ He) as (Hent & Htgt & _).
  destruct (erased_m2m_fields _ _ He) as (Hpj & Hsj & _ & _ & Hsr).
  assert (Hsr' : is_selfref ra0 = true).
  { rewrite Hsr. unfold is_selfref. rewrite Hself. apply Nat.eqb_refl. }
  unfold make_secondary, get_desc.
  rewrite Hents, Hent, Htgt, <- Hself, Hd. simpl. rewrite Hauto.
  eexists _, _, _, _, _. split; [reflexivity|]. simpl.
  rewrite Hmeta. split; [reflexivity|].
  split; [by apply list_lookup_insert_eq; eapply lookup_lt_Some|].
  unfold m2m_side. cbn [fst snd tbl_columns primaryjoin_clauses
                        secondaryjoin_clauses set_secondary].
  rewrite Hsr', Hents, Hent, Htgt, <- Hself, Hpj, Hsj.
  split; [reflexivity|]. split.
  - intros c0 c1 H0 H1.
    apply list_elem_of_fmap in H0 as (p0 & -> & _).
    apply list_elem_of_fmap in H1 as (p1 & -> & _).
    unfold m2m_column. rewrite Hsr'. simpl. by apply append_last_neq.
  - repeat split; try reflexivity; by rewrite length_map.
Qed.

(** X21: for a many-to-many between two different entities, making or
    reflecting the bridge table leaves the two join lists of the
    relationship as they were: no join clause is derived. *)
Theorem plain_bridge_has_no_joins
    (w w0 w1 : World) (a : rel_id) (ra : Relationship) (inv_id : option rel_id) :
  rels w !! a = Some ra -> rel_kind ra = ManyToMany ->
  secondary_table ra = None ->
  rel_entity ra ≠ rel_target ra ->
  inverse w a = Ok (w0, inv_id) ->
  (forall i, inv_id = Some i ->
             exists ri, rels w0 !! i = Some ri /\ secondary_table ri = None) ->
  create_tables w a = Ok w1 ->
  exists (t : Table) (ra1 : Relationship),
    metadata w1 = metadata w ++ [t] /\ rels w1 !! a = Some ra1
    /\ primaryjoin_clauses ra1 = primaryjoin_clauses ra
    /\ secondaryjoin_clauses ra1 = secondaryjoin_clauses ra.
Proof.
  intros Hra Hk Hsec Hself Hinv Hnone H.
  destruct (create_tables_makes _ _ _ _ _ Hra Hk Hsec Hinv Hnone)
    as (ra0 & Hra0 & He & Hc).
  rewrite Hc in H.
  destruct (inverse_frame _ _ _ _ Hinv) as (_ & Hmeta & _ & _).
  destruct (erased_m2m_fields _ _ He) as (Hpj & Hsj & _ & _ & Hsr).
  destruct (make_secondary_named _ _ _ _ _ Hra0 H)
    as (d1 & d2 & t & pj & sj & _ & _ & -> & _ & _ & Hplain).
  destruct Hplain as [-> ->].
  { rewrite Hsr. unfold is_selfref. by apply Nat.eqb_neq. }
  exists t. eexists. simpl. rewrite Hmeta. split; [done|].
  split; [by apply list_lookup_insert_eq; eapply lookup_lt_Some|]. by simpl.
Qed.

(** X22: on an autoloaded owner [create_tables] refuses a target that is
    not autoloaded; and a self-referential many-to-many with neither
    [local_side] nor [remote_side] never gets its table: the reflection of
    the table fails, or the missing side arguments are reported. *)
Theorem reflected_bridge_errors
    (w w0 : World) (a : rel_id) (ra : Relationship) (inv_id : option rel_id)
    (d1 d2 : EntityDescriptor) :
  rels w !! a = Some ra -> rel_kind ra = ManyToMany ->
  secondary_table ra = None ->
  inverse w a = Ok (w0, inv_id) ->
  (forall i, inv_id = Some i ->
             exists ri, rels w0 !! i = Some ri /\ secondary_table ri = None) ->
  entities w !! rel_entity ra = Some d1 -> autoload d1 = true ->
  entities w !! rel_target ra = Some d2 ->
  (autoload d2 = false -> create_tables w a = Error TargetNotAutoloaded)
  /\ (autoload d2 = true -> rel_entity ra = rel_target ra ->
      local_side ra = [] -> remote_side ra = [] ->
      create_tables w a = Error SelfReferentialAmbiguity
      \/ create_tables w a = Error NoSuchTable).
Proof.
  intros Hra Hk Hsec Hinv Hnone Hd1 Hauto Hd2.
  destruct (create_tables_makes _ _ _ _ _ Hra Hk Hsec Hinv Hnone)
    as (ra0 & Hra0 & He & ->).
  destruct (inverse_frame _ _ _ _ Hinv) as (Hents & _ & Hdb & _).
  destruct (erased_fields _ _ He) as (Hent & Htgt & _).
  destruct (erased_m2m_fields _ _ He) as (_ & _ & Hls & Hrs & Hsr).
  unfold make_secondary, get_desc. rewrite Hents, Hent, Htgt, Hd1, Hd2. simpl.
  rewrite Hauto. unfold _reflect_table.
  rewrite (proj2 (get_rel_Ok _ _ _) Hra0). simpl.
  unfold get_desc. rewrite Hents, Hent, Htgt, Hd1, Hd2. simpl. split.
  - by intros ->.
  - intros -> Hself Hl Hr. simpl. unfold reflect_table.
    destruct (database w0 !! _) as [[cols cstrs]|]; simpl; [|by right].
    left. rewrite Hsr. unfold is_selfref. rewrite Hself, Nat.eqb_refl.
    by rewrite Hls, Hrs, Hl, Hr.
Qed.

(** X23: [create_tables] never touches the entity descriptors or the
    database, adds at most one table to the metadata, keeps the tables that
    were there, and changes no relationship but [self], apart from cached
    inverses. *)
Theorem create_tables_frame (w w1 : World) (a : rel_id) (ra : Relationship) :
  rels w !! a = Some ra -> rel_kind ra = ManyToMany ->
  create_tables w a = Ok w1 ->
  entities w1 = entities w /\ database w1 = database w
  /\ (metadata w1 = metadata w \/ exists t, metadata w1 = metadata w ++ [t])
  /\ forall j, j ≠ a ->
       set__inverse None <$> rels w1 !! j = set__inverse None <$> rels w !! j.
Proof.
  intros Hra Hk H.
  destruct (create_tables_cases _ _ _ _ Hra Hk H)
    as [[_ ->]|(Hsec & w0 & inv_id & ra0 & Hinv & Hra0 & He & Hcase)].
  { repeat split; try done. by left. }
  destruct (inverse_frame _ _ _ _ Hinv) as (Hents & Hmeta & Hdb & Hj).
  destruct Hcase as [(ri & t & _ & _ & ->)|[_ Hmake]].
  - simpl. repeat split; try done; [by left|].
    intros j Hne. rewrite list_lookup_insert_ne by done. apply Hj.
  - destruct (make_secondary_shape _ _ _ _ _ Hra0 Hmake) as (t & pj & sj & ->).
    simpl. repeat split; try done.
    + right. exists t. by rewrite Hmeta.
    + intros j Hne. rewrite list_lookup_insert_ne by done. apply Hj.
Qed.

(** ** Properties of the mapper *)

Lemma same_but_caches_refl (w : World) : same_but_caches w w.
Proof. by repeat split. Qed.

Lemma same_but_caches_trans (w1 w2 w3 : World) :
  same_but_caches w1 w2 -> same_but_caches w2 w3 -> same_but_caches w1 w3.
Proof.
  intros (He & Hm & Hd & Hj) (He' & Hm' & Hd' & Hj').
  split; [congruence|]. split; [congruence|]. split; [congruence|].
  intros j. by rewrite Hj', Hj.
Qed.

Lemma same_but_caches_lookup (w w' : World) (j : rel_id) (rj : Relationship) :
  same_but_caches w w' -> rels w !! j = Some rj ->
  exists rj', rels w' !! j = Some rj'
              /\ set__inverse None rj' = set__inverse None rj.
Proof.
  intros (_ & _ & _ & Hj) Hrj. specialize (Hj j). rewrite Hrj in Hj. revert Hj.
  destruct (rels w' !! j) as [rj'|]; simpl; intros Hj; [|discriminate].
  exists rj'. split; [done|]. congruence.
Qed.

Lemma inverse_object_world (w w1 : World) (self : rel_id) (ri : Relationship) :
  inverse_object w self = Ok (w1, ri) ->
  same_but_caches w w1
  /\ forall r b, rels w !! self = Some r -> _inverse r = Some b -> w1 = w.
Proof.
  intros H. unfold inverse_object in H. inv_bind H as res Hinv.
  destruct res as [w0 [i|]]; [|discriminate].
  inv_bind H as ri0 Hri. simplify_eq. split.
  - exact (inverse_frame _ _ _ _ Hinv).
  - intros r b Hr Hc. rewrite (inverse_cached _ _ _ _ Hr Hc) in Hinv. congruence.
Qed.

(** The dictionary [get_prop_kwargs] returns: the generated entries,
    replaced by the user's, with [order_by] translated for the to-many
    classes. *)
Lemma get_prop_kwargs_spec (w w' : World) (ps : PropStore) (self : rel_id)
    (r : Relationship) (kw : gmap string pval) :
  rels w !! self = Some r ->
  get_prop_kwargs w ps self = Ok (w', kw) ->
  exists gen : gmap string pval,
    kw = (if to_many (rel_kind r)
          then translate_order_by (rel_target r) (update gen (kwargs_of ps self))
          else update gen (kwargs_of ps self))
    /\ gen !! "uselist" = Some (PBool (to_many (rel_kind r)))
    /\ gen !! "order_by" = None /\ gen !! "backref" = None
    /\ same_but_caches w w'
    /\ forall b, _inverse r = Some b -> w' = w.
Proof.
  intros Hr H. unfold get_prop_kwargs in H.
  rewrite (proj2 (get_rel_Ok _ _ _) Hr) in H. simpl in H.
  assert (Hone : forall (b : bool) w2 kw2,
    OneToOne_get_prop_kwargs b w ps self = Ok (w2, kw2) ->
    exists gen : gmap string pval,
      kw2 = update gen (kwargs_of ps self)
      /\ gen !! "uselist" = Some (PBool b)
      /\ gen !! "order_by" = None /\ gen !! "backref" = None
      /\ same_but_caches w w2
      /\ forall b', _inverse r = Some b' -> w2 = w).
  { clear H. intros b w2 kw2 H. unfold OneToOne_get_prop_kwargs in H.
    inv_bind H as r0 Hr0. apply get_rel_Ok in Hr0.
    assert (r0 = r) as -> by congruence.
    inv_bind H as ed Hed. inv_bind H as td Htd.
    inv_bind H as res Hfirst. destruct res as [w1 kw1].
    inv_bind H as res Hsecond. destruct res as [w2' ri2]. injection H as <- <-.
    assert (Hw1 : same_but_caches w w1
                  /\ (forall b', _inverse r = Some b' -> w1 = w)
                  /\ kw1 !! "uselist" = Some (PBool b)
                  /\ kw1 !! "order_by" = None /\ kw1 !! "backref" = None).
    { destruct (same_table ed td).
      - inv_bind Hfirst as res Hobj. destruct res as [w1' ri1].
        injection Hfirst as <- <-.
        destruct (inverse_object_world _ _ _ _ Hobj) as [Hs Hc].
        split; [done|]. split; [by intros b'; apply Hc|]. done.
      - injection Hfirst as <- <-. split; [apply same_but_caches_refl|]. done. }
    destruct Hw1 as (Hs1 & Hc1 & Hu & Ho & Hb).
    destruct (inverse_object_world _ _ _ _ Hsecond) as [Hs2 Hc2].
    eexists. split; [reflexivity|].
    do 3 (split; [by destruct (nonempty (primaryjoin_clauses ri2));
                     rewrite ?lookup_insert_ne by done|]).
    split; [by eapply same_but_caches_trans|].
    intros b' Hb'. pose proof (Hc1 _ Hb') as ->. by eapply Hc2. }
  destruct (rel_kind r) eqn:Hk; simpl.
  - unfold ManyToOne_get_prop_kwargs in H.
    inv_bind H as r0 Hr0. inv_bind H as ed Hed. inv_bind H as td Htd.
    inv_bind H as kw1 Hkw1. injection H as <- <-.
    eexists. split; [reflexivity|].
    assert (Hk1 : kw1 !! "uselist" = Some (PBool false)
                  /\ kw1 !! "order_by" = None /\ kw1 !! "backref" = None).
    { destruct (same_table ed td).
      - inv_bind Hkw1 as tt Htt. by injection Hkw1 as <-.
      - by injection Hkw1 as <-. }
    destruct Hk1 as (Hu & Ho & Hb).
    do 3 (split; [by destruct (nonempty (primaryjoin_clauses r0));
                     rewrite ?lookup_insert_ne by done|]).
    split; [apply same_but_caches_refl|done].
  - destruct (Hone _ _ _ H) as (gen & -> & Hrest). by exists gen.
  - unfold OneToMany_get_prop_kwargs in H.
    inv_bind H as res Ho. destruct res as [w1 kw1].
    inv_bind H as r1 Hr1. apply get_rel_Ok in Hr1. injection H as <- <-.
    destruct (Hone _ _ _ Ho) as (gen & -> & Hu & Hob & Hb & Hs & Hc).
    exists gen. split; [|done].
    destruct (same_but_caches_lookup _ _ _ _ Hs Hr) as (r1' & Hr1' & He).
    assert (r1' = r1) as -> by congruence.
    by destruct (erased_fields _ _ He) as (_ & -> & _).
  - unfold ManyToMany_get_prop_kwargs in H.
    inv_bind H as r0 Hr0. apply get_rel_Ok in Hr0.
    assert (r0 = r) as -> by congruence. injection H as <- <-.
    eexists. split; [reflexivity|].
    split; [by destruct (is_selfref r)|].
    split; [by destruct (is_selfref r)|].
    split; [by destruct (is_selfref r)|].
    split; [apply same_but_caches_refl|done].
Qed.

Lemma translate_order_by_ne (target : ent_id) (kw : gmap string pval) (k : string) :
  k ≠ "order_by" -> translate_order_by target kw !! k = kw !! k.
Proof.
  intros Hk. unfold translate_order_by. destruct (kw !! "order_by"); [|done].
  by rewrite lookup_insert_ne.
Qed.

(** X24: what the user passes to the relationship wins over what
    [get_prop_kwargs] generates: every keyword of [self.kwargs] other than
    [order_by] is in the result with the user's value; [order_by] is the
    user's value, translated by the target's descriptor for [OneToMany]
    and [ManyToMany]; and without a user value [uselist] is true exactly
    for [OneToMany] and [ManyToMany]. *)
Theorem user_kwargs_win (w w' : World) (ps : PropStore) (self : rel_id)
    (r : Relationship) (kw : gmap string pval) :
  rels w !! self = Some r ->
  get_prop_kwargs w ps self = Ok (w', kw) ->
  (forall k v, kwargs_of ps self !! k = Some v -> k ≠ "order_by" ->
               kw !! k = Some v)
  /\ (forall v, kwargs_of ps self !! "order_by" = Some v ->
                kw !! "order_by"
                = Some (if to_many (rel_kind r) then PTranslated (rel_target r) v
                        else v))
  /\ (kwargs_of ps self !! "uselist" = None ->
      kw !! "uselist" = Some (PBool (to_many (rel_kind r)))).
Proof.
  intros Hr H.
  destruct (get_prop_kwargs_spec _ _ _ _ _ _ Hr H) as (gen & -> & Hu & Ho & _).
  assert (Hup : forall k v, kwargs_of ps self !! k = Some v ->
                            update gen (kwargs_of ps self) !! k = Some v).
  { intros k v Hk. unfold update. by apply lookup_union_Some_l. }
  split; [|split].
  - intros k v Hk Hne. destruct (to_many (rel_kind r)); [|by apply Hup].
    rewrite translate_order_by_ne by done. by apply Hup.
  - intros v Hv. destruct (to_many (rel_kind r)); [|by apply Hup].
    unfold translate_order_by. rewrite (Hup _ _ Hv). by rewrite lookup_insert_eq.
  - intros Hnone.
    assert (Hg : update gen (kwargs_of ps self) !! "uselist"
                 = Some (PBool (to_many (rel_kind r)))).
    { unfold update. by rewrite lookup_union_r. }
    destruct (to_many (rel_kind r)); [|done].
    by rewrite translate_order_by_ne.
Qed.

(** X25: of a matched pair of relationships without property or backref,
    the one whose [create_properties] runs first only prepares a backref
    under its own name, without the [secondary] keyword, and makes no
    property; the second one then makes the one property of the pair, with
    that backref (unless the user passed a [backref] of his own), and adds
    it to its entity; after that [create_properties] changes nothing on
    either side. *)
Theorem backref_then_property
    (w w1 w2 : World) (ps ps1 ps2 : PropStore) (a b : rel_id)
    (ra rb : Relationship) :
  a ≠ b ->
  rels w !! a = Some ra -> rels w !! b = Some rb ->
  _inverse ra = Some b -> _inverse rb = Some a ->
  rel_property ps !! a = None -> rel_backref ps !! a = None ->
  rel_property ps !! b = None -> rel_backref ps !! b = None ->
  create_properties w ps a = Ok (w1, ps1) ->
  create_properties w1 ps1 b = Ok (w2, ps2) ->
  w1 = w /\ w2 = w
  /\ (exists br : Backref,
        rel_backref ps1 !! a = Some br /\ rel_backref ps2 !! a = Some br
        /\ backref_name br = rel_name ra
        /\ backref_kwargs br !! "secondary" = None)
  /\ rel_property ps1 = rel_property ps
  /\ added_properties ps1 = added_properties ps
  /\ (exists p : Property,
        rel_property ps2 !! b = Some p
        /\ property_target p = rel_target rb
        /\ added_properties ps2
           = added_properties ps ++ [(rel_entity rb, rel_name rb, p)]
        /\ (kwargs_of ps b !! "backref" = None ->
            property_kwargs p !! "backref" = Some (PBackrefOf a)))
  /\ rel_property ps2 !! a = None /\ rel_backref ps2 !! b = None
  /\ create_properties w2 ps2 a = Ok (w2, ps2)
  /\ create_properties w2 ps2 b = Ok (w2, ps2).
Proof.
  intros Hab Hra Hrb Hca Hcb Hpa Hba Hpb Hbb H1 H2.
  (* the first side *)
  unfold create_properties in H1. rewrite Hpa, Hba in H1.
  rewrite !bool_decide_eq_false_2 in H1 by (by intros [? ?]). simpl in H1.
  rewrite (inverse_cached _ _ _ _ Hra Hca) in H1. simpl in H1.
  rewrite Hbb in H1. inv_bind H1 as res Hkwa. destruct res as [wa kwa].
  destruct (get_prop_kwargs_spec _ _ _ _ _ _ Hra Hkwa)
    as (_ & _ & _ & _ & _ & _ & Hwa).
  pose proof (Hwa _ Hca) as ->.
  rewrite (proj2 (get_rel_Ok _ _ _) Hra) in H1. simpl in H1.
  injection H1 as <- <-.
  (* the second side *)
  unfold create_properties in H2. simpl in H2. rewrite Hpb in H2.
  rewrite lookup_insert_ne in H2 by done. rewrite Hbb in H2.
  rewrite !bool_decide_eq_false_2 in H2 by (by intros [? ?]). simpl in H2.
  rewrite (inverse_cached _ _ _ _ Hrb Hcb) in H2. simpl in H2.
  rewrite lookup_insert_eq in H2. unfold build_property in H2.
  inv_bind H2 as res Hkwb. destruct res as [wb kwb].
  destruct (get_prop_kwargs_spec _ _ _ _ _ _ Hrb Hkwb)
    as (gen & Hkw & _ & _ & Hgb & _ & Hwb).
  pose proof (Hwb _ Hcb) as ->.
  rewrite (proj2 (get_rel_Ok _ _ _) Hrb) in H2. simpl in H2.
  injection H2 as <- <-.
  split; [done|]. split; [done|]. split.
  { eexists. split; [by simpl; rewrite lookup_insert_eq|].
    split; [by simpl; rewrite lookup_insert_eq|]. split; [done|].
    simpl. by rewrite lookup_delete_eq. }
  split; [done|]. split; [done|]. split.
  { eexists. split; [by simpl; rewrite lookup_insert_eq|].
    split; [done|]. split; [done|]. intros Hnone. simpl.
    unfold update at 1. rewrite lookup_union_r; [by rewrite lookup_singleton_eq|].
    assert (Hu : update gen (kwargs_of ps b) !! "backref" = None).
    { unfold update. rewrite lookup_union_r by done. done. }
    change (kwargs_of (set_backref a
              (mkBackref (rel_name ra) (delete "secondary" kwa)) ps) b)
      with (kwargs_of ps b) in Hkw.
    rewrite Hkw. destruct (to_many (rel_kind rb)); [|done].
    by rewrite translate_order_by_ne. }
  split; [by simpl; rewrite lookup_insert_ne|].
  split; [by simpl; rewrite lookup_insert_ne|].
  split.
  - unfold create_properties. simpl. rewrite lookup_insert_eq.
    rewrite (bool_decide_eq_true_2 (is_Some (Some _))) by eauto.
    by rewrite orb_true_r.
  - unfold create_properties. simpl. rewrite lookup_insert_eq.
    by rewrite (bool_decide_eq_true_2 (is_Some (Some _))) by eauto.
Qed.

(** X26: [create_properties] keeps [property] and [backref] exclusive:
    when no relationship has both before, none has both after; and it
    never removes or replaces a property or a backref that is there. *)
Theorem property_and_backref_exclusive
    (w w' : World) (ps ps' : PropStore) (self : rel_id) :
  (forall i, ~ (is_Some (rel_property ps !! i) /\ is_Some (rel_backref ps !! i))) ->
  create_properties w ps self = Ok (w', ps') ->
  (forall i, ~ (is_Some (rel_property ps' !! i) /\ is_Some (rel_backref ps' !! i)))
  /\ (forall i p, rel_property ps !! i = Some p -> rel_property ps' !! i = Some p)
  /\ (forall i b, rel_backref ps !! i = Some b -> rel_backref ps' !! i = Some b)
  /\ rel_kwargs ps' = rel_kwargs ps.
Proof.
  intros Hex H. unfold create_properties in H.
  destruct (bool_decide (is_Some (rel_property ps !! self))
            || bool_decide (is_Some (rel_backref ps !! self))) eqn:Hset.
  { injection H as <- <-. by repeat split. }
  apply orb_false_elim in Hset as [Hp Hb].
  apply bool_decide_eq_false_1 in Hp, Hb.
  assert (Hpn : rel_property ps !! self = None).
  { destruct (rel_property ps !! self) eqn:E; [|done]. destruct Hp. eauto. }
  assert (Hbn : rel_backref ps !! self = None).
  { destruct (rel_backref ps !! self) eqn:E; [|done]. destruct Hb. eauto. }
  assert (Hbuild : forall w0 kw0 w1 ps1,
    build_property w0 ps self kw0 = Ok (w1, ps1) ->
    (forall i, ~ (is_Some (rel_property ps1 !! i) /\ is_Some (rel_backref ps1 !! i)))
    /\ (forall i p, rel_property ps !! i = Some p -> rel_property ps1 !! i = Some p)
    /\ (forall i b, rel_backref ps !! i = Some b -> rel_backref ps1 !! i = Some b)
    /\ rel_kwargs ps1 = rel_kwargs ps).
  { intros w0 kw0 w1 ps1 Hb'. unfold build_property in Hb'.
    inv_bind Hb' as res Hkw. destruct res as [w2 kw].
    inv_bind Hb' as r Hr. injection Hb' as <- <-. simpl. repeat split; try done.
    - intros i [Hpi Hbi]. destruct (decide (i = self)) as [->|Hne].
      + rewrite Hbn in Hbi. by destruct Hbi.
      + rewrite lookup_insert_ne in Hpi by done. by apply (Hex i).
    - intros i p Hi. destruct (decide (i = self)) as [->|Hne]; [congruence|].
      by rewrite lookup_insert_ne. }
  inv_bind H as res Hinv. destruct res as [w0 [i|]]; [|by eapply Hbuild].
  destruct (rel_backref ps !! i) as [bi|]; [by eapply Hbuild|].
  inv_bind H as res Hkw. destruct res as [w2 kw].
  inv_bind H as r Hr. injection H as <- <-. simpl. repeat split; try done.
  - intros j [Hpj Hbj]. destruct (decide (j = self)) as [->|Hne].
    + rewrite Hpn in Hpj. by destruct Hpj.
    + rewrite lookup_insert_ne in Hbj by done. by apply (Hex j).
  - intros j b Hj. destruct (decide (j = self)) as [->|Hne]; [congruence|].
    by rewrite lookup_insert_ne.
Qed.

(** X27: a relationship whose inverse resolution finds no counterpart
    makes its property alone: [create_properties] stores the property,
    adds it to the entity under the relationship's name, prepares no
    backref, and gives [relation] a [backref] keyword only if the user
    passed one. *)
Theorem property_without_inverse
    (w w0 w1 : World) (ps ps1 : PropStore) (self : rel_id) (r : Relationship) :
  rels w !! self = Some r ->
  rel_property ps !! self = None -> rel_backref ps !! self = None ->
  inverse w self = Ok (w0, None) ->
  create_properties w ps self = Ok (w1, ps1) ->
  exists p : Property,
    rel_property ps1 = <[self := p]> (rel_property ps)
    /\ rel_backref ps1 = rel_backref ps
    /\ added_properties ps1
       = added_properties ps ++ [(rel_entity r, rel_name r, p)]
    /\ property_target p = rel_target r
    /\ property_kwargs p !! "backref" = kwargs_of ps self !! "backref".
Proof.
  intros Hr Hp Hb Hinv H. unfold create_properties in H.
  rewrite Hp, Hb in H.
  rewrite !bool_decide_eq_false_2 in H by (by intros [? ?]). simpl in H.
  rewrite Hinv in H. simpl in H. unfold build_property in H.
  pose proof (inverse_none_leaves_store_aux _ _ _ Hinv) as ->.
  inv_bind H as res Hkw. destruct res as [w2 kw].
  inv_bind H as r2 Hr2. apply get_rel_Ok in Hr2. injection H as <- <-.
  destruct (get_prop_kwargs_spec _ _ _ _ _ _ Hr Hkw)
    as (gen & -> & _ & _ & Hgb & Hs & _).
  destruct (same_but_caches_lookup _ _ _ _ Hs Hr) as (r2' & Hr2' & He).
  assert (r2' = r2) as -> by congruence.
  destruct (erased_fields _ _ He) as (-> & -> & -> & _).
  eexists. repeat split. simpl. unfold update at 1.
  rewrite lookup_union_l by done.
  assert (Hu : update gen (kwargs_of ps self) !! "backref"
               = kwargs_of ps self !! "backref").
  { unfold update. destruct (kwargs_of ps self !! "backref") as [v|] eqn:Hv.
    - by apply lookup_union_Some_l.
    - by rewrite lookup_union_r. }
  destruct (to_many (rel_kind r)); [|done].
  by rewrite translate_order_by_ne.
Qed.

(** ** The target of a relationship *)

Lemma rsplit_dot_plain (s : string) :
  has_dot s = false -> rsplit_dot s = (None, s).
Proof.
  induction s as [|c s IH]; simpl; [done|]. intros H.
  apply orb_false_elim in H as [Hc Hs]. by rewrite (IH Hs), Hc.
Qed.

Lemma rsplit_dot_qualified (m c : string) :
  has_dot c = false -> rsplit_dot (m +:+ "." +:+ c) = (Some m, c).
Proof.
  intros Hc. induction m as [|x m IH].
  - change (rsplit_dot (String "." c) = (Some EmptyString, c)).
    simpl. by rewrite (rsplit_dot_plain _ Hc).
  - change (rsplit_dot (String x (m +:+ "." +:+ c)) = (Some (String x m), c)).
    simpl. by rewrite IH.
Qed.

(** X28: a target given by name is looked up by the place of its last
    dot.  A name without dot is looked up among the entities of the caller
    and a missing name is an error; a qualified name is looked up in the
    module named by all that precedes its last dot, a missing module is an
    error, but a module without that attribute gives [None], without error
    and without anything cached; and a target once found is returned from
    then on without any lookup. *)
Theorem target_lookup (reg : Registry) (caller module_name classname : string) :
  has_dot classname = false ->
  target reg caller None (OfName classname)
  = match _entities reg !! caller ≫= (fun ce => ce !! classname) with
    | Some e => Ok (Some e)
    | None => Error (CollaboratorError "KeyError")
    end
  /\ target reg caller None (OfName (module_name +:+ "." +:+ classname))
     = match sys_modules reg !! module_name with
       | Some module => Ok (module !! classname)
       | None => Error (CollaboratorError "KeyError")
       end
  /\ forall (k : of_kind_arg) (e : ent_id) (reg' : Registry) (caller' : string),
       target reg caller None k = Ok (Some e) ->
       target reg' caller' (Some e) k = Ok (Some e).
Proof.
  intros Hc. unfold target. split; [|split].
  - rewrite (rsplit_dot_plain _ Hc).
    destruct (_entities reg !! caller) as [ce|]; simpl; [|done].
    by destruct (ce !! classname).
  - by rewrite (rsplit_dot_qualified _ _ Hc).
  - done.
Qed.

End Schema.

(** * Concrete runs *)

(** The matcher lets a third relationship in as well: without inverse
    names, [owner] resolves to [pets], then [feeder] resolves to [pets]
    too and takes its cached inverse; [pets] itself has two candidates. *)
Example matcher_overwrites_too :
  exists w1 w2 : World,
    inverse unnamed_pets_world 1 = Ok (w1, Some 0)
    /\ inverse w1 2 = Ok (w2, Some 0)
    /\ _inverse <$> rels w2 !! 0 = Some (Some 2)
    /\ inverse unnamed_pets_world 0 = Error AmbiguousInverse.
Proof.
  eexists _, _. split; [vm_compute; reflexivity|].
  split; [vm_compute; reflexivity|]. split; vm_compute; reflexivity.
Qed.

(** The two failures of a resolution by name. *)
Example inverse_name_not_found :
  inverse keeper_world 0 = Error InverseNotFound.
Proof. vm_compute. reflexivity. Qed.

Example inverse_name_of_wrong_kind :
  inverse friends_world 0 = Error TypeMismatch.
Proof. vm_compute. reflexivity. Qed.

(** A name declared on a parent entity is found from the child. *)
Example find_relationship_inherited :
  find_relationship
    (mkWorld [mkEntityDescriptor "Animal" "animal" false None [0] [] [] None None;
              mkEntityDescriptor "Pet" "pet" false (Some 0) [] [] [] None None]
       [set_entity_name 0 "owner" (ManyToOne_init 0 no_M2OArgs)] [] ∅)
    1 "owner" = Some 0.
Proof. reflexivity. Qed.

(** C2 (counterexample): [Person.pets] resolves to [Pet.owner], which makes
    the two a pair; resolving [Pet.feeder], whose [inverse='pets'] names
    the same one-to-many, then yields [pets] and overwrites its cached
    inverse: [feeder], a third relationship, has become the resolved inverse
    of [pets], while [owner] still holds [pets]. *)
Lemma third_relationship_takes_inverse :
  exists w1 w2 : World,
    inverse pets_world 0 = Ok (w1, Some 1)
    /\ _inverse <$> rels w1 !! 1 = Some (Some 0)
    /\ inverse w1 2 = Ok (w2, Some 0)
    /\ _inverse <$> rels w2 !! 0 = Some (Some 2)
    /\ inverse w2 0 = Ok (w2, Some 2)
    /\ inverse w2 1 = Ok (w2, Some 0).
Proof.
  eexists _, _. split; [vm_compute; reflexivity|].
  split; [reflexivity|]. split; [vm_compute; reflexivity|].
  split; [reflexivity|]. split; vm_compute; reflexivity.
Qed.

(** C6 (counterexample): the reflected bridge table [friends] of a
    self-referential many-to-many on [person] has three foreign-key
    constraints to [person]; only [local_side='a_id'] is given.  The
    constraint on [a_id] fills the primary slot, and the two others both
    fill the secondary slot: the deriver returns the clauses of both as the
    secondary join, and no error. *)
Lemma ambiguous_join_is_accepted :
  size (constraint_map friends_table person_table) = 3
  /\ (_get_join_clauses friends_table ["a_id"] (Some []) person_table).1
     = [ClauseEq (friend_column "a_id") id_column]
  /\ length (_get_join_clauses friends_table ["a_id"] (Some []) person_table).2 = 2
  /\ ClauseEq (friend_column "b_id") id_column
       ∈ (_get_join_clauses friends_table ["a_id"] (Some []) person_table).2
  /\ ClauseEq (friend_column "c_id") id_column
       ∈ (_get_join_clauses friends_table ["a_id"] (Some []) person_table).2.
Proof.
  repeat split; try (vm_compute; reflexivity);
    apply list_elem_of_In; vm_compute; tauto.
Qed.

(** The same input reaches the deriver from [create_tables]: the
    self-referential relationship is built, with two clauses in its
    secondary join. *)
Example ambiguous_bridge_is_reflected :
  exists (w1 : World) (r1 : Relationship),
    create_tables pk_of_columns example_format_m2mcol selfref_world 0 = Ok w1
    /\ rels w1 !! 0 = Some r1
    /\ length (primaryjoin_clauses r1) = 1
    /\ length (secondaryjoin_clauses r1) = 2.
Proof.
  eexists _, _. split; [vm_compute; reflexivity|].
  split; [vm_compute; reflexivity|]. split; reflexivity.
Qed.

(** [pets] resolves to [owner], and both ends then answer from the cache. *)
Lemma inverse_symmetric_idempotent_witness :
  exists (w' : World) (ra : Relationship),
    rels pets_world !! 0 = Some ra
    /\ inverse pets_world 0 = Ok (w', Some 1)
    /\ inverse w' 0 = Ok (w', Some 1)
    /\ (_inverse ra = None ->
        (exists rb', rels w' !! 1 = Some rb' /\ _inverse rb' = Some 0)
        /\ inverse w' 1 = Ok (w', Some 0)).
Proof.
  eexists _, _. split; [reflexivity|]. split; [vm_compute; reflexivity|].
  apply (inverse_symmetric_idempotent pets_world _ 0 1 _ eq_refl).
  vm_compute; reflexivity.
Defined.

(** C8 (counterexample): [Pet.owner] names the inverse [nonexistent],
    which [Person] does not have, and read first it fails as the claim
    says.  But [Person.pets], which names [owner], is read first by the
    set-up: it resolves to [owner] and fills the cache of [owner].  From
    then on [owner] yields [pets]: the name is still not found on [Person],
    and nothing fails. *)
Lemma cached_inverse_skips_lookup :
  exists (w1 : World) (owner : Relationship),
    inverse misnamed_owner_world 1 = Error InverseNotFound
    /\ inverse misnamed_owner_world 0 = Ok (w1, Some 1)
    /\ rels w1 !! 1 = Some owner
    /\ inverse_name owner = Some "nonexistent"
    /\ find_relationship w1 (rel_target owner) "nonexistent" = None
    /\ inverse w1 1 = Ok (w1, Some 0).
Proof.
  eexists _, _. split; [vm_compute; reflexivity|].
  split; [vm_compute; reflexivity|]. split; [vm_compute; reflexivity|].
  split; [reflexivity|]. split; vm_compute; reflexivity.
Qed.

(** The three outcomes of a lookup by name: [Person.pets] names [owner]
    and gets it, names [keeper], which [Pet] does not have, and names
    [friends], which is a [OneToMany] as well; and [Pet.owner], whose
    cache [Person.pets] has filled, yields [pets] whatever it names. *)
Lemma explicit_inverse_lookup_witness :
  (exists w' : World, inverse pets_world 0 = Ok (w', Some 1))
  /\ inverse keeper_world 0 = Error InverseNotFound
  /\ inverse friends_world 0 = Error TypeMismatch
  /\ (exists w1 : World,
        inverse misnamed_owner_world 0 = Ok (w1, Some 1)
        /\ inverse w1 1 = Ok (w1, Some 0)).
Proof.
  split; [|split; [|split]].
  - assert (Hne : "owner" ≠ "") by discriminate.
    destruct (explicit_inverse_lookup pets_world 0
                (set_entity_name 0 "pets"
                   (Relationship_init OneToMany 1 (Some "owner")))
                "owner" eq_refl eq_refl Hne) as (_ & H & _).
    destruct (H eq_refl) as (ri & Hri & _ & Hm).
    injection Hri as <-. exact Hm.
  - assert (Hne : "keeper" ≠ "") by discriminate.
    destruct (explicit_inverse_lookup keeper_world 0
                (set_entity_name 0 "pets"
                   (Relationship_init OneToMany 1 (Some "keeper")))
                "keeper" eq_refl eq_refl Hne) as (_ & H & _).
    exact (H eq_refl).
  - assert (Hne : "friends" ≠ "") by discriminate.
    destruct (explicit_inverse_lookup friends_world 0
                (set_entity_name 0 "pets"
                   (Relationship_init OneToMany 1 (Some "friends")))
                "friends" eq_refl eq_refl Hne) as (_ & H & _).
    destruct (H eq_refl) as (ri & Hri & _ & Hm).
    injection Hri as <-. exact Hm.
  - assert (Hne : "nonexistent" ≠ "") by discriminate.
    eexists ?[w1].
    assert (H1 : inverse misnamed_owner_world 0 = Ok (?w1, Some 1))
      by (vm_compute; reflexivity).
    split; [exact H1|].
    match type of H1 with
    | _ = Ok (?w1', _) =>
        destruct (explicit_inverse_lookup w1' 1
                    (set__inverse (Some 0)
                       (set_entity_name 1 "owner"
                          (ManyToOne_init 0 (M2O_inverse "nonexistent"))))
                    "nonexistent" eq_refl eq_refl Hne) as (H & _ & _)
    end.
    exact (H 0 eq_refl).
Defined.

(** [Person.children] without a [ManyToOne] on the other side fails. *)
Lemma onetoone_needs_inverse_witness :
  create_keys pk_cols_done pk_of_columns default_FKCOL_NAMEFORMAT
    example_CONSTRAINT_NAMEFORMAT children_only_world 0 true
  = Error MissingInverse.
Proof.
  assert (Hty : cache_typed children_only_world).
  { apply cache_typed_fresh. repeat constructor. }
  destruct (onetoone_needs_inverse pk_cols_done pk_of_columns
              default_FKCOL_NAMEFORMAT example_CONSTRAINT_NAMEFORMAT
              children_only_world 0
              (set_entity_name 0 "children" (Relationship_init OneToMany 0 None))
              true eq_refl (or_intror eq_refl) Hty) as [H _].
  apply (H children_only_world). vm_compute. reflexivity.
Defined.

(** The bridge table of [Article.tags] and [Tag.articles] gets the same
    name from either end. *)
Lemma bridge_name_independent_of_order_witness :
  exists w1 w2 : World,
    create_tables pk_of_columns example_format_m2mcol articles_world 0 = Ok w1
    /\ create_tables pk_of_columns example_format_m2mcol articles_world 1 = Ok w2
    /\ exists t1 t2 : Table,
         metadata w1 = metadata articles_world ++ [t1]
         /\ metadata w2 = metadata articles_world ++ [t2]
         /\ tbl_name t1 = tbl_name t2.
Proof.
  assert (Hne : "article" ≠ "tag") by discriminate.
  eexists ?[w1], ?[w2].
  assert (Hia : inverse articles_world 0 = Ok (?[wa], Some 1))
    by (vm_compute; reflexivity).
  assert (Hib : inverse articles_world 1 = Ok (?[wb], Some 0))
    by (vm_compute; reflexivity).
  assert (H1 : create_tables pk_of_columns example_format_m2mcol articles_world 0
               = Ok ?w1) by (vm_compute; reflexivity).
  assert (H2 : create_tables pk_of_columns example_format_m2mcol articles_world 1
               = Ok ?w2) by (vm_compute; reflexivity).
  split; [exact H1|]. split; [exact H2|].
  exact (bridge_name_independent_of_order pk_of_columns example_format_m2mcol
           articles_world _ _ _ _ 0 1
           (set_entity_name 0 "tags" (ManyToMany_init 1 no_M2MArgs))
           (set_entity_name 1 "articles" (ManyToMany_init 0 no_M2MArgs))
           (with_relationships [0] (plain_entity "Article" "article" [id_column]))
           (with_relationships [1] (plain_entity "Tag" "tag" [id_column]))
           eq_refl eq_refl eq_refl eq_refl eq_refl eq_refl eq_refl eq_refl
           Hne eq_refl eq_refl eq_refl eq_refl Hia Hib H1 H2).
Defined.

(** [Article.tags] makes the table, [Tag.articles] adopts it. *)
Lemma bridge_table_shared_and_swapped_witness :
  exists w1 : World,
    create_tables pk_of_columns example_format_m2mcol articles_world 0 = Ok w1
    /\ exists (t : Table) (ra1 : Relationship),
         metadata w1 = metadata articles_world ++ [t]
         /\ rels w1 !! 0 = Some ra1
         /\ secondary_table ra1 = Some (length (metadata articles_world))
         /\ exists (w2 : World) (rb2 : Relationship),
              create_tables pk_of_columns example_format_m2mcol w1 1 = Ok w2
              /\ metadata w2 = metadata w1
              /\ rels w2 !! 1 = Some rb2
              /\ secondary_table rb2 = secondary_table ra1
              /\ primaryjoin_clauses rb2 = secondaryjoin_clauses ra1
              /\ secondaryjoin_clauses rb2 = primaryjoin_clauses ra1
              /\ rels w2 !! 0 = Some ra1.
Proof.
  assert (Hab : 0 ≠ 1) by discriminate.
  eexists ?[w1].
  assert (Hinv : inverse articles_world 0 = Ok (?[w0], Some 1))
    by (vm_compute; reflexivity).
  match type of Hinv with
  | _ = Ok (?w0, _) =>
      assert (Hb : rels w0 !! 1 = Some ?[rb0]) by (vm_compute; reflexivity)
  end.
  assert (Hc : create_tables pk_of_columns example_format_m2mcol articles_world 0
               = Ok ?w1) by (vm_compute; reflexivity).
  split; [exact Hc|].
  exact (bridge_table_shared_and_swapped pk_of_columns example_format_m2mcol
           articles_world _ _ 0 1
           (set_entity_name 0 "tags" (ManyToMany_init 1 no_M2MArgs)) _
           Hab eq_refl eq_refl eq_refl Hinv Hb
           eq_refl eq_refl eq_refl Hc).
Defined.

(** The bridge table of [Article.tags]: two columns, both in the primary
    key. *)
Lemma bridge_columns_all_primary_key_witness :
  exists (w1 : World) (t : Table),
    create_tables pk_of_columns example_format_m2mcol articles_world 0 = Ok w1
    /\ metadata w1 = metadata articles_world ++ [t]
    /\ secondary_table <$> rels w1 !! 0
       = Some (Some (length (metadata articles_world)))
    /\ tbl_autoload t = false
    /\ Forall (fun c => col_primary_key c = true) (tbl_columns t)
    /\ length (tbl_columns t)
       = length (pk_of_columns (entities articles_world) 0)
         + length (pk_of_columns (entities articles_world) 1).
Proof.
  assert (Hinv : inverse articles_world 0 = Ok (?[w0], Some 1))
    by (vm_compute; reflexivity).
  match type of Hinv with
  | _ = Ok (?w0, _) =>
      assert (Hb : rels w0 !! 1 = Some ?[rb0]) by (vm_compute; reflexivity)
  end.
  refine (bridge_columns_all_primary_key pk_of_columns example_format_m2mcol
            articles_world _ 0
            (set_entity_name 0 "tags" (ManyToMany_init 1 no_M2MArgs)) (Some 1)
            (with_relationships [0] (plain_entity "Article" "article" [id_column]))
            (with_relationships [1] (plain_entity "Tag" "tag" [id_column]))
            eq_refl eq_refl eq_refl Hinv _ eq_refl eq_refl eq_refl).
  intros i Hi. injection Hi as <-. eexists. split; [exact Hb | reflexivity].
Defined.

(** [Pet.owner] with an Integer [Person.id]. *)
Lemma many_to_one_keys_match_primary_key_witness :
  exists (w2 : World) (r2 : Relationship) (sd2 : EntityDescriptor),
    create_keys pk_cols_done pk_of_columns default_FKCOL_NAMEFORMAT
      example_CONSTRAINT_NAMEFORMAT (pet_owner_world "Integer") 0 false = Ok w2
    /\ rels w2 !! 0 = Some r2
    /\ entities w2 !! 1 = Some sd2
    /\ desc_columns sd2 = [id_column] ++ foreign_key r2
    /\ length (foreign_key r2) = 1
    /\ primaryjoin_clauses r2
       = zip_with ClauseEq (foreign_key r2) [person_id "Integer"]
    /\ Forall2 (fun c p => col_type c = col_type p) (foreign_key r2)
         [person_id "Integer"].
Proof.
  assert (Hne : pk_of_columns (entities (pet_owner_world "Integer")) 0 ≠ [])
    by discriminate.
  exact (many_to_one_keys_match_primary_key pk_cols_done pk_of_columns
           default_FKCOL_NAMEFORMAT example_CONSTRAINT_NAMEFORMAT
           (pet_owner_world "Integer") (pet_owner_world "Integer") 0
           (set_entity_name 1 "owner" (ManyToOne_init 0 no_M2OArgs))
           (with_relationships [0] (plain_entity "Pet" "pet" [id_column]))
           (plain_entity "Person" "person" [person_id "Integer"])
           false eq_refl eq_refl eq_refl eq_refl eq_refl eq_refl eq_refl
           eq_refl eq_refl eq_refl Hne (or_introl eq_refl)).
Defined.

(** Under the default format the new column of [Pet] is [owner_id]. *)
Lemma pet_owner_gets_one_column_witness :
  exists (w2 : World) (kw : gmap string kwval),
    create_keys pk_cols_done pk_of_columns default_FKCOL_NAMEFORMAT
      example_CONSTRAINT_NAMEFORMAT (pet_owner_world "Integer") 0 false = Ok w2
    /\ desc_columns <$> entities w2 !! 1
       = Some [id_column; mkColumn "owner_id" "Integer" {["index" := VBool true]}]
    /\ desc_constraints <$> entities w2 !! 1
       = Some [FKConstraint
                 (mkForeignKeyConstraint ["owner_id"] ["person.id"] kw [])].
Proof.
  destruct (pet_owner_gets_one_column pk_cols_done pk_of_columns
              default_FKCOL_NAMEFORMAT example_CONSTRAINT_NAMEFORMAT
              "Integer" eq_refl eq_refl)
    as (_ & w2 & kw & Hc & Hcols & _ & _ & _ & _ & Hcons & _).
  exists w2, kw. split; [exact Hc|]. split; [exact Hcols | exact Hcons].
Defined.

(** [Item.owner] on a reflected [Item]: both passes add nothing. *)
Lemma autoloaded_many_to_one_creates_nothing_witness :
  create_keys pk_cols_done pk_of_columns default_FKCOL_NAMEFORMAT
    example_CONSTRAINT_NAMEFORMAT reflected_world 0 false = Ok reflected_world
  /\ foreign_key <$> rels reflected_world !! 0 = Some []
  /\ primaryjoin_clauses <$> rels reflected_world !! 0 = Some [].
Proof.
  exact (autoloaded_many_to_one_creates_nothing pk_cols_done pk_of_columns
           default_FKCOL_NAMEFORMAT example_CONSTRAINT_NAMEFORMAT
           reflected_world reflected_world 0
           (set_entity_name 1 "owner" (ManyToOne_init 0 no_M2OArgs))
           (with_relationships [0]
              (reflected_entity "Item" "item" (mkTable "item" [id_column] [] true)))
           (reflected_entity "User" "user" (mkTable "user" [id_column] [] true))
           false eq_refl eq_refl eq_refl eq_refl eq_refl eq_refl eq_refl
           eq_refl eq_refl eq_refl).
Defined.
